(** * react-scan, native instrumentation: measurement scheduler and outline aggregator

    A shallow embedding of [src/core/native/instrument.ts] and the
    properties its specification states about it.

    The module keeps three pieces of state (the measurement cache, the
    pending counter and the request queue), talks to the host through
    [UIManager.measure] / [measureInWindow] and publishes outlines in
    [ReactScanInternals.activeOutlines].  JavaScript objects that are shared
    and mutated in place (the outline arrays and the outline objects) live in
    an explicit store, addressed by references.

    What the model takes from the environment: the first-child chain below a
    fiber is finite; a callback handed to [measureFiber] does not call the
    module again (it returns in the first account of the scheduler and may
    throw in the second, whose definitions are primed); the host answers a
    call at most once;
    [Date.now()] is an oracle that is read once per call.  Code runs to
    completion between two inputs, as JavaScript does.  The hooks of
    [ReactScanInternals.options] return or throw and do not call the module;
    the rest of an [async] function runs as a reaction job of the promise it
    awaits, when the stack is empty. *)

From Stdlib Require Import ZArith Lia String.
From stdpp Require Import base option list gmap strings pretty.

Local Open Scope string_scope.
Local Open Scope list_scope.
Local Open Scope Z_scope.

(** ** Completions: normal return or a thrown exception, over a state *)

Inductive JsError : Type :=
  | TypeError (msg : string)
  | Error (msg : string).

Inductive Completion (S A : Type) : Type :=
  | Normal (a : A) (s : S)
  | Thrown (e : JsError) (s : S).
Arguments Normal {S A} a s.
Arguments Thrown {S A} e s.

Definition JS (S A : Type) : Type := S -> Completion S A.

Definition ret {S A} (a : A) : JS S A := fun s => Normal a s.

Definition bind {S A B} (m : JS S A) (k : A -> JS S B) : JS S B :=
  fun s => match m s with
           | Normal a s' => k a s'
           | Thrown e s' => Thrown e s'
           end.

Definition throw {S A} (e : JsError) : JS S A := fun s => Thrown e s.

Definition try_catch {S A} (body : JS S A) (handler : JsError -> JS S A) : JS S A :=
  fun s => match body s with
           | Normal a s' => Normal a s'
           | Thrown e s' => handler e s'
           end.

Definition gets {S A} (f : S -> A) : JS S A := fun s => Normal (f s) s.
Definition modify {S} (f : S -> S) : JS S unit := fun s => Normal tt (f s).

Declare Scope js_scope.
Delimit Scope js_scope with js.
Notation "'let*' x ':=' m 'in' k" := (bind m (fun x => k))
  (at level 10, x name, m at level 100, k at level 200) : js_scope.
Notation "m ';;' k" := (bind m (fun _ => k))
  (at level 100, k at level 200, right associativity) : js_scope.

(** The state a completion ends in, whether it returned or threw. *)
Definition final_state {S A} (c : Completion S A) : S :=
  match c with Normal _ s => s | Thrown _ s => s end.

Definition returns {S A} (c : Completion S A) : Prop :=
  match c with Normal _ _ => True | Thrown _ _ => False end.

Section Instrument.

(** JavaScript numbers are kept abstract: the module only moves them around,
    tests them for truthiness and prints them into the outline key. *)
Context {number : Type}.
(** [String(n)], as a template literal applies it. *)
Variable toString : number -> string.
(** [ToBoolean] on a number: false on [0], [-0] and [NaN]. *)
Variable truthy : number -> bool.

(** *** Geometry: [MeasurementValue] *)
Record MeasurementValue : Type := mkMeasurementValue {
  width : number;
  height : number;
  pageX : number;
  pageY : number;
  x : number;
  y : number
}.

(** *** Fibers *)
Definition FiberId : Type := positive.

Record Canonical : Type := mkCanonical {
  nativeTag : option number
}.

(** [measureInWindow] is a host method; the model keeps the handle of the
    native view it measures. *)
Record StateNode : Type := mkStateNode {
  canonical : option Canonical;
  _nativeTag : option number;
  measureInWindow : option positive
}.

(** [Fiber | null].  A fiber object has an identity (the key of the
    [WeakMap]), a state node, a first child, a next sibling and an
    alternate, of which only the identity matters here. *)
Inductive Fiber : Type :=
  | null
  | fiberObj (id : FiberId) (stateNode : option StateNode)
             (child : Fiber) (sibling : Fiber) (alternate : option FiberId).

(** *** Scheduler state *)
Record CacheEntry : Type := mkCacheEntry {
  measurement : MeasurementValue;
  timestamp : Z
}.

Definition PromiseId : Type := nat.
Definition Callback : Type := positive.

(** An entry of [queue]: [{ fiber, callback, resolve }]. *)
Record Request : Type := mkRequest {
  fiber : Fiber;
  callback : option Callback;
  resolve : PromiseId
}.

(** What the host is asked to measure. *)
Inductive HostCall : Type :=
  | UIManager_measure (tag : option number)
  | stateNode_measureInWindow (view : positive).

(** A host call that has not called back yet, with the [handleMeasurement]
    closure it was given (the closure captures the dequeued request). *)
Record Outstanding : Type := mkOutstanding {
  host_call : HostCall;
  closure : Request
}.

Inductive PromiseState : Type :=
  | Fulfilled (v : option MeasurementValue)
  | Rejected (e : JsError).

(** Observable steps of the scheduler, newest first in [trace]. *)
Inductive Event : Type :=
  | Shifted (p : PromiseId)
  | HostAsked (call : HostCall) (p : PromiseId)
  | HostReplied (p : PromiseId)
  | CallbackCalled (cb : Callback) (v : option MeasurementValue)
  | Resolved (p : PromiseId) (v : option MeasurementValue).

Record Scheduler : Type := mkScheduler {
  measurementCache : gmap FiberId CacheEntry;
  pendingCount : Z;
  queue : list Request;
  (* the world around the module *)
  bridge : list Outstanding;
  promises : gmap PromiseId PromiseState;
  nextPromise : PromiseId;
  clockReads : nat;
  trace : list Event
}.

Definition MAX_PENDING : Z := 50.

Definition init : Scheduler :=
  mkScheduler ∅ 0 [] [] ∅ O O [].

Definition with_cache (f : gmap FiberId CacheEntry -> gmap FiberId CacheEntry)
    (s : Scheduler) : Scheduler :=
  mkScheduler (f (measurementCache s)) (pendingCount s) (queue s) (bridge s)
              (promises s) (nextPromise s) (clockReads s) (trace s).
Definition with_pendingCount (f : Z -> Z) (s : Scheduler) : Scheduler :=
  mkScheduler (measurementCache s) (f (pendingCount s)) (queue s) (bridge s)
              (promises s) (nextPromise s) (clockReads s) (trace s).
Definition with_queue (f : list Request -> list Request) (s : Scheduler) : Scheduler :=
  mkScheduler (measurementCache s) (pendingCount s) (f (queue s)) (bridge s)
              (promises s) (nextPromise s) (clockReads s) (trace s).
Definition with_bridge (f : list Outstanding -> list Outstanding)
    (s : Scheduler) : Scheduler :=
  mkScheduler (measurementCache s) (pendingCount s) (queue s) (f (bridge s))
              (promises s) (nextPromise s) (clockReads s) (trace s).
Definition with_promises (f : gmap PromiseId PromiseState -> gmap PromiseId PromiseState)
    (s : Scheduler) : Scheduler :=
  mkScheduler (measurementCache s) (pendingCount s) (queue s) (bridge s)
              (f (promises s)) (nextPromise s) (clockReads s) (trace s).
Definition with_nextPromise (f : PromiseId -> PromiseId) (s : Scheduler) : Scheduler :=
  mkScheduler (measurementCache s) (pendingCount s) (queue s) (bridge s)
              (promises s) (f (nextPromise s)) (clockReads s) (trace s).
Definition with_clockReads (f : nat -> nat) (s : Scheduler) : Scheduler :=
  mkScheduler (measurementCache s) (pendingCount s) (queue s) (bridge s)
              (promises s) (nextPromise s) (f (clockReads s)) (trace s).
Definition with_trace (f : list Event -> list Event) (s : Scheduler) : Scheduler :=
  mkScheduler (measurementCache s) (pendingCount s) (queue s) (bridge s)
              (promises s) (nextPromise s) (clockReads s) (f (trace s)).

Definition emit (e : Event) : JS Scheduler unit := modify (with_trace (cons e)).

(** *** Primitive effects *)

(** [Date.now()]: the clock is an oracle, read once per call. *)
Variable Date_now : nat -> Z.

Definition Date_now_ : JS Scheduler Z :=
  fun s => Normal (Date_now (clockReads s)) (with_clockReads S s).

(** [measurementCache.get(key)]: [undefined] on a key that is no object. *)
Definition WeakMap_get (key : Fiber) : JS Scheduler (option CacheEntry) :=
  match key with
  | null => ret None
  | fiberObj i _ _ _ _ => gets (fun s => measurementCache s !! i)
  end.

(** [measurementCache.set(key, entry)]: a [TypeError] on a key that is no
    object. *)
Definition WeakMap_set (key : Fiber) (entry : CacheEntry) : JS Scheduler unit :=
  match key with
  | null => throw (TypeError "Invalid value used as weak map key")
  | fiberObj i _ _ _ _ => modify (with_cache <[i := entry]>)
  end.

(** [o.p] on a value that may be [null] or [undefined]. *)
Definition read {A B : Type} (o : option A) (p : A -> B) : JS Scheduler B :=
  match o with
  | Some a => ret (p a)
  | None => throw (TypeError "Cannot read properties of undefined")
  end.

(** [fiber.alternate] *)
Definition get_alternate (f : Fiber) : JS Scheduler (option FiberId) :=
  match f with
  | null => throw (TypeError "Cannot read properties of null")
  | fiberObj _ _ _ _ a => ret a
  end.

(** [callback?.(v)]: callbacks are observers, they return normally and do
    not call back into the module. *)
Definition call_callback (cb : option Callback) (v : option MeasurementValue)
    : JS Scheduler unit :=
  match cb with
  | Some c => emit (CallbackCalled c v)
  | None => ret tt
  end.

(** [resolve(v)]: the first settlement of a promise wins. *)
Definition call_resolve (p : PromiseId) (v : option MeasurementValue)
    : JS Scheduler unit :=
  (modify (with_promises (fun ps =>
     match ps !! p with
     | Some _ => ps
     | None => <[p := Fulfilled v]> ps
     end)) ;;
   emit (Resolved p v))%js.

(** The host keeps the call until it answers. *)
Definition ask_host (call : HostCall) (handleMeasurement : Request)
    : JS Scheduler unit :=
  (modify (with_bridge (fun b => b ++ [mkOutstanding call handleMeasurement])) ;;
   emit (HostAsked call (resolve handleMeasurement)))%js.

(** Truthiness of [number | undefined], and optional chaining. *)
Definition truthy_opt (v : option number) : bool :=
  match v with Some n => truthy n | None => false end.

Definition opt_canonical_nativeTag (sn : option StateNode) : option number :=
  match sn with
  | Some o => match canonical o with Some c => nativeTag c | None => None end
  | None => None
  end.
Definition opt_nativeTag (sn : option StateNode) : option number :=
  match sn with Some o => _nativeTag o | None => None end.
Definition opt_measureInWindow (sn : option StateNode) : option positive :=
  match sn with Some o => measureInWindow o | None => None end.

(** *** [processQueue] and its closures *)

(** The [while (measurableNode)] loop of [executeMeasurement]: [true] when a
    host call was made (the function then returns), [false] when the loop
    ran off the end of the first-child chain. *)
Fixpoint measure_loop (handleMeasurement : Request) (measurableNode : Fiber)
    : JS Scheduler bool :=
  match measurableNode with
  | null => ret false
  | fiberObj _ sn child _ _ =>
      if truthy_opt (opt_canonical_nativeTag sn) then
        (let* node := read sn canonical in
         let* tag := read node nativeTag in
         ask_host (UIManager_measure tag) handleMeasurement ;;
         ret true)%js
      else if truthy_opt (opt_nativeTag sn) then
        (let* tag := read sn _nativeTag in
         ask_host (UIManager_measure tag) handleMeasurement ;;
         ret true)%js
      else if bool_decide (is_Some (opt_measureInWindow sn)) then
        (let* method := read sn measureInWindow in
         match method with
         | Some view => ask_host (stateNode_measureInWindow view) handleMeasurement
         | None => throw (TypeError "measureInWindow is not a function")
         end ;;
         ret true)%js
      else measure_loop handleMeasurement child
  end.

(** [cached && now - cached.timestamp < 250] *)
Definition fresh_entry (now : Z) (cached : option CacheEntry) : option CacheEntry :=
  match cached with
  | Some c => if now - timestamp c <? 250 then Some c else None
  | None => None
  end.

Definition executeMeasurement (processQueue : JS Scheduler unit) (r : Request)
    : JS Scheduler unit :=
  (let* now := Date_now_ in
   let* cached := WeakMap_get (fiber r) in
   match fresh_entry now cached with
   | Some c =>
       call_callback (callback r) (Some (measurement c)) ;;
       call_resolve (resolve r) (Some (measurement c)) ;;
       modify (with_pendingCount Z.pred) ;;
       processQueue
   | None =>
       let* measuring := measure_loop r (fiber r) in
       if measuring : bool then ret tt
       else
         call_callback (callback r) None ;;
         call_resolve (resolve r) None ;;
         modify (with_pendingCount Z.pred) ;;
         processQueue
   end)%js.

(** [processQueue], by recursion on the queue it drains: [pending] is the
    content of [queue] on entry ([processQueue_unfold] below shows that
    the recursive call is [processQueue] itself). *)
Fixpoint drain (pending : list Request) : JS Scheduler unit :=
  match pending with
  | [] => ret tt
  | r :: rest => fun s =>
      if MAX_PENDING <=? pendingCount s then Normal tt s
      else
        (modify (with_queue (fun _ => rest)) ;;
         modify (with_pendingCount Z.succ) ;;
         emit (Shifted (resolve r)) ;;
         executeMeasurement (drain rest) r)%js s
  end.

Definition processQueue : JS Scheduler unit := fun s => drain (queue s) s.

(** The closure [handleMeasurement] of the dequeued request [r]. *)
Definition handleMeasurement (r : Request)
    (x y width height pageX pageY : number) : JS Scheduler unit :=
  let coords := mkMeasurementValue width height pageX pageY x y in
  (let* t := Date_now_ in
   WeakMap_set (fiber r) (mkCacheEntry coords t) ;;
   let* alt := get_alternate (fiber r) in
   match alt with
   | Some a =>
       let* t' := Date_now_ in
       modify (with_cache <[a := mkCacheEntry coords t']>)
   | None => ret tt
   end ;;
   call_callback (callback r) (Some coords) ;;
   call_resolve (resolve r) (Some coords) ;;
   modify (with_pendingCount Z.pred) ;;
   processQueue)%js.

(** [new Promise(executor)]: an exception of the executor rejects the
    promise, the constructor itself returns. *)
Definition new_Promise (executor : PromiseId -> JS Scheduler unit)
    : JS Scheduler PromiseId :=
  fun s =>
    let p := nextPromise s in
    match executor p (with_nextPromise S s) with
    | Normal _ s' => Normal p s'
    | Thrown e s' =>
        Normal p (with_promises (fun ps =>
                    match ps !! p with
                    | Some _ => ps
                    | None => <[p := Rejected e]> ps
                    end) s')
    end.

Definition measureFiber (fiber : Fiber) (callback : option Callback)
    : JS Scheduler PromiseId :=
  new_Promise (fun resolve =>
    (modify (with_queue (fun q => q ++ [mkRequest fiber callback resolve])) ;;
     processQueue)%js).

(** *** The host side *)

(** What can happen to the module: a caller asks for a measurement, or the
    host answers its [k]-th outstanding call, which it does at most once per
    call and in any order.  [measureInWindow] reports four numbers and its
    wrapper passes [x] and [y] again as page coordinates. *)
Inductive Input : Type :=
  | call_measureFiber (fiber : Fiber) (callback : option Callback)
  | host_reply (k : nat) (x y width height pageX pageY : number).

Definition reply (k : nat) (x y width height pageX pageY : number)
    : JS Scheduler unit :=
  fun s =>
    match bridge s !! k with
    | None => Normal tt s
    | Some o =>
        (modify (with_bridge (delete k)) ;;
         emit (HostReplied (resolve (closure o))) ;;
         match host_call o with
         | UIManager_measure _ =>
             handleMeasurement (closure o) x y width height pageX pageY
         | stateNode_measureInWindow _ =>
             handleMeasurement (closure o) x y width height x y
         end)%js s
    end.

Definition step (i : Input) : JS Scheduler unit :=
  match i with
  | call_measureFiber f cb => (measureFiber f cb ;; ret tt)%js
  | host_reply k x y w h px py => reply k x y w h px py
  end.

(** An exception that escapes a step goes to whoever called it (the host);
    the module carries on from the state it was left in. *)
Definition step_state (s : Scheduler) (i : Input) : Scheduler :=
  final_state (step i s).

Definition run (inputs : list Input) (s : Scheduler) : Scheduler :=
  fold_left step_state inputs s.

(** ** The outline aggregator *)

(** Render events are opaque here: they are stored and handed to
    [getLabelText]. *)
Context {Render : Type}.
(** [getLabelText] of [utils] and [getNearestHostFiber] of
    [instrumentation/fiber] are not among the sources; the module only
    stores the label and tests the host fiber against [null]. *)
Variable getLabelText : list Render -> string -> string.
Variable getNearestHostFiber : Fiber -> Fiber.

(** [{ kind, value }]: the module reads [value] only after [assertNative]. *)
Record Measurement : Type := mkMeasurement {
  kind : string;
  value : MeasurementValue
}.

Record PendingOutline : Type := mkPendingOutline {
  latestMeasurement : Measurement;
  outline_fiber : Fiber;
  renders : list Render
}.

(** An element of [activeOutlines].  Its [resolve] field is a function that
    does nothing and is left out. *)
Record ActiveOutline : Type := mkActiveOutline {
  outline : PendingOutline;
  outline_id : nat;
  text : string;
  updatedAt : Z;
  alpha : Z;
  frame : Z;
  totalFrames : Z
}.

Definition ArrayRef : Type := positive.
Definition ObjRef : Type := positive.

(** [ReactScanInternals] and the objects reachable from it.  Arrays and
    outline objects are shared between whoever holds a reference to them, so
    both live in a store; [activeOutlines] is the reference the property
    currently holds. *)
Record Internals : Type := mkInternals {
  arrays : gmap ArrayRef (list ObjRef);
  objects : gmap ObjRef ActiveOutline;
  activeOutlines : ArrayRef;
  idCounter : nat;
  console : list JsError
}.

Definition with_arrays (f : gmap ArrayRef (list ObjRef) -> gmap ArrayRef (list ObjRef))
    (s : Internals) : Internals :=
  mkInternals (f (arrays s)) (objects s) (activeOutlines s) (idCounter s) (console s).
Definition with_objects (f : gmap ObjRef ActiveOutline -> gmap ObjRef ActiveOutline)
    (s : Internals) : Internals :=
  mkInternals (arrays s) (f (objects s)) (activeOutlines s) (idCounter s) (console s).
Definition with_activeOutlines (r : ArrayRef) (s : Internals) : Internals :=
  mkInternals (arrays s) (objects s) r (idCounter s) (console s).
Definition with_idCounter (f : nat -> nat) (s : Internals) : Internals :=
  mkInternals (arrays s) (objects s) (activeOutlines s) (f (idCounter s)) (console s).
Definition with_console (f : list JsError -> list JsError) (s : Internals) : Internals :=
  mkInternals (arrays s) (objects s) (activeOutlines s) (idCounter s) (f (console s)).

(** The elements of the array behind a reference. *)
Definition elements_of (s : Internals) (r : ArrayRef) : list ObjRef :=
  default [] (arrays s !! r).

(** What a reader holding the reference [r] sees: the outlines, in order. *)
Definition contents (s : Internals) (r : ArrayRef) : list (option ActiveOutline) :=
  (fun o => objects s !! o) <$> elements_of s r.

Definition getKey (measurement : MeasurementValue) : string :=
  String.append (toString (pageX measurement))
    (String.append "-" (String.append (toString (pageY measurement))
      (String.append "-" (String.append (toString (width measurement))
        (String.append "-" (toString (height measurement))))))).

Definition assertNative {S : Type} (measurement : Measurement) : JS S Measurement :=
  if negb (String.eqb (kind measurement) "native") then throw (Error "native invariant")
  else ret measurement.

(** Modelled from the spec: [genId] of [web/outline], which is not among the
    sources; the specification asks for a freshly generated unique id. *)
Definition genId : JS Internals nat :=
  fun s => Normal (idCounter s) (with_idCounter S s).

(** Modelled from the spec: [getCopiedActiveOutlines] of [utils], which is
    not among the sources; the specification has the collection republished
    as a new sequence instance.  A new array with the elements of the
    current one. *)
Definition getCopiedActiveOutlines : JS Internals ArrayRef :=
  fun s =>
    let r := fresh (dom (arrays s)) in
    Normal r (with_arrays <[r := elements_of s (activeOutlines s)]> s).

(** [activeOutlines.find(({ outline }) => getKey(assertNative(outline.latestMeasurement).value) === key)]:
    elements are visited in order until the predicate holds; an exception
    of the predicate ends the search. *)
Fixpoint find_outline (key : string) (elems : list ObjRef)
    : JS Internals (option ObjRef) :=
  match elems with
  | [] => ret None
  | o :: rest =>
      (let* element := gets (fun s => objects s !! o) in
       match element with
       | None => throw (TypeError "Cannot destructure property of undefined")
       | Some a =>
           let* m := assertNative (latestMeasurement (outline a)) in
           if String.eqb (getKey (value m)) key then ret (Some o)
           else find_outline key rest
       end)%js
  end.

(** The part of [updateOutlines] in the [try] block. *)
Definition update_or_create (fiber : Fiber) (render : Render)
    (measurement : MeasurementValue) (now : Z) : JS Internals unit :=
  (let* elems := gets (fun s => elements_of s (activeOutlines s)) in
   let* existingOutline := find_outline (getKey measurement) elems in
   match existingOutline with
   | Some o =>
       (* existingOutline.outline.renders.push(render) *)
       modify (with_objects (alter (fun a =>
         mkActiveOutline
           (mkPendingOutline (latestMeasurement (outline a)) (outline_fiber (outline a))
                             (renders (outline a) ++ [render]))
           (outline_id a) (text a) (updatedAt a) (alpha a) (frame a) (totalFrames a)) o)) ;;
       (* existingOutline.text = getLabelText(existingOutline.outline.renders, 'native') *)
       modify (with_objects (alter (fun a =>
         mkActiveOutline (outline a) (outline_id a)
           (getLabelText (renders (outline a)) "native")
           (updatedAt a) (alpha a) (frame a) (totalFrames a)) o)) ;;
       (* existingOutline.updatedAt = Date.now() *)
       modify (with_objects (alter (fun a =>
         mkActiveOutline (outline a) (outline_id a) (text a) now
           (alpha a) (frame a) (totalFrames a)) o)) ;;
       let* copy := getCopiedActiveOutlines in
       modify (with_activeOutlines copy)
   | None =>
       let newOutline :=
         mkPendingOutline (mkMeasurement "native" measurement) fiber [render] in
       let* id := genId in
       let element :=
         mkActiveOutline newOutline id (getLabelText (renders newOutline) "native")
                         now (-1) (-1) (-1) in
       (* ReactScanInternals.activeOutlines.push(element) *)
       modify (fun s =>
         let o := fresh (dom (objects s)) in
         with_arrays <[activeOutlines s := elements_of s (activeOutlines s) ++ [o]]>
           (with_objects <[o := element]> s)) ;;
       let* copy := getCopiedActiveOutlines in
       modify (with_activeOutlines copy)
   end)%js.

(** [updateOutlines] up to its [await]: the promise awaited, if any. *)
Definition updateOutlines_request (fiber : Fiber) : JS Scheduler (option PromiseId) :=
  match getNearestHostFiber fiber with
  | null => ret None
  | fiberObj _ _ _ _ _ =>
      (let* p := measureFiber fiber None in ret (Some p))%js
  end.

(** [updateOutlines] from its [await] on: [measurement] is what the promise
    was fulfilled with, [now] the reading of [Date.now()]. *)
Definition updateOutlines (fiber : Fiber) (render : Render)
    (measurement : option MeasurementValue) (now : Z) : JS Internals unit :=
  match measurement with
  | None => ret tt
  | Some m =>
      if negb (truthy (pageX m)) then ret tt
      else
        try_catch (update_or_create fiber render m now)
                  (fun e => modify (with_console (cons e)))
  end.

(** ** Reading the scheduler *)

(** The capability a state node exposes, in the order the loop tries them:
    new-architecture native tag, legacy native tag, [measureInWindow]. *)
Definition capability_of (sn : option StateNode) : option HostCall :=
  if truthy_opt (opt_canonical_nativeTag sn)
  then Some (UIManager_measure (opt_canonical_nativeTag sn))
  else if truthy_opt (opt_nativeTag sn)
  then Some (UIManager_measure (opt_nativeTag sn))
  else match opt_measureInWindow sn with
       | Some view => Some (stateNode_measureInWindow view)
       | None => None
       end.

(** The state nodes met from a fiber by following [child] only. *)
Fixpoint first_child_chain (f : Fiber) : list (option StateNode) :=
  match f with
  | null => []
  | fiberObj _ sn child _ _ => sn :: first_child_chain child
  end.

(** The first capability along the first-child chain, the node itself
    first. *)
Definition first_capability (f : Fiber) : option HostCall :=
  head (omap capability_of (first_child_chain f)).

Definition cache_lookup (s : Scheduler) (f : Fiber) : option CacheEntry :=
  match f with
  | null => None
  | fiberObj i _ _ _ _ => measurementCache s !! i
  end.

(** The state after [UIManager.measure] or [measureInWindow] was called for
    the request [r]. *)
Definition asked (call : HostCall) (r : Request) (s : Scheduler) : Scheduler :=
  with_trace (cons (HostAsked call (resolve r)))
    (with_bridge (fun b => b ++ [mkOutstanding call r]) s).

Definition fulfil (p : PromiseId) (v : option MeasurementValue)
    (ps : gmap PromiseId PromiseState) : gmap PromiseId PromiseState :=
  match ps !! p with
  | Some _ => ps
  | None => <[p := Fulfilled v]> ps
  end.

Definition callback_events (cb : option Callback) (v : option MeasurementValue)
    : list Event :=
  match cb with
  | Some c => [CallbackCalled c v]
  | None => []
  end.

(** The state after [callback?.(v); resolve(v); pendingCount--]. *)
Definition answered (r : Request) (v : option MeasurementValue) (s : Scheduler)
    : Scheduler :=
  with_pendingCount Z.pred
    (with_trace (fun t => Resolved (resolve r) v :: callback_events (callback r) v ++ t)
      (with_promises (fulfil (resolve r) v) s)).

(** The state after [queue.shift(); pendingCount++]. *)
Definition shifted (r : Request) (rest : list Request) (s : Scheduler) : Scheduler :=
  with_trace (cons (Shifted (resolve r)))
    (with_pendingCount Z.succ (with_queue (fun _ => rest) s)).

(** Requests dequeued and not yet resolved, and host calls made and not yet
    answered, after a history (newest event first). *)
Fixpoint in_flight (t : list Event) : Z :=
  match t with
  | [] => 0
  | Shifted _ :: t' => in_flight t' + 1
  | Resolved _ _ :: t' => in_flight t' - 1
  | _ :: t' => in_flight t'
  end.

Fixpoint host_in_flight (t : list Event) : Z :=
  match t with
  | [] => 0
  | HostAsked _ _ :: t' => host_in_flight t' + 1
  | HostReplied _ :: t' => host_in_flight t' - 1
  | _ :: t' => host_in_flight t'
  end.

(** [P] held after every event of the history. *)
Fixpoint at_every_instant (P : list Event -> Prop) (t : list Event) : Prop :=
  P t /\ match t with
         | [] => True
         | _ :: t' => at_every_instant P t'
         end.

Definition within_cap (t : list Event) : Prop :=
  0 <= host_in_flight t /\ host_in_flight t <= in_flight t /\ in_flight t <= MAX_PENDING.

(** The state after the cache writes of [handleMeasurement]. *)
Definition stored (i : FiberId) (alt : option FiberId) (coords : MeasurementValue)
    (s : Scheduler) : Scheduler :=
  match alt with
  | Some a =>
      with_cache <[a := mkCacheEntry coords (Date_now (S (clockReads s)))]>
        (with_clockReads S
          (with_cache <[i := mkCacheEntry coords (Date_now (clockReads s))]>
            (with_clockReads S s)))
  | None =>
      with_cache <[i := mkCacheEntry coords (Date_now (clockReads s))]>
        (with_clockReads S s)
  end.

(** *** Well-formed scheduler states *)

(** The requests whose promise is still to be resolved. *)
Definition waiting (s : Scheduler) : list Request :=
  queue s ++ (closure <$> bridge s).

Definition unsettled (s : Scheduler) (r : Request) : Prop :=
  promises s !! resolve r = None /\ (resolve r < nextPromise s)%nat.

(** What holds whenever [processQueue] is entered or left. *)
Record wf (s : Scheduler) : Prop := mk_wf {
  wf_count : pendingCount s = Z.of_nat (length (bridge s));
  wf_cap : pendingCount s <= MAX_PENDING;
  wf_fibers : Forall (fun o => fiber (closure o) <> null) (bridge s);
  wf_nodup : NoDup (resolve <$> waiting s);
  wf_unsettled : Forall (unsettled s) (waiting s);
  wf_fulfilled : forall p st, promises s !! p = Some st ->
                   (exists v, st = Fulfilled v) /\ (p < nextPromise s)%nat;
  wf_in_flight : in_flight (trace s) = pendingCount s;
  wf_host : host_in_flight (trace s) = Z.of_nat (length (bridge s));
  wf_history : at_every_instant within_cap (trace s)
}.

(** [s'] continues [s]: the cache and the promise counter are those of [s],
    settled promises stay as they are, and the history only grows. *)
Record continues (s s' : Scheduler) : Prop := mk_continues {
  cont_cache : measurementCache s' = measurementCache s;
  cont_next : nextPromise s' = nextPromise s;
  cont_promises : forall p st, promises s !! p = Some st -> promises s' !! p = Some st;
  cont_trace : exists new, trace s' = new ++ trace s
}.

Ltac arith := cbn in *; unfold within_cap, MAX_PENDING in *; cbn in *; lia.

(** The state after [queue.push({ fiber, callback, resolve })] in the
    executor of a new promise. *)
Definition pushed (f : Fiber) (cb : option Callback) (s : Scheduler) : Scheduler :=
  with_queue (fun q => q ++ [mkRequest f cb (nextPromise s)]) (with_nextPromise S s).

(** The state after the host took its [k]-th outstanding call [o] to
    answer it. *)
Definition replied (k : nat) (o : Outstanding) (s : Scheduler) : Scheduler :=
  with_trace (cons (HostReplied (resolve (closure o)))) (with_bridge (delete k) s).

(** The geometry [handleMeasurement] builds from what the host reports. *)
Definition reported (call : HostCall) (x y w h px py : number) : MeasurementValue :=
  match call with
  | UIManager_measure _ => mkMeasurementValue w h px py x y
  | stateNode_measureInWindow _ => mkMeasurementValue w h x y x y
  end.

(** *** Between two inputs nothing waits while a slot is free *)

Definition quiet (s : Scheduler) : Prop :=
  queue s <> [] -> pendingCount s = MAX_PENDING.

Definition nearly_quiet (s : Scheduler) : Prop :=
  (2 <= length (queue s))%nat -> MAX_PENDING - 1 <= pendingCount s.

(** The states between two inputs. *)
Definition sound (s : Scheduler) : Prop := wf s /\ quiet s.

(** ** Reading the aggregator *)

Definition stored_key (a : ActiveOutline) : string :=
  getKey (value (latestMeasurement (outline a))).

Definition is_native (a : ActiveOutline) : bool :=
  String.eqb (kind (latestMeasurement (outline a))) "native".

Definition key_of (s : Internals) (o : ObjRef) : option string :=
  stored_key <$> (objects s !! o).

(** The first element, in order, whose key is [key]. *)
Fixpoint search (s : Internals) (key : string) (elems : list ObjRef) : option ObjRef :=
  match elems with
  | [] => None
  | o :: rest =>
      if decide (key_of s o = Some key) then Some o else search s key rest
  end.

(** [ReactScanInternals.activeOutlines = getCopiedActiveOutlines()] *)
Definition republish (s : Internals) : Internals :=
  with_activeOutlines (fresh (dom (arrays s)))
    (with_arrays <[fresh (dom (arrays s)) := elements_of s (activeOutlines s)]> s).

(** The outline after [renders.push(render)], the new label and the new
    [updatedAt]. *)
Definition merge_into (render : Render) (now : Z) (a : ActiveOutline) : ActiveOutline :=
  mkActiveOutline
    (mkPendingOutline (latestMeasurement (outline a)) (outline_fiber (outline a))
                      (renders (outline a) ++ [render]))
    (outline_id a) (getLabelText (renders (outline a) ++ [render]) "native") now
    (alpha a) (frame a) (totalFrames a).

Definition merged (o : ObjRef) (render : Render) (now : Z) (s : Internals) : Internals :=
  republish (with_objects (alter (merge_into render now) o) s).

Definition new_element (fiber : Fiber) (render : Render) (m : MeasurementValue)
    (now : Z) (id : nat) : ActiveOutline :=
  mkActiveOutline (mkPendingOutline (mkMeasurement "native" m) fiber [render])
                  id (getLabelText [render] "native") now (-1) (-1) (-1).

Definition created (fiber : Fiber) (render : Render) (m : MeasurementValue) (now : Z)
    (s : Internals) : Internals :=
  republish
    (with_arrays
       <[activeOutlines s := elements_of s (activeOutlines s) ++ [fresh (dom (objects s))]]>
       (with_objects <[fresh (dom (objects s)) := new_element fiber render m now (idCounter s)]>
          (with_idCounter S s))).

(** All elements are there and of the native kind. *)
Definition natives (s : Internals) (elems : list ObjRef) : Prop :=
  Forall (fun o => exists a, objects s !! o = Some a /\ is_native a = true) elems.

(** One render event as the aggregator receives it: the fiber, the render,
    what [measureFiber] resolved with and the reading of the clock. *)
Record RenderEvent : Type := mkRenderEvent {
  ev_fiber : Fiber;
  ev_render : Render;
  ev_measurement : option MeasurementValue;
  ev_now : Z
}.

Definition on_event (e : RenderEvent) : JS Internals unit :=
  updateOutlines (ev_fiber e) (ev_render e) (ev_measurement e) (ev_now e).

(** The events one after the other; an exception that escaped one of them
    would end the sequence. *)
Fixpoint aggregate (evs : list RenderEvent) : JS Internals unit :=
  match evs with
  | [] => ret tt
  | e :: rest => (on_event e ;; aggregate rest)%js
  end.

(** The event passes the two guards before the [try] block. *)
Definition accepted (e : RenderEvent) : option MeasurementValue :=
  match ev_measurement e with
  | Some m => if truthy (pageX m) then Some m else None
  | None => None
  end.

(** *** The collection and its keys *)

(** The elements of the collection, their keys, and the render history
    kept under a key. *)
Definition current (s : Internals) : list ObjRef := elements_of s (activeOutlines s).

Definition keys (s : Internals) : list (option string) := key_of s <$> current s.

Definition renders_of (s : Internals) (k : string) : list Render :=
  match search s k (current s) with
  | Some o =>
      match objects s !! o with
      | Some a => renders (outline a)
      | None => []
      end
  | None => []
  end.

(** Every element is a native outline and no two elements have the same
    key. *)
Record good (s : Internals) : Prop := mk_good {
  good_natives : natives s (current s);
  good_keys : NoDup (keys s)
}.

(** The renders of the accepted events with key [k], in the order of the
    events. *)
Definition render_for (k : string) (e : RenderEvent) : option Render :=
  match accepted e with
  | Some m => if decide (getKey m = k) then Some (ev_render e) else None
  | None => None
  end.

Definition present (s : Internals) (k : string) : Prop :=
  is_Some (search s k (current s)).

(** ** Reading the history *)

(** The promises of the requests dequeued so far, and of the requests
    resolved so far, oldest first. *)
Fixpoint dequeued (t : list Event) : list PromiseId :=
  match t with
  | [] => []
  | Shifted p :: t' => dequeued t' ++ [p]
  | _ :: t' => dequeued t'
  end.

Fixpoint resolved (t : list Event) : list PromiseId :=
  match t with
  | [] => []
  | Resolved p _ :: t' => resolved t' ++ [p]
  | _ :: t' => resolved t'
  end.

Definition is_call (i : Input) : bool :=
  match i with
  | call_measureFiber _ _ => true
  | host_reply _ _ _ _ _ _ _ => false
  end.

(** The dequeued requests followed by the queued ones are the requests made,
    in the order of the calls. *)
Definition in_call_order (s : Scheduler) : Prop :=
  dequeued (trace s) ++ (resolve <$> queue s) = seq 0 (nextPromise s).

(** [resolve] was called for exactly the settled promises, once each and
    with the value they hold. *)
Definition resolved_once (s : Scheduler) : Prop :=
  NoDup (resolved (trace s))
  /\ forall p v, Resolved p v ∈ trace s <-> promises s !! p = Some (Fulfilled v).

(** Every promise handed out is settled or belongs to a request that is
    queued or with the host. *)
Definition accounted (s : Scheduler) : Prop :=
  forall p, (p < nextPromise s)%nat ->
    is_Some (promises s !! p) \/ p ∈ resolve <$> waiting s.


(** ** Reading the collection *)

(** What every outline made by [updateOutlines] looks like: a native
    measurement with a truthy [pageX], a label computed from a render history
    that is not empty, and -1 in the three fields that are not used here. *)
Definition well_built (a : ActiveOutline) : Prop :=
  kind (latestMeasurement (outline a)) = "native"
  /\ truthy (pageX (value (latestMeasurement (outline a)))) = true
  /\ renders (outline a) <> []
  /\ text a = getLabelText (renders (outline a)) "native"
  /\ alpha a = -1 /\ frame a = -1 /\ totalFrames a = -1.

Definition all_well_built (s : Internals) : Prop :=
  Forall (fun o => exists a, objects s !! o = Some a /\ well_built a) (current s).

(** The number of renders an element holds, and the number the collection
    holds. *)
Definition renders_held (s : Internals) (o : ObjRef) : nat :=
  match objects s !! o with
  | Some a => length (renders (outline a))
  | None => O
  end.

Definition total_renders (s : Internals) : nat :=
  sum_list (renders_held s <$> current s).

(** [s'] has the elements of [s] in the same places, with the measurement,
    the fiber and the id they had and a render history that starts with the
    one they had. *)
Definition grown_from (s s' : Internals) : Prop :=
  current s `prefix_of` current s'
  /\ forall o a,
       o ∈ current s -> objects s !! o = Some a ->
       exists a',
         objects s' !! o = Some a'
         /\ latestMeasurement (outline a') = latestMeasurement (outline a)
         /\ outline_fiber (outline a') = outline_fiber (outline a)
         /\ outline_id a' = outline_id a
         /\ renders (outline a) `prefix_of` renders (outline a').


(** ** The instrumentation: [instrumentNative] and the [await] of [updateOutlines] *)

(** [instrumentNative] hands three handlers to [instrument].  [onRender]
    calls [updateOutlines], an [async] function: its body runs up to
    [await measureFiber(fiber)] when it is called, and the rest runs as a
    reaction job of the awaited promise, from the job queue, when the stack
    is empty.  The model keeps the scheduler and [ReactScanInternals] side by
    side with the continuations that wait for a promise and the job queue.

    The hooks of [ReactScanInternals.options] are user code: a hook returns
    or throws, and does not call the module.  The handlers close over the
    options object; they are given what it holds when they are called. *)
Inductive Hook : Type :=
  | hook_returns
  | hook_throws (e : JsError).

Record Options : Type := mkOptions {
  options_onCommitStart : option Hook;
  options_onRender : option Hook;
  options_onCommitFinish : option Hook
}.

Inductive AsyncFunction : Type :=
  | async_onRender
  | async_updateOutlines.

(** What can be seen of the handlers from outside, newest first in
    [notices]: the calls of the hooks, [updateOutlines] going on after its
    [await] with the value of the promise, and the rejection of the promise
    an [async] function returned. *)
Inductive Notice : Type :=
  | Hook_onCommitStart
  | Hook_onRender (fiber : Fiber) (render : Render)
  | Hook_onCommitFinish
  | Resumed (p : PromiseId) (fiber : Fiber) (render : Render)
            (v : option MeasurementValue)
  | PromiseRejected (fn : AsyncFunction) (e : JsError).

(** [updateOutlines] suspended at its [await]: the variables the rest of the
    body uses. *)
Record Continuation : Type := mkContinuation {
  awaiting_fiber : Fiber;
  awaiting_render : Render
}.

(** A reaction job: the continuation of the promise [job_promise], with the
    state the promise was settled in. *)
Record Job : Type := mkJob {
  job_promise : PromiseId;
  job_state : PromiseState;
  job_continuation : Continuation
}.

Record System : Type := mkSystem {
  scheduler : Scheduler;
  internals : Internals;
  suspended : gmap PromiseId Continuation;
  jobs : list Job;
  notices : list Notice
}.

Definition with_scheduler (f : Scheduler -> Scheduler) (sys : System) : System :=
  mkSystem (f (scheduler sys)) (internals sys) (suspended sys) (jobs sys) (notices sys).
Definition with_internals (f : Internals -> Internals) (sys : System) : System :=
  mkSystem (scheduler sys) (f (internals sys)) (suspended sys) (jobs sys) (notices sys).
Definition with_suspended
    (f : gmap PromiseId Continuation -> gmap PromiseId Continuation)
    (sys : System) : System :=
  mkSystem (scheduler sys) (internals sys) (f (suspended sys)) (jobs sys) (notices sys).
Definition with_jobs (f : list Job -> list Job) (sys : System) : System :=
  mkSystem (scheduler sys) (internals sys) (suspended sys) (f (jobs sys)) (notices sys).
Definition with_notices (f : list Notice -> list Notice) (sys : System) : System :=
  mkSystem (scheduler sys) (internals sys) (suspended sys) (jobs sys) (f (notices sys)).

Definition notice (n : Notice) : JS System unit := modify (with_notices (cons n)).

(** *** Promises and their reactions *)

(** The events the scheduler added to its history, oldest first. *)
Definition new_events (before after : Scheduler) : list Event :=
  reverse (take (length (trace after) - length (trace before)) (trace after)).

(** [resolve(v)] on a promise with a reaction puts the reaction job on the
    job queue, in the order of the calls of [resolve]. *)
Fixpoint trigger (events : list Event) (sys : System) : System :=
  match events with
  | [] => sys
  | Resolved p v :: rest =>
      match suspended sys !! p with
      | Some k =>
          trigger rest
            (with_jobs (fun js => js ++ [mkJob p (Fulfilled v) k])
               (with_suspended (delete p) sys))
      | None => trigger rest sys
      end
  | _ :: rest => trigger rest sys
  end.

(** Code of the scheduler run from the handlers. *)
Definition in_scheduler {A : Type} (m : JS Scheduler A) : JS System A :=
  fun sys =>
    let settle s' :=
      trigger (new_events (scheduler sys) s') (with_scheduler (fun _ => s') sys) in
    match m (scheduler sys) with
    | Normal a s' => Normal a (settle s')
    | Thrown e s' => Thrown e (settle s')
    end.

(** Code of the aggregator run from the handlers. *)
Definition in_internals {A : Type} (m : JS Internals A) : JS System A :=
  fun sys =>
    match m (internals sys) with
    | Normal a i' => Normal a (with_internals (fun _ => i') sys)
    | Thrown e i' => Thrown e (with_internals (fun _ => i') sys)
    end.

(** [await p] on a promise of the scheduler: the continuation becomes a
    reaction of [p]; when [p] is settled already, its job is queued at
    once. *)
Definition await (p : PromiseId) (k : Continuation) : JS System unit :=
  fun sys =>
    match promises (scheduler sys) !! p with
    | Some state => Normal tt (with_jobs (fun js => js ++ [mkJob p state k]) sys)
    | None => Normal tt (with_suspended <[p := k]> sys)
    end.

(** The call of an [async] function returns a promise; an exception of the
    body rejects it. *)
Definition async (fn : AsyncFunction) (body : JS System unit) : JS System unit :=
  try_catch body (fun e => notice (PromiseRejected fn e)).

(** *** [updateOutlines], both halves *)

(** [updateOutlines(fiber, render)], from the call to the [await]. *)
Definition call_updateOutlines (fiber : Fiber) (render : Render) : JS System unit :=
  async async_updateOutlines
    (let* awaited := in_scheduler (updateOutlines_request fiber) in
     match awaited with
     | None => ret tt
     | Some p => await p (mkContinuation fiber render)
     end)%js.

(** Whether the rest of [updateOutlines] gets as far as one of its two calls
    of [Date.now()]: the measurement passes both tests and [find] returns. *)
Definition reads_clock (v : option MeasurementValue) (i : Internals) : bool :=
  match v with
  | Some m =>
      truthy (pageX m)
      && match find_outline (getKey m) (elements_of i (activeOutlines i)) i with
         | Normal _ _ => true
         | Thrown _ _ => false
         end
  | None => false
  end.

(** The reaction job: [updateOutlines] from the [await] on.  An [await] on
    a rejected promise throws. *)
Definition resume_updateOutlines (j : Job) : JS System unit :=
  async async_updateOutlines
    match job_state j with
    | Rejected e => throw e
    | Fulfilled v =>
        (notice (Resumed (job_promise j) (awaiting_fiber (job_continuation j))
                         (awaiting_render (job_continuation j)) v) ;;
         fun sys =>
           let now := Date_now (clockReads (scheduler sys)) in
           let tick :=
             if reads_clock v (internals sys) then with_scheduler (with_clockReads S)
             else fun sys' => sys' in
           in_internals
             (updateOutlines (awaiting_fiber (job_continuation j))
                             (awaiting_render (job_continuation j)) v now)
             (tick sys))%js
    end.

(** The job queue is run when the stack is empty, oldest job first. *)
Fixpoint run_jobs (pending : list Job) : JS System unit :=
  match pending with
  | [] => ret tt
  | j :: rest =>
      (modify (with_jobs (fun _ => rest)) ;;
       resume_updateOutlines j ;;
       run_jobs rest)%js
  end.

Definition microtasks : JS System unit := fun sys => run_jobs (jobs sys) sys.

(** *** The handlers *)

(** [options.hook?.(...)] *)
Definition call_hook (hook : option Hook) (n : Notice) : JS System unit :=
  match hook with
  | None => ret tt
  | Some hook_returns => notice n
  | Some (hook_throws e) => (notice n ;; throw e)%js
  end.

Definition onCommitStart (options : Options) : JS System unit :=
  call_hook (options_onCommitStart options) Hook_onCommitStart.

Definition onRender (options : Options) (fiber : Fiber) (render : Render)
    : JS System unit :=
  async async_onRender
    (call_hook (options_onRender options) (Hook_onRender fiber render) ;;
     call_updateOutlines fiber render)%js.

Definition onCommitFinish (options : Options) : JS System unit :=
  call_hook (options_onCommitFinish options) Hook_onCommitFinish.

(** What [instrumentNative] passes to [instrument]. *)
Record Handlers : Type := mkHandlers {
  handle_onCommitStart : JS System unit;
  handle_onRender : Fiber -> Render -> JS System unit;
  handle_onCommitFinish : JS System unit
}.

Definition instrumentNative (options : Options) : Handlers :=
  mkHandlers (onCommitStart options) (onRender options) (onCommitFinish options).

(** *** The module at work *)

(** What happens to the instrumented module: the instrumentation calls a
    handler, the scheduler gets an input (an answer of the host, or a call
    of [measureFiber] by another user of the module), or the stack is empty
    and the job queue is run. *)
Inductive Task : Type :=
  | commit_start (options : Options)
  | rendered (options : Options) (fiber : Fiber) (render : Render)
  | commit_finish (options : Options)
  | scheduler_input (i : Input)
  | stack_empty.

Definition system_step (t : Task) : JS System unit :=
  match t with
  | commit_start options => handle_onCommitStart (instrumentNative options)
  | rendered options fiber render =>
      handle_onRender (instrumentNative options) fiber render
  | commit_finish options => handle_onCommitFinish (instrumentNative options)
  | scheduler_input i => in_scheduler (step i)
  | stack_empty => microtasks
  end.

(** An exception of a commit hook goes to the instrumentation that called
    the handler; the module carries on from the state it was left in. *)
Definition system_state (sys : System) (t : Task) : System :=
  final_state (system_step t sys).

Definition system_run (tasks : list Task) (sys : System) : System :=
  fold_left system_state tasks sys.

(** The module before anything happened, with the collection [i]. *)
Definition boot (i : Internals) : System := mkSystem init i ∅ [] [].

(** *** Reading the system *)

(** The continuation a task leaves behind: a render whose hook does not
    throw and whose fiber has a host fiber. *)
Definition requested (t : Task) : option Continuation :=
  match t with
  | rendered options fiber render =>
      match options_onRender options with
      | Some (hook_throws _) => None
      | _ =>
          match getNearestHostFiber fiber with
          | null => None
          | fiberObj _ _ _ _ _ => Some (mkContinuation fiber render)
          end
      end
  | _ => None
  end.

Definition resumed_with (n : Notice) : option (Continuation * option MeasurementValue) :=
  match n with
  | Resumed _ fiber render v => Some (mkContinuation fiber render, v)
  | _ => None
  end.

(** The continuations that ran, oldest first. *)
Definition resumptions (sys : System) : list (Continuation * option MeasurementValue) :=
  omap resumed_with (reverse (notices sys)).

(** The continuations that wait for their promise or for the stack to
    empty. *)
Definition in_suspense (sys : System) : list Continuation :=
  (snd <$> map_to_list (suspended sys)) ++ (job_continuation <$> jobs sys).

(** The hook calls a task asks for, and the hook calls made. *)
Definition hook_of (t : Task) : option Notice :=
  match t with
  | commit_start options =>
      match options_onCommitStart options with
      | Some _ => Some Hook_onCommitStart
      | None => None
      end
  | rendered options fiber render =>
      match options_onRender options with
      | Some _ => Some (Hook_onRender fiber render)
      | None => None
      end
  | commit_finish options =>
      match options_onCommitFinish options with
      | Some _ => Some Hook_onCommitFinish
      | None => None
      end
  | _ => None
  end.

Definition hook_call (n : Notice) : option Notice :=
  match n with
  | Hook_onCommitStart | Hook_onRender _ _ | Hook_onCommitFinish => Some n
  | _ => None
  end.

(** The hook calls made, oldest first. *)
Definition hook_calls (sys : System) : list Notice :=
  omap hook_call (reverse (notices sys)).

(** The rejections a task asks for: the exception of its [onRender] hook. *)
Definition rejection_of (t : Task) : option Notice :=
  match t with
  | rendered options _ _ =>
      match options_onRender options with
      | Some (hook_throws e) => Some (PromiseRejected async_onRender e)
      | _ => None
      end
  | _ => None
  end.

Definition rejection (n : Notice) : option Notice :=
  match n with
  | PromiseRejected _ _ => Some n
  | _ => None
  end.

(** The promises of [async] functions rejected, oldest first. *)
Definition rejections (sys : System) : list Notice :=
  omap rejection (reverse (notices sys)).

(** What the render events of the aggregator are, for the continuations that
    ran: the measurement is the value of the promise. *)
Definition accepted_value (r : Continuation * option MeasurementValue)
    : option MeasurementValue :=
  match snd r with
  | Some m => if truthy (pageX m) then Some m else None
  | None => None
  end.

(** What a render event of the aggregator was for [updateOutlines]: the
    continuation and the value of the promise. *)
Definition resumption_of (e : RenderEvent) : Continuation * option MeasurementValue :=
  (mkContinuation (ev_fiber e) (ev_render e), ev_measurement e).

(** The states of the scheduler between two inputs, with the two invariants
    of its history. *)
Definition steady (s : Scheduler) : Prop :=
  sound s /\ resolved_once s /\ accounted s.

(** The continuations wait for promises that are pending, the jobs hold the
    state of their promise, which is fulfilled, and so do the
    continuations that ran. *)
Record coherent (sys : System) : Prop := mk_coherent {
  coh_scheduler : steady (scheduler sys);
  coh_suspended : forall p k, suspended sys !! p = Some k ->
                    promises (scheduler sys) !! p = None
                    /\ (p < nextPromise (scheduler sys))%nat;
  coh_jobs : Forall (fun j => exists v,
                       job_state j = Fulfilled v
                       /\ promises (scheduler sys) !! job_promise j = Some (Fulfilled v))
                    (jobs sys);
  coh_resumed : forall p f r v, Resumed p f r v ∈ notices sys ->
                  promises (scheduler sys) !! p = Some (Fulfilled v)
}.


(** One render from start to end: the handler is called, the host answers
    the call, the stack empties. *)
Definition one_render (options : Options) (fiber : Fiber) (render : Render)
    (x y width height pageX pageY : number) : list Task :=
  [rendered options fiber render;
   scheduler_input (host_reply 0 x y width height pageX pageY);
   stack_empty].


(** ** The scheduler with callbacks that throw *)

(** A callback handed to [measureFiber] is code of the caller.  In the
    definitions above it is an observer, which returns.  In the definitions
    below it may throw: [callback_throws c v] is the exception the call
    [c(v)] ends with, if any.  [callback?.(v)] is followed by [resolve(v)],
    [pendingCount--] and [processQueue()], which an exception skips; it
    leaves [processQueue] and goes to whoever called it: the executor of
    [new Promise] in [measureFiber], or the host.  Apart from the callback
    the definitions are those above, line by line. *)
Variable callback_throws : Callback -> option MeasurementValue -> option JsError.

(** [callback?.(v)] *)
Definition call_callback' (cb : option Callback) (v : option MeasurementValue)
    : JS Scheduler unit :=
  match cb with
  | Some c =>
      (emit (CallbackCalled c v) ;;
       match callback_throws c v with
       | Some e => throw e
       | None => ret tt
       end)%js
  | None => ret tt
  end.

Definition executeMeasurement' (processQueue : JS Scheduler unit) (r : Request)
    : JS Scheduler unit :=
  (let* now := Date_now_ in
   let* cached := WeakMap_get (fiber r) in
   match fresh_entry now cached with
   | Some c =>
       call_callback' (callback r) (Some (measurement c)) ;;
       call_resolve (resolve r) (Some (measurement c)) ;;
       modify (with_pendingCount Z.pred) ;;
       processQueue
   | None =>
       let* measuring := measure_loop r (fiber r) in
       if measuring : bool then ret tt
       else
         call_callback' (callback r) None ;;
         call_resolve (resolve r) None ;;
         modify (with_pendingCount Z.pred) ;;
         processQueue
   end)%js.

Fixpoint drain' (pending : list Request) : JS Scheduler unit :=
  match pending with
  | [] => ret tt
  | r :: rest => fun s =>
      if MAX_PENDING <=? pendingCount s then Normal tt s
      else
        (modify (with_queue (fun _ => rest)) ;;
         modify (with_pendingCount Z.succ) ;;
         emit (Shifted (resolve r)) ;;
         executeMeasurement' (drain' rest) r)%js s
  end.

Definition processQueue' : JS Scheduler unit := fun s => drain' (queue s) s.

Definition handleMeasurement' (r : Request)
    (x y width height pageX pageY : number) : JS Scheduler unit :=
  let coords := mkMeasurementValue width height pageX pageY x y in
  (let* t := Date_now_ in
   WeakMap_set (fiber r) (mkCacheEntry coords t) ;;
   let* alt := get_alternate (fiber r) in
   match alt with
   | Some a =>
       let* t' := Date_now_ in
       modify (with_cache <[a := mkCacheEntry coords t']>)
   | None => ret tt
   end ;;
   call_callback' (callback r) (Some coords) ;;
   call_resolve (resolve r) (Some coords) ;;
   modify (with_pendingCount Z.pred) ;;
   processQueue')%js.

Definition measureFiber' (fiber : Fiber) (callback : option Callback)
    : JS Scheduler PromiseId :=
  new_Promise (fun resolve =>
    (modify (with_queue (fun q => q ++ [mkRequest fiber callback resolve])) ;;
     processQueue')%js).

Definition reply' (k : nat) (x y width height pageX pageY : number)
    : JS Scheduler unit :=
  fun s =>
    match bridge s !! k with
    | None => Normal tt s
    | Some o =>
        (modify (with_bridge (delete k)) ;;
         emit (HostReplied (resolve (closure o))) ;;
         match host_call o with
         | UIManager_measure _ =>
             handleMeasurement' (closure o) x y width height pageX pageY
         | stateNode_measureInWindow _ =>
             handleMeasurement' (closure o) x y width height x y
         end)%js s
    end.

Definition step' (i : Input) : JS Scheduler unit :=
  match i with
  | call_measureFiber f cb => (measureFiber' f cb ;; ret tt)%js
  | host_reply k x y w h px py => reply' k x y w h px py
  end.

Definition step_state' (s : Scheduler) (i : Input) : Scheduler :=
  final_state (step' i s).

Definition run' (inputs : list Input) (s : Scheduler) : Scheduler :=
  fold_left step_state' inputs s.

(** *** Reading it *)

(** The exception [callback?.(v)] ends with, and the state after the call. *)
Definition thrown_by (cb : option Callback) (v : option MeasurementValue)
    : option JsError :=
  match cb with
  | Some c => callback_throws c v
  | None => None
  end.

Definition called (cb : option Callback) (v : option MeasurementValue)
    (s : Scheduler) : Scheduler :=
  with_trace (fun t => callback_events cb v ++ t) s.

(** [callback?.(v); resolve(v); pendingCount--; k()] on behalf of [r]. *)
Definition after_callback (k : JS Scheduler unit) (r : Request)
    (v : option MeasurementValue) (s : Scheduler) : Completion Scheduler unit :=
  match thrown_by (callback r) v with
  | Some e => Thrown e (called (callback r) v s)
  | None => k (answered r v s)
  end.

(** A callback that returns, whatever it is called with. *)
Definition returns_normally (cb : option Callback) : Prop :=
  forall v, thrown_by cb v = None.

Definition calm_input (i : Input) : Prop :=
  match i with
  | call_measureFiber _ cb => returns_normally cb
  | host_reply _ _ _ _ _ _ _ => True
  end.

Definition calm (s : Scheduler) : Prop :=
  Forall (fun r => returns_normally (callback r)) (waiting s).

(** *** The instrumented module on this scheduler *)

Definition updateOutlines_request' (fiber : Fiber) : JS Scheduler (option PromiseId) :=
  match getNearestHostFiber fiber with
  | null => ret None
  | fiberObj _ _ _ _ _ =>
      (let* p := measureFiber' fiber None in ret (Some p))%js
  end.

Definition call_updateOutlines' (fiber : Fiber) (render : Render) : JS System unit :=
  async async_updateOutlines
    (let* awaited := in_scheduler (updateOutlines_request' fiber) in
     match awaited with
     | None => ret tt
     | Some p => await p (mkContinuation fiber render)
     end)%js.

Definition onRender' (options : Options) (fiber : Fiber) (render : Render)
    : JS System unit :=
  async async_onRender
    (call_hook (options_onRender options) (Hook_onRender fiber render) ;;
     call_updateOutlines' fiber render)%js.

Definition instrumentNative' (options : Options) : Handlers :=
  mkHandlers (onCommitStart options) (onRender' options) (onCommitFinish options).

Definition system_step' (t : Task) : JS System unit :=
  match t with
  | commit_start options => handle_onCommitStart (instrumentNative' options)
  | rendered options fiber render =>
      handle_onRender (instrumentNative' options) fiber render
  | commit_finish options => handle_onCommitFinish (instrumentNative' options)
  | scheduler_input i => in_scheduler (step' i)
  | stack_empty => microtasks
  end.

Definition system_state' (sys : System) (t : Task) : System :=
  final_state (system_step' t sys).

Definition system_run' (tasks : list Task) (sys : System) : System :=
  fold_left system_state' tasks sys.

(** The callbacks other users of [measureFiber] pass return. *)
Definition calm_task (t : Task) : Prop :=
  match t with
  | scheduler_input i => calm_input i
  | _ => True
  end.


(** * Proofs *)

(** ** The scheduler, step by step *)

Lemma first_capability_fiberObj i sn c sib alt :
  first_capability (fiberObj i sn c sib alt) =
  match capability_of sn with
  | Some call => Some call
  | None => first_capability c
  end.
Proof.
  unfold first_capability. cbn. destruct (capability_of sn); reflexivity.
Qed.

Lemma measure_loop_spec r f s :
  measure_loop r f s =
  match first_capability f with
  | Some call => Normal true (asked call r s)
  | None => Normal false s
  end.
Proof.
  induction f as [|i sn c IHc sib _ alt]; [reflexivity|].
  rewrite first_capability_fiberObj. unfold capability_of. cbn [measure_loop].
  destruct (truthy_opt (opt_canonical_nativeTag sn)) eqn:Hnew.
  { destruct sn as [[[[tag] |] legacy miw] |]; cbn in Hnew; try discriminate.
    reflexivity. }
  destruct (truthy_opt (opt_nativeTag sn)) eqn:Hold.
  { destruct sn as [o |]; cbn in Hold; try discriminate. reflexivity. }
  destruct (opt_measureInWindow sn) as [view |] eqn:Hmiw.
  - destruct sn as [o |]; cbn in Hmiw; try discriminate.
    rewrite bool_decide_eq_true_2 by eauto.
    unfold bind, read, ret. cbn. rewrite Hmiw. reflexivity.
  - rewrite bool_decide_eq_false_2 by (intros [? ?]; discriminate).
    exact IHc.
Qed.

Lemma executeMeasurement_spec k r s :
  executeMeasurement k r s =
  match fresh_entry (Date_now (clockReads s)) (cache_lookup s (fiber r)) with
  | Some c => k (answered r (Some (measurement c)) (with_clockReads S s))
  | None =>
      match first_capability (fiber r) with
      | Some call => Normal tt (asked call r (with_clockReads S s))
      | None => k (answered r None (with_clockReads S s))
      end
  end.
Proof.
  unfold executeMeasurement, bind at 1, Date_now_. cbn beta iota.
  assert (Hget : WeakMap_get (fiber r) (with_clockReads S s)
                 = Normal (cache_lookup s (fiber r)) (with_clockReads S s)).
  { destruct (fiber r); reflexivity. }
  unfold bind at 1. rewrite Hget. cbn beta iota.
  destruct (fresh_entry _ _) as [c |].
  - destruct r as [f [cb |] p]; reflexivity.
  - unfold bind at 1. rewrite measure_loop_spec.
    destruct (first_capability (fiber r)); [reflexivity|].
    destruct r as [f [cb |] p]; reflexivity.
Qed.

Lemma drain_cons r rest s :
  drain (r :: rest) s =
  if MAX_PENDING <=? pendingCount s then Normal tt s
  else executeMeasurement (drain rest) r (shifted r rest s).
Proof. reflexivity. Qed.

Lemma handleMeasurement_spec i sn c sib alt cb p x y w h px py s :
  handleMeasurement (mkRequest (fiberObj i sn c sib alt) cb p) x y w h px py s =
  processQueue (answered (mkRequest (fiberObj i sn c sib alt) cb p)
                  (Some (mkMeasurementValue w h px py x y))
                  (stored i alt (mkMeasurementValue w h px py x y) s)).
Proof.
  destruct alt as [a |], cb as [cb |]; reflexivity.
Qed.

(** On a request without a fiber, [handleMeasurement] would throw at the
    [WeakMap]; the host never holds such a request ([wf_fibers]). *)
Lemma handleMeasurement_null cb p x y w h px py s :
  returns (handleMeasurement (mkRequest null cb p) x y w h px py s) -> False.
Proof. cbn. tauto. Qed.

Lemma continues_refl s : continues s s.
Proof. split; auto. exists []. reflexivity. Qed.

Lemma continues_trans s1 s2 s3 : continues s1 s2 -> continues s2 s3 -> continues s1 s3.
Proof.
  intros [Hc1 Hn1 Hp1 [n1 Ht1]] [Hc2 Hn2 Hp2 [n2 Ht2]]. split.
  - congruence.
  - congruence.
  - auto.
  - exists (n2 ++ n1). rewrite Ht2, Ht1. apply app_assoc.
Qed.

Lemma wf_init : wf init.
Proof.
  split; try (cbn; unfold MAX_PENDING; lia).
  - constructor.
  - apply NoDup_nil_2.
  - constructor.
  - intros p st H. cbn in H. rewrite lookup_empty in H. discriminate.
  - unfold within_cap, MAX_PENDING. cbn. lia.
Qed.

Lemma fulfil_other p v ps q : q <> p -> fulfil p v ps !! q = ps !! q.
Proof.
  intros Hne. unfold fulfil. destruct (ps !! p); [reflexivity|].
  apply lookup_insert_ne. congruence.
Qed.

Lemma fulfil_new p v ps : ps !! p = None -> fulfil p v ps !! p = Some (Fulfilled v).
Proof. intros H. unfold fulfil. rewrite H. apply lookup_insert_eq. Qed.

Lemma fulfil_keeps p v ps q st : ps !! q = Some st -> fulfil p v ps !! q = Some st.
Proof.
  intros H. unfold fulfil. destruct (ps !! p) eqn:Hp; [exact H|].
  rewrite lookup_insert_ne; [exact H|]. intros ->. congruence.
Qed.

Lemma in_flight_callback_events cb v t :
  in_flight (callback_events cb v ++ t) = in_flight t.
Proof. destruct cb; reflexivity. Qed.

Lemma host_in_flight_callback_events cb v t :
  host_in_flight (callback_events cb v ++ t) = host_in_flight t.
Proof. destruct cb; reflexivity. Qed.

Lemma at_every_instant_callback_events P cb v t :
  (forall c, P (CallbackCalled c v :: t)) ->
  at_every_instant P t -> at_every_instant P (callback_events cb v ++ t).
Proof. destruct cb; cbn; auto. Qed.

Lemma wf_answered r rest v s :
  wf s -> queue s = r :: rest -> pendingCount s < MAX_PENDING ->
  wf (answered r v (with_clockReads S (shifted r rest s))).
Proof.
  intros [Hcount Hcap Hfib Hnodup Hunset Hful Hfl Hhost Hhist] Hq Hlt.
  unfold waiting in Hnodup, Hunset. rewrite Hq in Hnodup, Hunset.
  cbn in Hnodup. apply NoDup_cons in Hnodup as [Hnotin Hnodup].
  apply Forall_cons in Hunset as [[Hnone Hbelow] Hunset].
  split; try assumption; try (cbn; arith).
  - unfold unsettled, waiting. cbn.
    rewrite Forall_forall in Hunset |- *. intros r' Hin.
    destruct (Hunset r' Hin) as [H1 H2]. split; [|exact H2].
    rewrite fulfil_other; [exact H1|].
    intros Heq. apply Hnotin. rewrite <- Heq.
    apply list_elem_of_fmap_2. exact Hin.
  - cbn. intros p st Hp. destruct (decide (p = resolve r)) as [-> | Hne].
    + rewrite fulfil_new in Hp by exact Hnone. injection Hp as <-. eauto.
    + rewrite fulfil_other in Hp by exact Hne. eauto.
  - cbn. rewrite in_flight_callback_events. cbn. arith.
  - cbn. rewrite host_in_flight_callback_events. cbn. arith.
  - cbn. split.
    { unfold within_cap. cbn.
      rewrite in_flight_callback_events, host_in_flight_callback_events. cbn. arith. }
    apply at_every_instant_callback_events.
    { intros c. unfold within_cap. cbn. arith. }
    cbn. split; [|exact Hhist]. unfold within_cap. cbn. arith.
Qed.

Lemma waiting_asked call r rest s :
  queue s = r :: rest ->
  waiting (asked call r (with_clockReads S (shifted r rest s))) ≡ₚ waiting s.
Proof.
  intros Hq. unfold waiting. cbn. rewrite Hq, fmap_app. cbn.
  rewrite app_assoc. rewrite <- Permutation_cons_append. reflexivity.
Qed.

Lemma wf_asked call r rest s :
  wf s -> queue s = r :: rest -> pendingCount s < MAX_PENDING ->
  fiber r <> null ->
  wf (asked call r (with_clockReads S (shifted r rest s))).
Proof.
  intros [Hcount Hcap Hfib Hnodup Hunset Hful Hfl Hhost Hhist] Hq Hlt Hnull.
  pose proof (waiting_asked call r rest s Hq) as Hperm.
  split; try assumption.
  - cbn. rewrite length_app. arith.
  - arith.
  - cbn. apply Forall_app. split; [exact Hfib|]. constructor; [exact Hnull|constructor].
  - rewrite Hperm. exact Hnodup.
  - rewrite Hperm. exact Hunset.
  - arith.
  - cbn. rewrite length_app. arith.
  - cbn. split; [|split; [|exact Hhist]]; unfold within_cap; cbn; arith.
Qed.

Lemma first_capability_not_null f call : first_capability f = Some call -> f <> null.
Proof. intros H ->. discriminate. Qed.

Lemma continues_answered r rest v s :
  continues s (answered r v (with_clockReads S (shifted r rest s))).
Proof.
  split; cbn; auto.
  - intros p st. apply fulfil_keeps.
  - exists (Resolved (resolve r) v :: callback_events (callback r) v ++ [Shifted (resolve r)]).
    cbn. rewrite <- app_assoc. reflexivity.
Qed.

Lemma continues_asked call r rest s :
  continues s (asked call r (with_clockReads S (shifted r rest s))).
Proof.
  split; cbn; auto.
  exists [HostAsked call (resolve r); Shifted (resolve r)]. reflexivity.
Qed.

(** [processQueue] returns, and it keeps the state well formed. *)
Lemma drain_wf q : forall s,
  wf s -> queue s = q ->
  exists s', drain q s = Normal tt s' /\ wf s' /\ continues s s'.
Proof.
  induction q as [|r rest IH]; intros s Hwf Hq.
  - exists s. auto using continues_refl.
  - rewrite drain_cons. destruct (MAX_PENDING <=? pendingCount s) eqn:Hfull.
    { exists s. auto using continues_refl. }
    apply Z.leb_gt in Hfull. rewrite executeMeasurement_spec.
    destruct (fresh_entry _ _) as [c |].
    + destruct (IH (answered r (Some (measurement c)) (with_clockReads S (shifted r rest s))))
        as (s' & Hrun & Hwf' & Hcont); [eauto using wf_answered | reflexivity |].
      exists s'. eauto using continues_trans, continues_answered.
    + destruct (first_capability (fiber r)) as [call |] eqn:Hcap.
      * eexists. split; [reflexivity|].
        eauto using wf_asked, continues_asked, first_capability_not_null.
      * destruct (IH (answered r None (with_clockReads S (shifted r rest s))))
          as (s' & Hrun & Hwf' & Hcont); [eauto using wf_answered | reflexivity |].
        exists s'. eauto using continues_trans, continues_answered.
Qed.

Lemma processQueue_wf s :
  wf s -> exists s', processQueue s = Normal tt s' /\ wf s' /\ continues s s'.
Proof. intros H. apply drain_wf; auto. Qed.

(** The recursive call of [processQueue] is [processQueue]. *)
Lemma processQueue_unfold r rest s :
  queue s = r :: rest ->
  processQueue s =
  if MAX_PENDING <=? pendingCount s then Normal tt s
  else executeMeasurement processQueue r (shifted r rest s).
Proof.
  intros Hq. unfold processQueue at 1. rewrite Hq, drain_cons.
  destruct (MAX_PENDING <=? pendingCount s); [reflexivity|].
  rewrite !executeMeasurement_spec.
  destruct (fresh_entry _ _); [reflexivity|].
  destruct (first_capability _); reflexivity.
Qed.

Lemma processQueue_empty s : queue s = [] -> processQueue s = Normal tt s.
Proof. intros Hq. unfold processQueue. rewrite Hq. reflexivity. Qed.

Lemma processQueue_full s :
  MAX_PENDING <= pendingCount s -> processQueue s = Normal tt s.
Proof.
  intros Hfull. unfold processQueue. destruct (queue s) as [|r rest]; [reflexivity|].
  rewrite drain_cons. apply Z.leb_le in Hfull. rewrite Hfull. reflexivity.
Qed.

Lemma wf_pushed f cb s : wf s -> wf (pushed f cb s).
Proof.
  intros [Hcount Hcap Hfib Hnodup Hunset Hful Hfl Hhost Hhist].
  assert (Hperm : waiting (pushed f cb s) ≡ₚ mkRequest f cb (nextPromise s) :: waiting s).
  { unfold waiting. cbn. rewrite <- app_assoc. cbn.
    rewrite <- Permutation_middle. reflexivity. }
  split; try assumption.
  - rewrite Hperm. cbn. apply NoDup_cons. split; [|exact Hnodup].
    intros Hin. apply list_elem_of_fmap_1 in Hin as (r' & Heq & Hin).
    rewrite Forall_forall in Hunset. destruct (Hunset r' Hin) as [_ Hlt]. lia.
  - rewrite Hperm. constructor.
    + split; cbn; [|lia]. destruct (promises s !! nextPromise s) as [st |] eqn:Hp; [|reflexivity].
      destruct (Hful _ _ Hp) as [_ Hlt]. lia.
    + eapply Forall_impl; [exact Hunset|]. intros r' [H1 H2]. split; cbn; [exact H1 | lia].
  - cbn. intros p st Hp. destruct (Hful p st Hp). split; [assumption | lia].
Qed.

Lemma measureFiber_spec f cb s :
  measureFiber f cb s =
  match processQueue (pushed f cb s) with
  | Normal _ s' => Normal (nextPromise s) s'
  | Thrown e s' =>
      Normal (nextPromise s)
        (with_promises (fun ps =>
           match ps !! nextPromise s with
           | Some _ => ps
           | None => <[nextPromise s := Rejected e]> ps
           end) s')
  end.
Proof. reflexivity. Qed.

Lemma measureFiber_wf f cb s :
  wf s ->
  exists s', measureFiber f cb s = Normal (nextPromise s) s'
             /\ processQueue (pushed f cb s) = Normal tt s'
             /\ wf s'
             /\ continues (pushed f cb s) s'.
Proof.
  intros Hwf.
  destruct (processQueue_wf (pushed f cb s) (wf_pushed f cb s Hwf)) as (s' & Hrun & Hwf' & Hcont).
  exists s'. split; [|split; [|split]]; try assumption.
  rewrite measureFiber_spec, Hrun. reflexivity.
Qed.

Lemma reply_none k x y w h px py s :
  bridge s !! k = None -> reply k x y w h px py s = Normal tt s.
Proof. intros H. unfold reply. rewrite H. reflexivity. Qed.

Lemma reply_spec k o i sn c sib alt x y w h px py s :
  bridge s !! k = Some o ->
  fiber (closure o) = fiberObj i sn c sib alt ->
  reply k x y w h px py s =
  let coords := reported (host_call o) x y w h px py in
  processQueue (answered (closure o) (Some coords) (stored i alt coords (replied k o s))).
Proof.
  intros Hk Hf. unfold reply. rewrite Hk.
  destruct o as [call [f cb p]]. cbn in Hf. subst f.
  unfold bind at 1 2, modify at 1, emit at 1, modify at 1. cbn beta iota.
  destruct call; cbn [host_call closure]; rewrite handleMeasurement_spec; reflexivity.
Qed.

Lemma wf_reply k o i alt coords s :
  wf s -> bridge s !! k = Some o ->
  wf (answered (closure o) (Some coords) (stored i alt coords (replied k o s))).
Proof.
  intros [Hcount Hcap Hfib Hnodup Hunset Hful Hfl Hhost Hhist] Hk.
  assert (Hlen : (0 < length (bridge s))%nat) by (apply lookup_lt_Some in Hk; lia).
  assert (Hdel : length (delete k (bridge s)) = (length (bridge s) - 1)%nat)
    by (apply length_delete; eauto).
  assert (Hperm : waiting s ≡ₚ closure o :: waiting
            (answered (closure o) (Some coords) (stored i alt coords (replied k o s)))).
  { unfold waiting. destruct alt; cbn.
    all: rewrite list_fmap_delete, Permutation_middle; apply Permutation_app_head.
    all: apply (delete_Permutation (closure <$> bridge s) k (closure o)).
    all: rewrite list_lookup_fmap, Hk; reflexivity. }
  rewrite Hperm in Hnodup, Hunset. cbn in Hnodup.
  apply NoDup_cons in Hnodup as [Hnotin Hnodup].
  apply Forall_cons in Hunset as [[Hnone Hbelow] Hunset].
  split; try assumption.
  - destruct alt; cbn; rewrite Hdel; arith.
  - destruct alt; arith.
  - destruct alt; cbn; apply Forall_delete; exact Hfib.
  - rewrite Forall_forall in Hunset |- *. intros r' Hin.
    destruct (Hunset r' Hin) as [H1 H2].
    assert (Hne : resolve r' <> resolve (closure o)).
    { intros Heq. apply Hnotin. rewrite <- Heq. apply list_elem_of_fmap_2. exact Hin. }
    split; destruct alt; cbn in *; try assumption; rewrite fulfil_other; assumption.
  - intros p st Hp.
    assert (Hp' : fulfil (resolve (closure o)) (Some coords) (promises s) !! p = Some st)
      by (destruct alt; exact Hp).
    assert (Hnext : nextPromise (answered (closure o) (Some coords)
                      (stored i alt coords (replied k o s))) = nextPromise s)
      by (destruct alt; reflexivity).
    rewrite Hnext. destruct (decide (p = resolve (closure o))) as [-> | Hne].
    + rewrite fulfil_new in Hp' by exact Hnone. injection Hp' as <-. eauto.
    + rewrite fulfil_other in Hp' by exact Hne. eauto.
  - destruct alt; cbn; rewrite in_flight_callback_events; arith.
  - destruct alt; cbn; rewrite host_in_flight_callback_events, Hdel; arith.
  - assert (Hcall : forall c, within_cap
              (CallbackCalled c (Some coords) :: HostReplied (resolve (closure o)) :: trace s))
      by (intros c; arith).
    destruct alt; cbn.
    all: split; [unfold within_cap; cbn;
                 rewrite in_flight_callback_events, host_in_flight_callback_events; arith|].
    all: apply at_every_instant_callback_events; [exact Hcall|].
    all: cbn; split; [arith | exact Hhist].
Qed.

Lemma continues_stored_promises i alt coords k o v s p st :
  promises s !! p = Some st ->
  promises (answered (closure o) v (stored i alt coords (replied k o s))) !! p = Some st.
Proof. intros H. destruct alt; cbn; apply fulfil_keeps; exact H. Qed.

Lemma reply_wf k x y w h px py s :
  wf s -> exists s', reply k x y w h px py s = Normal tt s' /\ wf s'.
Proof.
  intros Hwf. destruct (bridge s !! k) as [o |] eqn:Hk.
  - pose proof (wf_fibers s Hwf) as Hfib.
    rewrite Forall_forall in Hfib.
    specialize (Hfib o (list_elem_of_lookup_2 _ _ _ Hk)).
    destruct (fiber (closure o)) as [|i sn c sib alt] eqn:Hf; [congruence|].
    rewrite (reply_spec k o i sn c sib alt) by assumption. cbn zeta.
    destruct (processQueue_wf _ (wf_reply k o i alt
                (reported (host_call o) x y w h px py) s Hwf Hk)) as (s' & Hrun & Hwf' & _).
    eauto.
  - rewrite reply_none by assumption. eauto.
Qed.

Lemma step_wf i s : wf s -> exists s', step i s = Normal tt s' /\ wf s'.
Proof.
  intros Hwf. destruct i as [f cb | k x y w h px py]; cbn [step].
  - destruct (measureFiber_wf f cb s Hwf) as (s' & Hrun & _ & Hwf' & _).
    exists s'. unfold bind. rewrite Hrun. auto.
  - apply reply_wf. exact Hwf.
Qed.

Lemma step_state_wf s i : wf s -> wf (step_state s i).
Proof.
  intros Hwf. unfold step_state.
  destruct (step_wf i s Hwf) as (s' & -> & Hwf'). exact Hwf'.
Qed.

Lemma run_wf inputs : forall s, wf s -> wf (run inputs s).
Proof.
  induction inputs as [|i inputs IH]; intros s Hwf; [exact Hwf|].
  apply IH, step_state_wf, Hwf.
Qed.

Lemma drain_quiet q : forall s,
  wf s -> queue s = q -> nearly_quiet s ->
  forall s', drain q s = Normal tt s' -> quiet s'.
Proof.
  induction q as [|r rest IH]; intros s Hwf Hq Hnq s' Hrun.
  - injection Hrun as <-. intros Hne. congruence.
  - pose proof (wf_cap s Hwf) as Hcap.
    rewrite drain_cons in Hrun. destruct (MAX_PENDING <=? pendingCount s) eqn:Hfull.
    { injection Hrun as <-. apply Z.leb_le in Hfull. intros _. lia. }
    apply Z.leb_gt in Hfull. rewrite executeMeasurement_spec in Hrun.
    assert (Hnq' : forall v,
              nearly_quiet (answered r v (with_clockReads S (shifted r rest s)))).
    { intros v Hlen. unfold nearly_quiet in Hnq. rewrite Hq in Hnq. arith. }
    destruct (fresh_entry _ _) as [c |].
    + apply (IH _ (wf_answered r rest _ s Hwf Hq Hfull) eq_refl (Hnq' _) s' Hrun).
    + destruct (first_capability (fiber r)) as [call |] eqn:Hcall.
      * injection Hrun as <-. intros Hne. unfold nearly_quiet in Hnq. rewrite Hq in Hnq.
        cbn in Hne. destruct rest; [congruence|]. arith.
      * apply (IH _ (wf_answered r rest _ s Hwf Hq Hfull) eq_refl (Hnq' _) s' Hrun).
Qed.

Lemma sound_init : sound init.
Proof. split; [apply wf_init | intros H; cbn in H; congruence]. Qed.

Lemma measureFiber_sound f cb s :
  sound s ->
  exists s', measureFiber f cb s = Normal (nextPromise s) s' /\ sound s'.
Proof.
  intros [Hwf Hq].
  destruct (measureFiber_wf f cb s Hwf) as (s' & Hrun & Hpq & Hwf' & _).
  exists s'. split; [exact Hrun|]. split; [exact Hwf'|].
  eapply drain_quiet; [apply wf_pushed, Hwf | reflexivity | | exact Hpq].
  intros Hlen. cbn in Hlen. rewrite length_app in Hlen. cbn in Hlen.
  destruct (queue s) eqn:Hqs; [cbn in Hlen; lia|].
  cbn. rewrite Hq by congruence. lia.
Qed.

Lemma reply_sound k x y w h px py s :
  sound s -> exists s', reply k x y w h px py s = Normal tt s' /\ sound s'.
Proof.
  intros [Hwf Hq]. destruct (bridge s !! k) as [o |] eqn:Hk.
  - pose proof (wf_fibers s Hwf) as Hfib.
    rewrite Forall_forall in Hfib.
    specialize (Hfib o (list_elem_of_lookup_2 _ _ _ Hk)).
    destruct (fiber (closure o)) as [|i sn c sib alt] eqn:Hf; [congruence|].
    rewrite (reply_spec k o i sn c sib alt) by assumption. cbn zeta.
    pose proof (wf_reply k o i alt (reported (host_call o) x y w h px py) s Hwf Hk) as Hwf1.
    destruct (processQueue_wf _ Hwf1) as (s' & Hrun & Hwf' & _).
    exists s'. split; [exact Hrun|]. split; [exact Hwf'|].
    eapply drain_quiet; [exact Hwf1 | reflexivity | | exact Hrun].
    intros Hlen.
    assert (Hqs : queue s <> []).
    { destruct alt; cbn in Hlen; destruct (queue s); cbn in Hlen; [lia|congruence|lia|congruence]. }
    specialize (Hq Hqs). destruct alt; arith.
  - rewrite reply_none by assumption. exists s. split; [reflexivity|]. split; assumption.
Qed.

Lemma step_sound i s : sound s -> exists s', step i s = Normal tt s' /\ sound s'.
Proof.
  intros Hs. destruct i as [f cb | k x y w h px py]; cbn [step].
  - destruct (measureFiber_sound f cb s Hs) as (s' & Hrun & Hs').
    exists s'. unfold bind. rewrite Hrun. auto.
  - apply reply_sound. exact Hs.
Qed.

Lemma run_sound inputs : forall s, sound s -> sound (run inputs s).
Proof.
  induction inputs as [|i inputs IH]; intros s Hs; [exact Hs|].
  apply IH. unfold step_state. destruct (step_sound i s Hs) as (s' & -> & Hs'). exact Hs'.
Qed.

(** *** The three ways a dequeued request is handled *)

Lemma processQueue_hit r rest c s :
  queue s = r :: rest -> pendingCount s < MAX_PENDING ->
  fresh_entry (Date_now (clockReads s)) (cache_lookup s (fiber r)) = Some c ->
  processQueue s
  = processQueue (answered r (Some (measurement c)) (with_clockReads S (shifted r rest s))).
Proof.
  intros Hq Hlt Hfresh. rewrite (processQueue_unfold r rest) by exact Hq.
  apply Z.leb_gt in Hlt. rewrite Hlt, executeMeasurement_spec.
  cbn [shifted clockReads with_trace with_pendingCount with_queue].
  change (cache_lookup (shifted r rest s) (fiber r)) with (cache_lookup s (fiber r)).
  rewrite Hfresh. reflexivity.
Qed.

Lemma processQueue_ask r rest call s :
  queue s = r :: rest -> pendingCount s < MAX_PENDING ->
  fresh_entry (Date_now (clockReads s)) (cache_lookup s (fiber r)) = None ->
  first_capability (fiber r) = Some call ->
  processQueue s = Normal tt (asked call r (with_clockReads S (shifted r rest s))).
Proof.
  intros Hq Hlt Hfresh Hcap. rewrite (processQueue_unfold r rest) by exact Hq.
  apply Z.leb_gt in Hlt. rewrite Hlt, executeMeasurement_spec.
  cbn [shifted clockReads with_trace with_pendingCount with_queue].
  change (cache_lookup (shifted r rest s) (fiber r)) with (cache_lookup s (fiber r)).
  rewrite Hfresh, Hcap. reflexivity.
Qed.

Lemma processQueue_unmeasurable r rest s :
  queue s = r :: rest -> pendingCount s < MAX_PENDING ->
  fresh_entry (Date_now (clockReads s)) (cache_lookup s (fiber r)) = None ->
  first_capability (fiber r) = None ->
  processQueue s
  = processQueue (answered r None (with_clockReads S (shifted r rest s))).
Proof.
  intros Hq Hlt Hfresh Hcap. rewrite (processQueue_unfold r rest) by exact Hq.
  apply Z.leb_gt in Hlt. rewrite Hlt, executeMeasurement_spec.
  cbn [shifted clockReads with_trace with_pendingCount with_queue].
  change (cache_lookup (shifted r rest s) (fiber r)) with (cache_lookup s (fiber r)).
  rewrite Hfresh, Hcap. reflexivity.
Qed.

Lemma head_unsettled r rest s :
  wf s -> queue s = r :: rest -> promises s !! resolve r = None.
Proof.
  intros Hwf Hq. pose proof (wf_unsettled s Hwf) as H.
  unfold waiting in H. rewrite Hq in H. cbn in H.
  apply Forall_cons in H as [[H _] _]. exact H.
Qed.

(** A request answered on the spot: its promise holds the answer from then
    on. *)
Lemma answered_settles r rest v s :
  wf s -> queue s = r :: rest -> pendingCount s < MAX_PENDING ->
  exists s', processQueue (answered r v (with_clockReads S (shifted r rest s))) = Normal tt s'
             /\ wf s'
             /\ continues (answered r v (with_clockReads S (shifted r rest s))) s'
             /\ promises s' !! resolve r = Some (Fulfilled v).
Proof.
  intros Hwf Hq Hlt.
  destruct (processQueue_wf _ (wf_answered r rest v s Hwf Hq Hlt)) as (s' & Hrun & Hwf' & Hcont).
  exists s'. split; [exact Hrun|]. split; [exact Hwf'|]. split; [exact Hcont|].
  apply (cont_promises _ _ Hcont). cbn. apply fulfil_new.
  eapply head_unsettled; eassumption.
Qed.

(** *** What the host's answer does *)

Lemma reply_settles k o i sn c sib alt x y w h px py s :
  wf s -> bridge s !! k = Some o -> fiber (closure o) = fiberObj i sn c sib alt ->
  exists s',
    reply k x y w h px py s = Normal tt s'
    /\ wf s'
    /\ continues (answered (closure o) (Some (reported (host_call o) x y w h px py))
                    (stored i alt (reported (host_call o) x y w h px py) (replied k o s))) s'
    /\ promises s' !! resolve (closure o)
        = Some (Fulfilled (Some (reported (host_call o) x y w h px py))).
Proof.
  intros Hwf Hk Hf.
  pose proof (wf_reply k o i alt (reported (host_call o) x y w h px py) s Hwf Hk) as Hwf1.
  destruct (processQueue_wf _ Hwf1) as (s' & Hrun & Hwf' & Hcont).
  exists s'. split; [|split; [exact Hwf'|split; [exact Hcont|]]].
  - rewrite (reply_spec k o i sn c sib alt) by assumption. exact Hrun.
  - apply (cont_promises _ _ Hcont).
    assert (Hnone : promises s !! resolve (closure o) = None).
    { pose proof (wf_unsettled s Hwf) as Hun. rewrite Forall_forall in Hun.
      apply Hun. unfold waiting. apply elem_of_app. right.
      apply list_elem_of_fmap_2. eapply list_elem_of_lookup_2. exact Hk. }
    destruct alt; cbn; apply fulfil_new; exact Hnone.
Qed.

Lemma stored_cache i alt coords s :
  measurementCache (stored i alt coords s) =
  match alt with
  | Some a => <[a := mkCacheEntry coords (Date_now (S (clockReads s)))]>
                (<[i := mkCacheEntry coords (Date_now (clockReads s))]> (measurementCache s))
  | None => <[i := mkCacheEntry coords (Date_now (clockReads s))]> (measurementCache s)
  end.
Proof. destruct alt; reflexivity. Qed.

Lemma measure_loop_chain r f f' s :
  first_child_chain f = first_child_chain f' -> measure_loop r f s = measure_loop r f' s.
Proof.
  intros Hchain. rewrite !measure_loop_spec. unfold first_capability.
  rewrite Hchain. reflexivity.
Qed.

(** The host call made for a dequeued request is the last the host holds,
    and its answer resolves the request's promise. *)
Lemma asked_then_replied r rest call x y w h px py s :
  wf s -> queue s = r :: rest -> pendingCount s < MAX_PENDING ->
  first_capability (fiber r) = Some call ->
  exists s',
    reply (length (bridge s)) x y w h px py (asked call r (with_clockReads S (shifted r rest s)))
    = Normal tt s'
    /\ promises s' !! resolve r = Some (Fulfilled (Some (reported call x y w h px py))).
Proof.
  intros Hwf Hq Hlt Hcap.
  pose proof (first_capability_not_null _ _ Hcap) as Hnull.
  pose proof (wf_asked call r rest s Hwf Hq Hlt Hnull) as Hwf1.
  destruct (fiber r) as [|i sn c sib alt] eqn:Hf; [congruence|].
  destruct (reply_settles (length (bridge s)) (mkOutstanding call r) i sn c sib alt
              x y w h px py _ Hwf1) as (s' & Hrun & _ & _ & Hp).
  - cbn. apply list_lookup_middle. reflexivity.
  - exact Hf.
  - exists s'. split; [exact Hrun | exact Hp].
Qed.


Lemma sound_quiet_free s : sound s -> pendingCount s < MAX_PENDING -> queue s = [].
Proof.
  intros [_ Hq] Hlt. destruct (queue s) eqn:Hqs; [reflexivity|].
  unfold quiet in Hq. rewrite Hqs in Hq. specialize (Hq ltac:(congruence)). lia.
Qed.


(** ** What the specification says about the scheduler *)

(** C2.  Whatever calls of [measureFiber] and answers of the host happen, in
    whatever order, the number of requests dequeued and not yet resolved is
    at most 50 after every single event, and so is the number of host calls
    waiting for their answer; both are what [pendingCount] and the host
    hold between two inputs.  Any 200 calls in a row are one such
    sequence. *)
Theorem concurrency_cap (inputs : list Input) :
  MAX_PENDING = 50
  /\ at_every_instant
       (fun history =>
          0 <= host_in_flight history
          /\ host_in_flight history <= in_flight history
          /\ in_flight history <= MAX_PENDING)
       (trace (run inputs init))
  /\ in_flight (trace (run inputs init)) = pendingCount (run inputs init)
  /\ host_in_flight (trace (run inputs init))
      = Z.of_nat (length (bridge (run inputs init)))
  /\ (length (bridge (run inputs init)) <= 50)%nat.
Proof.
  destruct (run_wf inputs init wf_init)
    as [Hcount Hcap _ _ _ _ Hfl Hhost Hhist].
  split; [reflexivity|]. split; [exact Hhist|]. split; [exact Hfl|].
  split; [exact Hhost|]. unfold MAX_PENDING in Hcap. lia.
Qed.

(** C4.  The loop of [executeMeasurement] is the search along the
    first-child chain: the node itself first, then [child] after [child];
    at each node the new-architecture tag, then the legacy tag, then
    [measureInWindow]; the first capability found is the one the host is
    asked for.  Two fibers with the same first-child chain are measured
    alike, whatever their siblings are.  For a dequeued request without a
    fresh cache entry the host is asked for that capability, and when the
    node has none of its own but a descendant on the chain has, the call
    is the descendant's and the promise is resolved with what the host
    reports for it. *)
Theorem traversal_fallback :
  (forall r f s,
     measure_loop r f s =
     match head (omap capability_of (first_child_chain f)) with
     | Some call => Normal true (asked call r s)
     | None => Normal false s
     end)
  /\ (forall i sn c sib alt,
        first_child_chain (fiberObj i sn c sib alt) = sn :: first_child_chain c)
  /\ (forall r f f' s,
        first_child_chain f = first_child_chain f' ->
        measure_loop r f s = measure_loop r f' s)
  /\ (forall r rest call s,
        queue s = r :: rest -> pendingCount s < MAX_PENDING ->
        fresh_entry (Date_now (clockReads s)) (cache_lookup s (fiber r)) = None ->
        first_capability (fiber r) = Some call ->
        processQueue s = Normal tt (asked call r (with_clockReads S (shifted r rest s))))
  /\ (forall i sn c sib alt cb p rest call x y w h px py s,
        wf s ->
        queue s = mkRequest (fiberObj i sn c sib alt) cb p :: rest ->
        pendingCount s < MAX_PENDING ->
        fresh_entry (Date_now (clockReads s)) (measurementCache s !! i) = None ->
        capability_of sn = None ->
        first_capability c = Some call ->
        exists s1 s2,
          processQueue s = Normal tt s1
          /\ bridge s1 = bridge s ++ [mkOutstanding call (mkRequest (fiberObj i sn c sib alt) cb p)]
          /\ reply (length (bridge s)) x y w h px py s1 = Normal tt s2
          /\ promises s2 !! p = Some (Fulfilled (Some (reported call x y w h px py)))).
Proof.
  split; [exact measure_loop_spec|]. split; [reflexivity|].
  split; [exact measure_loop_chain|]. split; [exact processQueue_ask|].
  intros i sn c sib alt cb p rest call x y w h px py s Hwf Hq Hlt Hfresh Hown Hdesc.
  assert (Hcap : first_capability (fiber (mkRequest (fiberObj i sn c sib alt) cb p)) = Some call).
  { cbn [fiber]. rewrite first_capability_fiberObj, Hown. exact Hdesc. }
  destruct (asked_then_replied _ rest call x y w h px py s Hwf Hq Hlt Hcap) as (s2 & Hrun & Hp).
  eexists _, s2. split; [|split; [|split; [exact Hrun | exact Hp]]].
  - apply processQueue_ask; assumption.
  - reflexivity.
Qed.



Lemma dequeued_null_iff r rest s :
  wf s -> queue s = r :: rest -> pendingCount s < MAX_PENDING ->
  exists s',
    processQueue s = Normal tt s'
    /\ wf s'
    /\ (promises s' !! resolve r = Some (Fulfilled None) <->
        fresh_entry (Date_now (clockReads s)) (cache_lookup s (fiber r)) = None
        /\ first_capability (fiber r) = None).
Proof.
  intros Hwf Hq Hlt.
  destruct (fresh_entry (Date_now (clockReads s)) (cache_lookup s (fiber r)))
    as [c |] eqn:Hfresh.
  - destruct (answered_settles r rest (Some (measurement c)) s Hwf Hq Hlt)
      as (s' & Hrun & Hwf' & _ & Hp).
    exists s'. rewrite (processQueue_hit r rest c s Hq Hlt Hfresh).
    split; [exact Hrun|]. split; [exact Hwf'|]. rewrite Hp.
    split; [intros H | intros [H _]]; discriminate.
  - destruct (first_capability (fiber r)) as [call |] eqn:Hcap.
    + rewrite (processQueue_ask r rest call s Hq Hlt Hfresh Hcap).
      eexists. split; [reflexivity|].
      split; [eauto using wf_asked, first_capability_not_null|].
      cbn. rewrite (head_unsettled r rest s Hwf Hq).
      split; [intros H | intros [_ H]]; discriminate.
    + destruct (answered_settles r rest None s Hwf Hq Hlt) as (s' & Hrun & Hwf' & _ & Hp).
      exists s'. rewrite (processQueue_unmeasurable r rest s Hq Hlt Hfresh Hcap).
      split; [exact Hrun|]. split; [exact Hwf'|]. rewrite Hp. tauto.
Qed.

Lemma never_rejected s p e : wf s -> promises s !! p <> Some (Rejected e).
Proof.
  intros Hwf Hp. destruct (wf_fulfilled s Hwf _ _ Hp) as [[v Hv] _]. discriminate.
Qed.

(** C10.  A dequeued request takes its slot first: [pendingCount] is
    incremented, and [executeMeasurement], which looks at the cache, runs in
    that state.  A request answered from a fresh cache entry is therefore in
    flight between its [Shifted] and its [Resolved] event.  With 50 requests
    unsettled a new request just joins the queue, fresh entry or not: its
    promise stays unsettled and no callback is called.  When the host then
    answers one of its calls, the slot is free and the request at the head
    of the queue is answered from its entry, if that is still fresh. *)
Theorem cache_hit_occupies_slot :
  (forall r rest s,
     queue s = r :: rest -> pendingCount s < MAX_PENDING ->
     processQueue s = executeMeasurement processQueue r (shifted r rest s)
     /\ pendingCount (shifted r rest s) = pendingCount s + 1
     /\ in_flight (trace (shifted r rest s)) = in_flight (trace s) + 1)
  /\ (forall r rest c s,
        queue s = r :: rest -> pendingCount s < MAX_PENDING ->
        fresh_entry (Date_now (clockReads s)) (cache_lookup s (fiber r)) = Some c ->
        processQueue s
        = processQueue (answered r (Some (measurement c))
                          (with_clockReads S (shifted r rest s)))
        /\ trace (answered r (Some (measurement c)) (with_clockReads S (shifted r rest s)))
           = Resolved (resolve r) (Some (measurement c))
             :: callback_events (callback r) (Some (measurement c))
             ++ Shifted (resolve r) :: trace s)
  /\ (forall f cb s,
        wf s -> MAX_PENDING <= pendingCount s ->
        measureFiber f cb s = Normal (nextPromise s) (pushed f cb s)
        /\ queue (pushed f cb s) = queue s ++ [mkRequest f cb (nextPromise s)]
        /\ promises (pushed f cb s) !! nextPromise s = None
        /\ trace (pushed f cb s) = trace s
        /\ bridge (pushed f cb s) = bridge s)
  /\ (forall k o i sn ch sib alt x y w h px py f cb c s,
        wf s -> queue s = [] -> MAX_PENDING <= pendingCount s ->
        bridge s !! k = Some o ->
        fiber (closure o) = fiberObj i sn ch sib alt ->
        fresh_entry
          (Date_now (clockReads (stored i alt (reported (host_call o) x y w h px py) s)))
          (cache_lookup (stored i alt (reported (host_call o) x y w h px py) s) f) = Some c ->
        exists s',
          reply k x y w h px py (pushed f cb s) = Normal tt s'
          /\ promises s' !! nextPromise s = Some (Fulfilled (Some (measurement c)))).
Proof.
  split; [|split; [|split]].
  - intros r rest s Hq Hlt. split; [|split; reflexivity].
    rewrite (processQueue_unfold r rest) by exact Hq.
    apply Z.leb_gt in Hlt. rewrite Hlt. reflexivity.
  - intros r rest c s Hq Hlt Hfresh. split; [|reflexivity].
    apply processQueue_hit; assumption.
  - intros f cb s Hwf Hfull.
    rewrite measureFiber_spec, processQueue_full by exact Hfull.
    split; [reflexivity|]. split; [reflexivity|]. split; [|split; reflexivity].
    cbn. destruct (promises s !! nextPromise s) eqn:Hn; [|reflexivity].
    destruct (wf_fulfilled s Hwf _ _ Hn) as [_ Hlt']. lia.
  - intros k o i sn ch sib alt x y w h px py f cb c s Hwf Hq Hfull Hk Hf Hfresh.
    pose proof (wf_cap s Hwf) as Hcap.
    set (coords := reported (host_call o) x y w h px py) in *.
    pose proof (wf_reply k o i alt coords (pushed f cb s) (wf_pushed f cb s Hwf) Hk) as Hwf1.
    rewrite (reply_spec k o i sn ch sib alt) by assumption. cbn zeta. fold coords.
    set (s1 := answered (closure o) (Some coords) (stored i alt coords (replied k o (pushed f cb s)))) in *.
    assert (Hq1 : queue s1 = [mkRequest f cb (nextPromise s)])
      by (subst s1; destruct alt; cbn; rewrite Hq; reflexivity).
    assert (Hlt1 : pendingCount s1 < MAX_PENDING)
      by (subst s1; destruct alt; arith).
    assert (Hfresh1 : fresh_entry (Date_now (clockReads s1))
                        (cache_lookup s1 (fiber (mkRequest f cb (nextPromise s)))) = Some c).
    { rewrite <- Hfresh. subst s1. destruct alt, f; reflexivity. }
    rewrite (processQueue_hit _ [] c s1 Hq1 Hlt1 Hfresh1).
    destruct (answered_settles _ [] (Some (measurement c)) s1 Hwf1 Hq1 Hlt1)
      as (s' & Hrun & _ & _ & Hp).
    exists s'. split; [exact Hrun | exact Hp].
Qed.

(** ** The aggregator, step by step *)

(** Without a host fiber [updateOutlines] returns at once; otherwise it asks
    the scheduler, without a callback. *)
Lemma updateOutlines_request_spec fiber s :
  updateOutlines_request fiber s =
  match getNearestHostFiber fiber with
  | null => Normal None s
  | fiberObj _ _ _ _ _ =>
      match measureFiber fiber None s with
      | Normal p s' => Normal (Some p) s'
      | Thrown e s' => Thrown e s'
      end
  end.
Proof.
  unfold updateOutlines_request. destruct (getNearestHostFiber fiber); reflexivity.
Qed.

Lemma assertNative_spec {S : Type} (m : Measurement) (s : S) :
  assertNative m s =
  if String.eqb (kind m) "native" then Normal m s
  else Thrown (Error "native invariant") s.
Proof. unfold assertNative. destruct (String.eqb (kind m) "native"); reflexivity. Qed.

(** The search changes nothing, whether it ends normally or not. *)
Lemma find_outline_state key elems s :
  final_state (find_outline key elems s) = s.
Proof.
  induction elems as [|o rest IH]; [reflexivity|].
  cbn [find_outline]. unfold bind at 1, gets. cbn beta iota.
  destruct (objects s !! o) as [a |]; [|reflexivity].
  unfold bind at 1. rewrite assertNative_spec.
  destruct (String.eqb (kind (latestMeasurement (outline a))) "native"); [|reflexivity].
  destruct (String.eqb (getKey (value (latestMeasurement (outline a)))) key); [reflexivity|].
  exact IH.
Qed.

Lemma find_outline_natives key elems s :
  natives s elems -> find_outline key elems s = Normal (search s key elems) s.
Proof.
  induction elems as [|o rest IH]; intros Hnat; [reflexivity|].
  apply Forall_cons in Hnat as [(a & Ha & Hkind) Hrest].
  cbn [find_outline search]. unfold bind at 1, gets. cbn beta iota. rewrite Ha.
  unfold bind at 1. rewrite assertNative_spec.
  unfold is_native in Hkind. rewrite Hkind. cbn beta iota.
  unfold key_of. rewrite Ha. cbn [fmap option_fmap option_map].
  destruct (String.eqb_spec (getKey (value (latestMeasurement (outline a)))) key) as [Heq | Hne].
  - rewrite decide_True by (unfold stored_key; congruence). reflexivity.
  - rewrite decide_False by (unfold stored_key; congruence). apply IH, Hrest.
Qed.

Lemma three_alters render now o (m : gmap ObjRef ActiveOutline) :
  alter (fun a => mkActiveOutline (outline a) (outline_id a) (text a) now
                    (alpha a) (frame a) (totalFrames a)) o
    (alter (fun a => mkActiveOutline (outline a) (outline_id a)
                       (getLabelText (renders (outline a)) "native")
                       (updatedAt a) (alpha a) (frame a) (totalFrames a)) o
       (alter (fun a => mkActiveOutline
                 (mkPendingOutline (latestMeasurement (outline a)) (outline_fiber (outline a))
                                   (renders (outline a) ++ [render]))
                 (outline_id a) (text a) (updatedAt a) (alpha a) (frame a) (totalFrames a)) o m))
  = alter (merge_into render now) o m.
Proof.
  apply map_eq. intros o'. destruct (decide (o = o')) as [<- | Hne].
  - rewrite !lookup_alter_eq. destruct (m !! o); reflexivity.
  - rewrite !lookup_alter_ne by exact Hne. reflexivity.
Qed.

(** [update_or_create], by the outcome of the search. *)
Lemma update_or_create_spec fiber render m now s :
  update_or_create fiber render m now s =
  match find_outline (getKey m) (elements_of s (activeOutlines s)) s with
  | Normal (Some o) _ => Normal tt (merged o render now s)
  | Normal None _ => Normal tt (created fiber render m now s)
  | Thrown e _ => Thrown e s
  end.
Proof.
  unfold update_or_create. unfold bind at 1, gets. cbn beta iota. unfold bind at 1.
  pose proof (find_outline_state (getKey m) (elements_of s (activeOutlines s)) s) as Hst.
  destruct (find_outline _ _ s) as [[o |] s1 | e s1]; cbn in Hst; subst s1.
  - unfold bind, modify, getCopiedActiveOutlines, merged, republish.
    match goal with
    | |- context [with_objects ?f3 (with_objects ?f2 (with_objects ?f1 s))] =>
        assert (Hobj : with_objects f3 (with_objects f2 (with_objects f1 s))
                       = with_objects (alter (merge_into render now) o) s)
          by (unfold with_objects;
              cbn [arrays objects activeOutlines idCounter console];
              rewrite three_alters; reflexivity);
        rewrite !Hobj
    end.
    reflexivity.
  - reflexivity.
  - reflexivity.
Qed.

Lemma updateOutlines_returns fiber render measurement now s :
  exists s', updateOutlines fiber render measurement now s = Normal tt s'.
Proof.
  unfold updateOutlines. destruct measurement as [m |]; [|eexists; reflexivity].
  destruct (truthy (pageX m)); cbn [negb]; [|eexists; reflexivity].
  unfold try_catch. rewrite update_or_create_spec.
  destruct (find_outline _ _ s) as [[o |] s1 | e s1]; eexists; reflexivity.
Qed.

Lemma aggregate_returns evs : forall s, exists s', aggregate evs s = Normal tt s'.
Proof.
  induction evs as [|e rest IH]; intros s; [eexists; reflexivity|].
  cbn [aggregate]. unfold bind, on_event.
  destruct (updateOutlines_returns (ev_fiber e) (ev_render e) (ev_measurement e) (ev_now e) s)
    as (s1 & ->).
  apply IH.
Qed.

Lemma find_outline_throws key before o after a s :
  natives s before -> search s key before = None ->
  objects s !! o = Some a -> is_native a = false ->
  find_outline key (before ++ o :: after) s = Thrown (Error "native invariant") s.
Proof.
  intros Hnat Hnone Ho Hkind.
  induction before as [|o' before IH]; cbn [app find_outline].
  - unfold bind at 1, gets. cbn beta iota. rewrite Ho.
    unfold bind at 1. rewrite assertNative_spec.
    unfold is_native in Hkind. rewrite Hkind. reflexivity.
  - apply Forall_cons in Hnat as [(a' & Ha' & Hkind') Hrest].
    cbn [search] in Hnone. destruct (decide (key_of s o' = Some key)) as [|Hne]; [discriminate|].
    unfold bind at 1, gets. cbn beta iota. rewrite Ha'.
    unfold bind at 1. rewrite assertNative_spec.
    unfold is_native in Hkind'. rewrite Hkind'. cbn beta iota.
    destruct (String.eqb_spec (getKey (value (latestMeasurement (outline a')))) key) as [Heq | _].
    + exfalso. apply Hne. unfold key_of. rewrite Ha'. cbn. unfold stored_key. congruence.
    + apply IH; assumption.
Qed.

(** *** Republishing *)

Lemma republish_fresh s : activeOutlines (republish s) ∉ dom (arrays s).
Proof. cbn. apply is_fresh. Qed.

Lemma republish_elements s :
  elements_of (republish s) (activeOutlines (republish s)) = elements_of s (activeOutlines s).
Proof. unfold elements_of at 1. cbn. rewrite lookup_insert_eq. reflexivity. Qed.

Lemma republish_other s r :
  r ∈ dom (arrays s) -> elements_of (republish s) r = elements_of s r.
Proof.
  intros Hr. unfold elements_of. cbn. rewrite lookup_insert_ne; [reflexivity|].
  intros <-. exact (is_fresh _ Hr).
Qed.

Lemma elements_in_dom s r : elements_of s r <> [] -> r ∈ dom (arrays s).
Proof.
  unfold elements_of. intros H. apply elem_of_dom.
  destruct (arrays s !! r); [eauto | contradiction].
Qed.

Lemma find_outline_found key elems s o s1 :
  find_outline key elems s = Normal (Some o) s1 -> elems <> [].
Proof. intros H ->. discriminate. Qed.

Lemma find_outline_search key elems s o s1 :
  find_outline key elems s = Normal (Some o) s1 -> search s key elems = Some o.
Proof.
  induction elems as [|o' rest IH]; [discriminate|].
  cbn [find_outline search]. unfold bind at 1, gets. cbn beta iota.
  destruct (objects s !! o') as [a |] eqn:Ha; [|discriminate].
  unfold bind at 1. rewrite assertNative_spec.
  destruct (String.eqb (kind (latestMeasurement (outline a))) "native"); [|discriminate].
  cbn beta iota. unfold key_of. rewrite Ha. cbn [fmap option_fmap option_map].
  destruct (String.eqb_spec (getKey (value (latestMeasurement (outline a)))) key) as [Heq | Hne].
  - intros H. injection H as <- _.
    rewrite decide_True by (unfold stored_key; congruence). reflexivity.
  - intros H. rewrite decide_False by (unfold stored_key; congruence). apply IH, H.
Qed.

Lemma merged_elements o render now s r :
  r ∈ dom (arrays s) -> elements_of (merged o render now s) r = elements_of s r.
Proof. intros Hr. unfold merged. rewrite republish_other by exact Hr. reflexivity. Qed.

Lemma created_old_array fiber render m now s :
  elements_of (created fiber render m now s) (activeOutlines s)
  = elements_of s (activeOutlines s) ++ [fresh (dom (objects s))].
Proof.
  unfold created. rewrite republish_other.
  - unfold elements_of at 1. cbn. rewrite lookup_insert_eq. reflexivity.
  - cbn. apply elem_of_dom. rewrite lookup_insert_eq. eauto.
Qed.

Lemma created_other_array fiber render m now s r :
  r <> activeOutlines s -> r ∈ dom (arrays s) ->
  elements_of (created fiber render m now s) r = elements_of s r.
Proof.
  intros Hne Hr. unfold created. rewrite republish_other.
  - unfold elements_of. cbn. rewrite lookup_insert_ne by congruence. reflexivity.
  - cbn. apply elem_of_dom. rewrite lookup_insert_ne by congruence.
    apply elem_of_dom. exact Hr.
Qed.

Lemma created_new_array fiber render m now s :
  elements_of (created fiber render m now s) (activeOutlines (created fiber render m now s))
  = elements_of s (activeOutlines s) ++ [fresh (dom (objects s))].
Proof.
  unfold created. rewrite republish_elements.
  unfold elements_of at 1. cbn. rewrite lookup_insert_eq. reflexivity.
Qed.

Lemma created_fresh fiber render m now s :
  (activeOutlines (created fiber render m now s) ∉ dom (arrays s))
  /\ activeOutlines (created fiber render m now s) <> activeOutlines s.
Proof.
  unfold created.
  match goal with |- context [republish ?t] => pose proof (republish_fresh t) as Hf end.
  cbn in Hf |- *.
  set (r := fresh (dom (<[activeOutlines s := _]> (arrays s)))) in *.
  rewrite dom_insert_L in Hf.
  apply not_elem_of_union in Hf as [H1 H2]. split; [exact H2|].
  intros Heq. apply H1. rewrite Heq. apply elem_of_singleton. reflexivity.
Qed.

Lemma search_ext s s' k elems :
  (forall o, o ∈ elems -> key_of s' o = key_of s o) ->
  search s' k elems = search s k elems.
Proof.
  induction elems as [|o rest IH]; intros Hext; [reflexivity|].
  cbn [search]. rewrite Hext by (left).
  destruct (decide (key_of s o = Some k)); [reflexivity|].
  apply IH. intros o' Hin. apply Hext. right. exact Hin.
Qed.

Lemma search_Some s k elems o :
  search s k elems = Some o -> o ∈ elems /\ key_of s o = Some k.
Proof.
  induction elems as [|o' rest IH]; [discriminate|].
  cbn [search]. destruct (decide (key_of s o' = Some k)) as [Hk |].
  - intros H. injection H as <-. split; [left | exact Hk].
  - intros H. destruct (IH H) as [Hin Hk]. split; [right; exact Hin | exact Hk].
Qed.

Lemma search_None s k elems :
  search s k elems = None <-> Some k ∉ key_of s <$> elems.
Proof.
  induction elems as [|o rest IH]; cbn [search fmap list_fmap].
  - split; [intros _ H; inversion H | reflexivity].
  - rewrite not_elem_of_cons. destruct (decide (key_of s o = Some k)) as [Hk | Hk].
    + split; [discriminate | intros [H _]; congruence].
    + rewrite IH. split; [intros H; split; [congruence | exact H] | intros [_ H]; exact H].
Qed.

Lemma search_app s k l1 l2 :
  search s k (l1 ++ l2) =
  match search s k l1 with
  | Some o => Some o
  | None => search s k l2
  end.
Proof.
  induction l1 as [|o rest IH]; [reflexivity|].
  cbn [app search]. destruct (decide (key_of s o = Some k)); [reflexivity | exact IH].
Qed.

(** With distinct keys, the element found under a key is the only one
    with that key. *)
Lemma search_unique s k o o' :
  NoDup (key_of s <$> current s) ->
  search s k (current s) = Some o ->
  o' ∈ current s -> key_of s o' = Some k -> o' = o.
Proof.
  intros Hnd Hfound Hin' Hk'.
  destruct (search_Some _ _ _ _ Hfound) as [Hin Hk].
  apply list_elem_of_lookup in Hin as [n Hn], Hin' as [n' Hn'].
  assert (n' = n).
  { eapply NoDup_lookup; [exact Hnd | |].
    - rewrite list_lookup_fmap, Hn'. cbn. rewrite Hk'. reflexivity.
    - rewrite list_lookup_fmap, Hn. cbn. rewrite Hk. reflexivity. }
  subst n'. congruence.
Qed.

Lemma merge_into_key render now a : stored_key (merge_into render now a) = stored_key a.
Proof. reflexivity. Qed.

Lemma merged_current o render now s : current (merged o render now s) = current s.
Proof. unfold current, merged. rewrite republish_elements. reflexivity. Qed.

Lemma merged_key_of o render now s o' :
  key_of (merged o render now s) o' = key_of s o'.
Proof.
  unfold key_of, merged. cbn. destruct (decide (o = o')) as [<- | Hne].
  - rewrite lookup_alter_eq. destruct (objects s !! o); reflexivity.
  - rewrite lookup_alter_ne by exact Hne. reflexivity.
Qed.

Lemma merged_search o render now s k :
  search (merged o render now s) k (current (merged o render now s))
  = search s k (current s).
Proof.
  rewrite merged_current. apply search_ext. intros o' _. apply merged_key_of.
Qed.

Lemma merged_good o render now s : good s -> good (merged o render now s).
Proof.
  intros [Hnat Hkeys]. split.
  - unfold natives. rewrite merged_current.
    eapply Forall_impl; [exact Hnat|]. intros o' (a & Ha & Hkind).
    unfold merged. cbn. destruct (decide (o = o')) as [<- | Hne].
    + rewrite lookup_alter_eq, Ha. eexists. split; [reflexivity | exact Hkind].
    + rewrite lookup_alter_ne by exact Hne. eauto.
  - unfold keys. rewrite merged_current.
    erewrite list_fmap_ext; [exact Hkeys|]. intros n o' _. apply merged_key_of.
Qed.

Lemma merged_renders o render now m s k :
  good s -> search s (getKey m) (current s) = Some o ->
  renders_of (merged o render now s) k =
  if decide (getKey m = k) then renders_of s k ++ [render] else renders_of s k.
Proof.
  intros [Hnat Hkeys] Hfound. unfold renders_of. rewrite merged_search.
  destruct (decide (getKey m = k)) as [<- | Hne].
  - rewrite Hfound. destruct (search_Some _ _ _ _ Hfound) as [Hin _].
    unfold natives in Hnat. rewrite Forall_forall in Hnat.
    destruct (Hnat o Hin) as (a & Ha & _).
    unfold merged. cbn. rewrite lookup_alter_eq, Ha. reflexivity.
  - destruct (search s k (current s)) as [o' |] eqn:Hk; [|reflexivity].
    assert (Hoo : o <> o').
    { intros <-. apply search_Some in Hfound as [_ H1], Hk as [_ H2]. congruence. }
    unfold merged. cbn. rewrite lookup_alter_ne by exact Hoo. reflexivity.
Qed.

Lemma created_objects_old fiber render m now s o :
  is_Some (objects s !! o) ->
  objects (created fiber render m now s) !! o = objects s !! o.
Proof.
  intros Ho. unfold created. cbn. rewrite lookup_insert_ne; [reflexivity|].
  intros <-. apply elem_of_dom in Ho. exact (is_fresh _ Ho).
Qed.

Lemma created_objects_new fiber render m now s :
  objects (created fiber render m now s) !! fresh (dom (objects s))
  = Some (new_element fiber render m now (idCounter s)).
Proof. unfold created. cbn. apply lookup_insert_eq. Qed.

Lemma created_current fiber render m now s :
  current (created fiber render m now s) = current s ++ [fresh (dom (objects s))].
Proof. apply created_new_array. Qed.

Lemma created_key_of_old fiber render m now s o :
  natives s (current s) -> o ∈ current s ->
  key_of (created fiber render m now s) o = key_of s o.
Proof.
  intros Hnat Hin. unfold natives in Hnat. rewrite Forall_forall in Hnat.
  destruct (Hnat o Hin) as (a & Ha & _).
  unfold key_of. rewrite created_objects_old by (rewrite Ha; eauto). reflexivity.
Qed.

Lemma created_search fiber render m now s k :
  natives s (current s) ->
  search (created fiber render m now s) k (current (created fiber render m now s)) =
  match search s k (current s) with
  | Some o => Some o
  | None => if decide (getKey m = k) then Some (fresh (dom (objects s))) else None
  end.
Proof.
  intros Hnat. rewrite created_current, search_app.
  rewrite (search_ext s) by (intros o Hin; apply created_key_of_old; assumption).
  destruct (search s k (current s)); [reflexivity|].
  cbn [search]. unfold key_of. rewrite created_objects_new. cbn.
  destruct (decide (getKey m = k)) as [<- | Hne].
  - rewrite decide_True by reflexivity. reflexivity.
  - rewrite decide_False by (unfold stored_key; cbn; congruence). reflexivity.
Qed.

Lemma created_good fiber render m now s :
  good s -> search s (getKey m) (current s) = None ->
  good (created fiber render m now s).
Proof.
  intros [Hnat Hkeys] Hnone. split.
  - unfold natives. rewrite created_current. apply Forall_app. split.
    + unfold natives in Hnat. rewrite Forall_forall in Hnat |- *. intros o Hin.
      destruct (Hnat o Hin) as (a & Ha & Hkind). exists a.
      rewrite created_objects_old by (rewrite Ha; eauto). auto.
    + constructor; [|constructor]. eexists. split; [apply created_objects_new | reflexivity].
  - unfold keys. rewrite created_current, fmap_app.
    erewrite (list_fmap_ext _ (key_of s) (current s))
      by (intros n o Hn; apply created_key_of_old;
          [exact Hnat | eapply list_elem_of_lookup_2; exact Hn]).
    apply NoDup_app. split; [exact Hkeys|]. split; [|apply NoDup_singleton].
    intros ko Hin Hin'. cbn in Hin'. apply list_elem_of_singleton in Hin'. subst ko.
    unfold key_of in Hin at 1. rewrite created_objects_new in Hin. cbn in Hin.
    apply search_None in Hnone. apply Hnone. exact Hin.
Qed.

Lemma created_renders fiber render m now s k :
  good s -> search s (getKey m) (current s) = None ->
  renders_of (created fiber render m now s) k =
  if decide (getKey m = k) then renders_of s k ++ [render] else renders_of s k.
Proof.
  intros [Hnat Hkeys] Hnone. unfold renders_of. rewrite created_search by exact Hnat.
  destruct (search s k (current s)) as [o |] eqn:Hk.
  - destruct (search_Some _ _ _ _ Hk) as [Hin _].
    unfold natives in Hnat. rewrite Forall_forall in Hnat.
    destruct (Hnat o Hin) as (a & Ha & _).
    rewrite created_objects_old by (rewrite Ha; eauto).
    destruct (decide (getKey m = k)) as [<- | _]; [congruence | reflexivity].
  - destruct (decide (getKey m = k)); [|reflexivity].
    rewrite created_objects_new. reflexivity.
Qed.

Lemma on_event_dropped e s : accepted e = None -> on_event e s = Normal tt s.
Proof.
  unfold accepted, on_event, updateOutlines.
  destruct (ev_measurement e) as [m |]; [|reflexivity].
  destruct (truthy (pageX m)); [discriminate | reflexivity].
Qed.

Lemma on_event_accepted e m s :
  accepted e = Some m -> good s ->
  on_event e s =
  Normal tt
    match search s (getKey m) (current s) with
    | Some o => merged o (ev_render e) (ev_now e) s
    | None => created (ev_fiber e) (ev_render e) m (ev_now e) s
    end.
Proof.
  unfold accepted, on_event, updateOutlines. intros Hacc [Hnat _].
  destruct (ev_measurement e) as [m' |]; [|discriminate].
  destruct (truthy (pageX m')); [|discriminate]. injection Hacc as ->.
  cbn [negb]. unfold try_catch. rewrite update_or_create_spec.
  fold (current s). rewrite (find_outline_natives _ _ _ Hnat).
  destruct (search s (getKey m) (current s)); reflexivity.
Qed.

Lemma on_event_good e s :
  good s ->
  exists s',
    on_event e s = Normal tt s'
    /\ good s'
    /\ (forall k, renders_of s' k = renders_of s k ++ option_list (render_for k e))
    /\ (forall k, present s k \/ is_Some (render_for k e) -> present s' k).
Proof.
  intros Hgood. unfold render_for, present. destruct (accepted e) as [m |] eqn:Hacc.
  - rewrite (on_event_accepted e m s Hacc Hgood).
    destruct (search s (getKey m) (current s)) as [o |] eqn:Hfound.
    + eexists. split; [reflexivity|]. split; [apply merged_good, Hgood|]. split.
      * intros k. rewrite (merged_renders o _ _ m s k Hgood Hfound).
        destruct (decide (getKey m = k)); cbn; [reflexivity | rewrite app_nil_r; reflexivity].
      * intros k Hk. rewrite merged_search.
        destruct Hk as [Hk | Hk]; [exact Hk|].
        destruct (decide (getKey m = k)) as [<- | _]; [|destruct Hk; discriminate].
        rewrite Hfound. eauto.
    + eexists. split; [reflexivity|]. split; [apply created_good; assumption|]. split.
      * intros k. rewrite (created_renders _ _ m _ s k Hgood Hfound).
        destruct (decide (getKey m = k)); cbn; [reflexivity | rewrite app_nil_r; reflexivity].
      * intros k Hk. rewrite created_search by apply Hgood.
        destruct (search s k (current s)); [eauto|].
        destruct Hk as [[? Hk] | Hk]; [discriminate|].
        destruct (decide (getKey m = k)); [eauto | destruct Hk; discriminate].
  - rewrite (on_event_dropped e s Hacc). exists s. split; [reflexivity|].
    split; [exact Hgood|]. split.
    + intros k. cbn. rewrite app_nil_r. reflexivity.
    + intros k [Hk | [? Hk]]; [exact Hk | discriminate].
Qed.

Lemma aggregate_good evs : forall s,
  good s ->
  exists s',
    aggregate evs s = Normal tt s'
    /\ good s'
    /\ (forall k, renders_of s' k = renders_of s k ++ omap (render_for k) evs)
    /\ (forall k, present s k \/ (exists e, e ∈ evs /\ is_Some (render_for k e)) ->
                  present s' k).
Proof.
  induction evs as [|e rest IH]; intros s Hgood.
  - exists s. split; [reflexivity|]. split; [exact Hgood|]. split.
    + intros k. cbn. rewrite app_nil_r. reflexivity.
    + intros k [Hk | (e & Hin & _)]; [exact Hk | inversion Hin].
  - destruct (on_event_good e s Hgood) as (s1 & Hrun1 & Hgood1 & Hren1 & Hpres1).
    destruct (IH s1 Hgood1) as (s' & Hrun & Hgood' & Hren & Hpres).
    exists s'. split; [|split; [exact Hgood'|split]].
    + cbn [aggregate]. unfold bind. rewrite Hrun1. exact Hrun.
    + intros k. rewrite Hren, Hren1, <- app_assoc. f_equal.
      cbn [omap list_omap]. destruct (render_for k e); reflexivity.
    + intros k Hk. apply Hpres. destruct Hk as [Hk | (e' & Hin & He')].
      * left. apply Hpres1. left. exact Hk.
      * apply elem_of_cons in Hin as [-> | Hin].
        -- left. apply Hpres1. right. exact He'.
        -- right. exists e'. split; assumption.
Qed.

(** ** What the specification says about the aggregator *)

(** C9.  A render event whose measurement resolved to [null], or to a
    geometry whose [pageX] is falsy (0 and [NaN] are), is dropped:
    [updateOutlines] returns and leaves [ReactScanInternals], the arrays and
    the outline objects exactly as they were. *)
Theorem falsy_pageX_aborts fiber render measurement now s :
  (measurement = None
   \/ exists m, measurement = Some m /\ truthy (pageX m) = false) ->
  updateOutlines fiber render measurement now s = Normal tt s.
Proof.
  intros [-> | (m & -> & Hfalsy)]; [reflexivity|].
  unfold updateOutlines. rewrite Hfalsy. reflexivity.
Qed.

(** C7.  [assertNative] throws exactly when the kind is not ['native'] and
    returns the measurement otherwise.  Whatever the [try] block of
    [updateOutlines] throws is logged and goes no further: [updateOutlines]
    returns for every input, in the state the block had reached, with the
    exception added to the console.  A stored outline of another kind, met
    before any match, makes the search throw; the collection is then left as
    it was.  A sequence of render events is processed to its end. *)
Theorem native_invariant_is_contained :
  (forall (m : Measurement) (s : Internals),
     (kind m <> "native" -> assertNative m s = Thrown (Error "native invariant") s)
     /\ (kind m = "native" -> assertNative m s = Normal m s))
  /\ (forall fiber render measurement now s,
        exists s', updateOutlines fiber render measurement now s = Normal tt s')
  /\ (forall fiber render m now s e s1,
        truthy (pageX m) = true ->
        update_or_create fiber render m now s = Thrown e s1 ->
        updateOutlines fiber render (Some m) now s = Normal tt (with_console (cons e) s1))
  /\ (forall fiber render m now s before o after a,
        truthy (pageX m) = true ->
        elements_of s (activeOutlines s) = before ++ o :: after ->
        natives s before -> search s (getKey m) before = None ->
        objects s !! o = Some a -> is_native a = false ->
        updateOutlines fiber render (Some m) now s
        = Normal tt (with_console (cons (Error "native invariant")) s))
  /\ (forall evs s, exists s', aggregate evs s = Normal tt s')
  /\ (forall e rest s,
        aggregate (e :: rest) s = aggregate rest (final_state (on_event e s))).
Proof.
  split; [|split; [|split; [|split; [|split]]]].
  - intros m s. rewrite assertNative_spec.
    destruct (String.eqb_spec (kind m) "native"); split; congruence.
  - apply updateOutlines_returns.
  - intros fiber render m now s e s1 Htruthy Hthrow.
    unfold updateOutlines, try_catch. rewrite Htruthy. cbn [negb].
    rewrite Hthrow. reflexivity.
  - intros fiber render m now s before o after a Htruthy Helems Hnat Hnone Ho Hkind.
    unfold updateOutlines, try_catch. rewrite Htruthy. cbn [negb].
    rewrite update_or_create_spec, Helems.
    rewrite (find_outline_throws _ before o after a s Hnat Hnone Ho Hkind). reflexivity.
  - apply aggregate_returns.
  - intros e rest s. cbn [aggregate]. unfold bind, on_event.
    destruct (updateOutlines_returns (ev_fiber e) (ev_render e) (ev_measurement e) (ev_now e) s)
      as (s1 & ->).
    reflexivity.
Qed.

(** C5, as the code has it.  Every merge and every creation leaves
    [activeOutlines] holding a new array, different from every array there
    was before.  The change itself is made in place first: a new outline is
    pushed onto the array that was current, a merge updates the outline
    object that every array holding it shares; so the reference that was
    current shows the same contents as the new one.  Only the sequence of
    elements of the other arrays is left as it was. *)
Theorem republished_after_mutation fiber render m now s s' :
  update_or_create fiber render m now s = Normal tt s' ->
  (activeOutlines s' ∉ dom (arrays s))
  /\ activeOutlines s' <> activeOutlines s
  /\ contents s' (activeOutlines s') = contents s' (activeOutlines s)
  /\ (forall r, r <> activeOutlines s -> r ∈ dom (arrays s) ->
        elements_of s' r = elements_of s r)
  /\ ((exists o,
         search s (getKey m) (elements_of s (activeOutlines s)) = Some o
         /\ elements_of s' (activeOutlines s) = elements_of s (activeOutlines s)
         /\ objects s' = alter (merge_into render now) o (objects s))
      \/ (elements_of s' (activeOutlines s)
           = elements_of s (activeOutlines s) ++ [fresh (dom (objects s))]
          /\ objects s'
             = <[fresh (dom (objects s)) := new_element fiber render m now (idCounter s)]>
                 (objects s))).
Proof.
  rewrite update_or_create_spec. intros Hrun.
  destruct (find_outline _ _ s) as [[o |] s1 | e s1] eqn:Hfind; try discriminate.
  - injection Hrun as <-.
    pose proof (elements_in_dom s _ (find_outline_found _ _ _ _ _ Hfind)) as Hdom.
    pose proof (republish_fresh (with_objects (alter (merge_into render now) o) s)) as Hf.
    fold (merged o render now s) in Hf. cbn [arrays with_objects] in Hf.
    split; [exact Hf|].
    split; [intros Heq; apply Hf; rewrite Heq; exact Hdom|].
    split; [|split; [|left; exists o; split; [|split]]].
    + unfold contents, merged. rewrite republish_elements, republish_other by exact Hdom.
      reflexivity.
    + intros r _ Hr. apply merged_elements, Hr.
    + eapply find_outline_search, Hfind.
    + apply merged_elements, Hdom.
    + reflexivity.
  - injection Hrun as <-.
    destruct (created_fresh fiber render m now s) as [Hf Hne].
    split; [exact Hf|]. split; [exact Hne|].
    split; [|split; [|right; split]].
    + unfold contents. rewrite created_new_array, created_old_array. reflexivity.
    + intros r Hr Hd. apply created_other_array; assumption.
    + apply created_old_array.
    + reflexivity.
Qed.

Lemma getKey_tuple (m1 m2 : MeasurementValue) :
  pageX m1 = pageX m2 -> pageY m1 = pageY m2 ->
  width m1 = width m2 -> height m1 = height m2 ->
  getKey m1 = getKey m2.
Proof. intros H1 H2 H3 H4. unfold getKey. rewrite H1, H2, H3, H4. reflexivity. Qed.

(** C1, as the code has it.  Starting from a collection of native outlines
    with distinct keys (the empty one is), the collection has at most one
    element per key after every render event.  The events are taken in the
    order in which the aggregator receives them with their measurement, that
    is the order in which [updateOutlines] goes on after its [await]; it is
    the order in which the measurements were resolved, not always that of
    the calls of [onRender].  For two events of such a sequence whose
    geometries agree on [pageX], [pageY], [width] and [height] and have a
    truthy [pageX], whatever their fibers, the collection ends with exactly
    one element under their key, and the render history of that element
    holds the render of the first event somewhere before the render of the
    second. *)
Theorem geometry_key_collapsing evs s :
  good s ->
  (forall pre post,
     evs = pre ++ post ->
     exists s1,
       aggregate pre s = Normal tt s1
       /\ natives s1 (current s1)
       /\ NoDup (key_of s1 <$> current s1))
  /\ (forall pre e1 mid e2 post m1 m2,
        evs = pre ++ e1 :: mid ++ e2 :: post ->
        ev_measurement e1 = Some m1 -> ev_measurement e2 = Some m2 ->
        pageX m1 = pageX m2 -> pageY m1 = pageY m2 ->
        width m1 = width m2 -> height m1 = height m2 ->
        truthy (pageX m1) = true ->
        exists s' o a,
          aggregate evs s = Normal tt s'
          /\ o ∈ current s'
          /\ objects s' !! o = Some a
          /\ stored_key a = getKey m1
          /\ (forall o', o' ∈ current s' -> key_of s' o' = Some (getKey m1) -> o' = o)
          /\ exists l1 l2 l3,
              renders (outline a) = l1 ++ ev_render e1 :: l2 ++ ev_render e2 :: l3).
Proof.
  intros Hgood. split.
  - intros pre post _.
    destruct (aggregate_good pre s Hgood) as (s1 & Hrun & [Hnat Hkeys] & _).
    exists s1. auto.
  - intros pre e1 mid e2 post m1 m2 Hevs He1 He2 HX HY HW HH Htruthy.
    pose proof (getKey_tuple m1 m2 HX HY HW HH) as Hkey.
    destruct (aggregate_good evs s Hgood) as (s' & Hrun & [Hnat Hkeys] & Hren & Hpres).
    assert (Hr1 : render_for (getKey m1) e1 = Some (ev_render e1)).
    { unfold render_for, accepted. rewrite He1, Htruthy.
      rewrite decide_True by reflexivity. reflexivity. }
    assert (Hr2 : render_for (getKey m1) e2 = Some (ev_render e2)).
    { unfold render_for, accepted. rewrite He2, <- HX, Htruthy.
      rewrite decide_True by (symmetry; exact Hkey). reflexivity. }
    destruct (Hpres (getKey m1)) as [o Hfound].
    { right. exists e1. split; [|rewrite Hr1; eauto].
      rewrite Hevs. apply elem_of_app. right. left. }
    destruct (search_Some _ _ _ _ Hfound) as [Hin Hk].
    unfold natives in Hnat. rewrite Forall_forall in Hnat.
    destruct (Hnat o Hin) as (a & Ha & _).
    exists s', o, a. split; [exact Hrun|]. split; [exact Hin|]. split; [exact Ha|].
    split; [unfold key_of in Hk; rewrite Ha in Hk; cbn in Hk; congruence|].
    split; [intros o' Hin' Hk'; eapply search_unique; eassumption|].
    specialize (Hren (getKey m1)). unfold renders_of at 1 in Hren.
    rewrite Hfound, Ha in Hren. rewrite Hren, Hevs.
    rewrite omap_app. cbn [omap list_omap]. rewrite Hr1, omap_app.
    cbn [omap list_omap]. rewrite Hr2.
    exists (renders_of s (getKey m1) ++ omap (render_for (getKey m1)) pre),
           (omap (render_for (getKey m1)) mid),
           (omap (render_for (getKey m1)) post).
    rewrite <- app_assoc. reflexivity.
Qed.

(** ** More about the scheduler *)

(** A property of the states at which [processQueue] is entered or left
    holds after every input, when each of the four things the module does to
    such a state keeps it: queueing a request, answering the request at the
    head of the queue on the spot, handing it to the host, and taking an
    answer of the host. *)
Lemma drain_invariant (P : Scheduler -> Prop) :
  (forall r rest v s,
     wf s -> P s -> queue s = r :: rest -> pendingCount s < MAX_PENDING ->
     P (answered r v (with_clockReads S (shifted r rest s)))) ->
  (forall r rest call s,
     wf s -> P s -> queue s = r :: rest -> pendingCount s < MAX_PENDING ->
     P (asked call r (with_clockReads S (shifted r rest s)))) ->
  forall q s, wf s -> P s -> queue s = q ->
    exists s', drain q s = Normal tt s' /\ P s'.
Proof.
  intros Hans Hask. induction q as [|r rest IH]; intros s Hwf HP Hq.
  - exists s. auto.
  - rewrite drain_cons. destruct (MAX_PENDING <=? pendingCount s) eqn:Hfull.
    { exists s. auto. }
    apply Z.leb_gt in Hfull. rewrite executeMeasurement_spec.
    destruct (fresh_entry _ _) as [c |].
    + apply IH; [eauto using wf_answered | eauto | reflexivity].
    + destruct (first_capability (fiber r)) as [call |] eqn:Hcap.
      * eexists. split; [reflexivity | eauto].
      * apply IH; [eauto using wf_answered | eauto | reflexivity].
Qed.

Lemma step_invariant (P : Scheduler -> Prop) :
  (forall f cb s, wf s -> P s -> P (pushed f cb s)) ->
  (forall r rest v s,
     wf s -> P s -> queue s = r :: rest -> pendingCount s < MAX_PENDING ->
     P (answered r v (with_clockReads S (shifted r rest s)))) ->
  (forall r rest call s,
     wf s -> P s -> queue s = r :: rest -> pendingCount s < MAX_PENDING ->
     P (asked call r (with_clockReads S (shifted r rest s)))) ->
  (forall k o i alt coords s,
     wf s -> P s -> bridge s !! k = Some o ->
     P (answered (closure o) (Some coords) (stored i alt coords (replied k o s)))) ->
  forall i s, wf s -> P s -> P (step_state s i).
Proof.
  intros Hpush Hans Hask Hreply i s Hwf HP. unfold step_state.
  destruct i as [f cb | k x y w h px py]; cbn [step].
  - unfold bind. rewrite measureFiber_spec.
    destruct (drain_invariant P Hans Hask _ (pushed f cb s)
                (wf_pushed f cb s Hwf) (Hpush f cb s Hwf HP) eq_refl) as (s' & Hrun & HP').
    unfold processQueue. rewrite Hrun. exact HP'.
  - destruct (bridge s !! k) as [o |] eqn:Hk.
    + pose proof (wf_fibers s Hwf) as Hfib. rewrite Forall_forall in Hfib.
      specialize (Hfib o (list_elem_of_lookup_2 _ _ _ Hk)).
      destruct (fiber (closure o)) as [|j sn c sib alt] eqn:Hf; [congruence|].
      rewrite (reply_spec k o j sn c sib alt) by assumption. cbn zeta.
      destruct (drain_invariant P Hans Hask _ _
                  (wf_reply k o j alt (reported (host_call o) x y w h px py) s Hwf Hk)
                  (Hreply k o j alt (reported (host_call o) x y w h px py) s Hwf HP Hk)
                  eq_refl) as (s' & Hrun & HP').
      unfold processQueue. rewrite Hrun. exact HP'.
    + rewrite reply_none by assumption. exact HP.
Qed.

Lemma run_invariant (P : Scheduler -> Prop) :
  (forall f cb s, wf s -> P s -> P (pushed f cb s)) ->
  (forall r rest v s,
     wf s -> P s -> queue s = r :: rest -> pendingCount s < MAX_PENDING ->
     P (answered r v (with_clockReads S (shifted r rest s)))) ->
  (forall r rest call s,
     wf s -> P s -> queue s = r :: rest -> pendingCount s < MAX_PENDING ->
     P (asked call r (with_clockReads S (shifted r rest s)))) ->
  (forall k o i alt coords s,
     wf s -> P s -> bridge s !! k = Some o ->
     P (answered (closure o) (Some coords) (stored i alt coords (replied k o s)))) ->
  forall inputs s, wf s -> P s -> P (run inputs s).
Proof.
  intros Hpush Hans Hask Hreply.
  induction inputs as [|i inputs IH]; intros s Hwf HP; [exact HP|].
  apply IH; [apply step_state_wf, Hwf|].
  apply step_invariant; assumption.
Qed.


Lemma dequeued_callback_events cb v t :
  dequeued (callback_events cb v ++ t) = dequeued t.
Proof. destruct cb; reflexivity. Qed.

Lemma resolved_callback_events cb v t :
  resolved (callback_events cb v ++ t) = resolved t.
Proof. destruct cb; reflexivity. Qed.

Lemma Resolved_in_callback_events cb v t p w :
  Resolved p w ∈ callback_events cb v ++ t <-> Resolved p w ∈ t.
Proof.
  destruct cb; cbn; [|reflexivity]. rewrite elem_of_cons.
  split; [intros [H | H]; [discriminate | exact H] | auto].
Qed.

Lemma resolved_elem p t : p ∈ resolved t <-> exists v, Resolved p v ∈ t.
Proof.
  induction t as [|e t IH]; cbn.
  - split; [intros H; inversion H | intros [v H]; inversion H].
  - destruct e as [q | call q | q | cb w | q w]; cbn;
      try (rewrite IH; split; intros [v H]; exists v;
           [right; exact H | apply elem_of_cons in H as [H | H]; [discriminate | exact H]]).
    rewrite elem_of_app, IH, list_elem_of_singleton. split.
    + intros [[v H] | ->]; [exists v; right; exact H | exists w; left].
    + intros [v H]. apply elem_of_cons in H as [H | H]; [right; congruence | left; eauto].
Qed.

Lemma in_call_order_run inputs : forall s,
  wf s -> in_call_order s -> in_call_order (run inputs s).
Proof.
  apply run_invariant; unfold in_call_order.
  - intros f cb s _ H. cbn. rewrite fmap_app, app_assoc, H.
    exact (eq_sym (seq_S (nextPromise s) 0)).
  - intros r rest v s _ H Hq _. cbn. rewrite Hq in H. cbn in H.
    rewrite dequeued_callback_events. cbn. rewrite <- app_assoc. exact H.
  - intros r rest call s _ H Hq _. cbn. rewrite Hq in H. cbn in H.
    rewrite <- app_assoc. exact H.
  - intros k o i alt coords s _ H _. destruct alt; cbn;
      rewrite dequeued_callback_events; exact H.
Qed.

Lemma step_nextPromise i s :
  wf s ->
  nextPromise (step_state s i) = (nextPromise s + length (List.filter is_call [i]))%nat.
Proof.
  intros Hwf. unfold step_state. destruct i as [f cb | k x y w h px py]; cbn [step].
  - destruct (measureFiber_wf f cb s Hwf) as (s' & Hrun & _ & _ & Hcont).
    unfold bind. rewrite Hrun. cbn. rewrite (cont_next _ _ Hcont). cbn. lia.
  - cbn. destruct (bridge s !! k) as [o |] eqn:Hk.
    + pose proof (wf_fibers s Hwf) as Hfib. rewrite Forall_forall in Hfib.
      specialize (Hfib o (list_elem_of_lookup_2 _ _ _ Hk)).
      destruct (fiber (closure o)) as [|j sn c sib alt] eqn:Hf; [congruence|].
      destruct (reply_settles k o j sn c sib alt x y w h px py s Hwf Hk Hf)
        as (s' & Hrun & _ & Hcont & _).
      rewrite Hrun. cbn. rewrite (cont_next _ _ Hcont). destruct alt; cbn; lia.
    + rewrite reply_none by assumption. cbn. lia.
Qed.

Lemma run_nextPromise inputs : forall s,
  wf s ->
  nextPromise (run inputs s) = (nextPromise s + length (List.filter is_call inputs))%nat.
Proof.
  induction inputs as [|i inputs IH]; intros s Hwf; [cbn; lia|].
  cbn [run fold_left]. fold (run inputs (step_state s i)).
  rewrite IH by (apply step_state_wf, Hwf). rewrite step_nextPromise by exact Hwf.
  cbn. destruct (is_call i); cbn; lia.
Qed.

(** X1.  Requests are dequeued in the order of the calls.  Promises are
    numbered by [measureFiber] in the order it is called; after any inputs the
    promises of the requests dequeued so far, in the order they were dequeued,
    followed by those still queued, front first, are the numbers 0, 1, 2, ...
    up to the number of calls made. *)
Theorem dequeued_in_call_order (inputs : list Input) :
  nextPromise (run inputs init) = length (List.filter is_call inputs)
  /\ dequeued (trace (run inputs init)) ++ (resolve <$> queue (run inputs init))
     = seq 0 (length (List.filter is_call inputs)).
Proof.
  pose proof (run_nextPromise inputs init wf_init) as Hn. cbn in Hn.
  split; [exact Hn|]. rewrite <- Hn.
  apply in_call_order_run; [apply wf_init | reflexivity].
Qed.

Lemma resolved_once_answered p cbs v ps t extra :
  ps !! p = None ->
  (forall q w, Resolved q w ∈ extra ++ t <-> Resolved q w ∈ t) ->
  resolved (extra ++ t) = resolved t ->
  NoDup (resolved t)
  /\ (forall q w, Resolved q w ∈ t <-> ps !! q = Some (Fulfilled w)) ->
  NoDup (resolved (Resolved p v :: callback_events cbs v ++ extra ++ t))
  /\ (forall q w,
        Resolved q w ∈ Resolved p v :: callback_events cbs v ++ extra ++ t
        <-> fulfil p v ps !! q = Some (Fulfilled w)).
Proof.
  intros Hnone Hmem Hres [Hnd Hiff]. split.
  - cbn. rewrite resolved_callback_events, Hres. apply NoDup_app.
    split; [exact Hnd|]. split; [|apply NoDup_singleton].
    intros q Hq Hq'. apply list_elem_of_singleton in Hq'. subst q.
    apply resolved_elem in Hq as [w Hw]. apply Hiff in Hw. congruence.
  - intros q w. rewrite elem_of_cons, Resolved_in_callback_events, Hmem, Hiff.
    destruct (decide (q = p)) as [-> | Hne].
    + rewrite fulfil_new by exact Hnone. rewrite Hnone.
      split; [intros [H | H]; congruence | intros H; left; congruence].
    + rewrite fulfil_other by exact Hne.
      split; [intros [H | H]; [congruence | exact H] | auto].
Qed.

Lemma resolved_once_run inputs : forall s,
  wf s -> resolved_once s -> resolved_once (run inputs s).
Proof.
  apply run_invariant; unfold resolved_once.
  - intros f cb s _ H. exact H.
  - intros r rest v s Hwf H Hq _. cbn.
    apply (resolved_once_answered (resolve r) (callback r) v (promises s) (trace s)
             [Shifted (resolve r)]).
    + eapply head_unsettled; eassumption.
    + intros q w. cbn. rewrite elem_of_cons.
      split; [intros [? | ?]; [discriminate | assumption] | auto].
    + reflexivity.
    + exact H.
  - intros r rest call s _ [Hnd Hiff] _ _. cbn. split; [exact Hnd|].
    intros q w. rewrite <- Hiff, !elem_of_cons.
    split; [intros [? | [? | ?]]; [discriminate | discriminate | assumption] | auto].
  - intros k o i alt coords s Hwf H Hk.
    assert (Hnone : promises s !! resolve (closure o) = None).
    { pose proof (wf_unsettled s Hwf) as Hun. rewrite Forall_forall in Hun.
      apply Hun. unfold waiting. apply elem_of_app. right.
      apply list_elem_of_fmap_2. eapply list_elem_of_lookup_2. exact Hk. }
    pose proof (resolved_once_answered (resolve (closure o)) (callback (closure o))
                  (Some coords) (promises s) (trace s)
                  [HostReplied (resolve (closure o))] Hnone) as Hstep.
    destruct alt; cbn; apply Hstep; try reflexivity; try exact H.
    all: intros q w; cbn; rewrite elem_of_cons.
    all: split; [intros [? | ?]; [discriminate | assumption] | auto].
Qed.

(** X2.  After any inputs, [resolve] has been called at most once for every
    promise, and it has been called with a value exactly for the promises
    that hold that value: no request is answered twice, and none is settled
    without its [resolve] being called. *)
Theorem resolved_at_most_once (inputs : list Input) :
  NoDup (resolved (trace (run inputs init)))
  /\ forall p v,
       Resolved p v ∈ trace (run inputs init)
       <-> promises (run inputs init) !! p = Some (Fulfilled v).
Proof.
  apply resolved_once_run; [apply wf_init|]. split; [apply NoDup_nil_2|].
  intros p v. cbn. rewrite lookup_empty.
  split; [intros H; inversion H | discriminate].
Qed.


Lemma fulfil_settles p v ps : is_Some (fulfil p v ps !! p).
Proof.
  unfold fulfil. destruct (ps !! p) eqn:Hp.
  - rewrite Hp. eauto.
  - rewrite lookup_insert_eq. eauto.
Qed.

Lemma accounted_run inputs : forall s,
  wf s -> accounted s -> accounted (run inputs s).
Proof.
  apply run_invariant; unfold accounted.
  - intros f cb s _ H p Hp. cbn in Hp.
    destruct (decide (p = nextPromise s)) as [-> | Hne].
    + right. unfold waiting. cbn. rewrite !fmap_app. cbn.
      rewrite !elem_of_app. left. right. left.
    + destruct (H p ltac:(lia)) as [Hs | Hw]; [left; exact Hs | right].
      unfold waiting in Hw |- *. cbn. rewrite fmap_app, elem_of_app in Hw.
      rewrite !fmap_app, !elem_of_app. tauto.
  - intros r rest v s _ H Hq _ p Hp. cbn in Hp.
    destruct (decide (p = resolve r)) as [-> | Hne].
    + left. cbn. apply fulfil_settles.
    + destruct (H p Hp) as [[st Hs] | Hw].
      * left. cbn. rewrite (fulfil_keeps _ _ _ _ _ Hs). eauto.
      * right. unfold waiting in Hw |- *. rewrite Hq in Hw. cbn in Hw |- *.
        apply elem_of_cons in Hw as [Hw | Hw]; [congruence | exact Hw].
  - intros r rest call s _ H Hq _ p Hp. cbn in Hp.
    destruct (H p Hp) as [Hs | Hw]; [left; exact Hs | right].
    rewrite (waiting_asked call r rest s Hq). exact Hw.
  - intros k o i alt coords s _ H Hk p Hp.
    assert (Hnext : nextPromise (answered (closure o) (Some coords)
                      (stored i alt coords (replied k o s))) = nextPromise s)
      by (destruct alt; reflexivity).
    rewrite Hnext in Hp.
    assert (Hprom : promises (answered (closure o) (Some coords)
                      (stored i alt coords (replied k o s)))
                    = fulfil (resolve (closure o)) (Some coords) (promises s))
      by (destruct alt; reflexivity).
    assert (Hwait : waiting s ≡ₚ closure o :: waiting
              (answered (closure o) (Some coords) (stored i alt coords (replied k o s)))).
    { unfold waiting. destruct alt; cbn.
      all: rewrite list_fmap_delete, Permutation_middle; apply Permutation_app_head.
      all: apply (delete_Permutation (closure <$> bridge s) k (closure o)).
      all: rewrite list_lookup_fmap, Hk; reflexivity. }
    rewrite Hprom. destruct (decide (p = resolve (closure o))) as [-> | Hne].
    + left. apply fulfil_settles.
    + destruct (H p Hp) as [[st Hs] | Hw].
      * left. rewrite (fulfil_keeps _ _ _ _ _ Hs). eauto.
      * right. rewrite Hwait in Hw. cbn in Hw.
        apply elem_of_cons in Hw as [Hw | Hw]; [congruence | exact Hw].
Qed.

(** What a call of [measureFiber] keeps, whatever it finds. *)
Lemma call_invariant (P : Scheduler -> Prop) :
  (forall f cb s, wf s -> P s -> P (pushed f cb s)) ->
  (forall r rest v s,
     wf s -> P s -> queue s = r :: rest -> pendingCount s < MAX_PENDING ->
     P (answered r v (with_clockReads S (shifted r rest s)))) ->
  (forall r rest call s,
     wf s -> P s -> queue s = r :: rest -> pendingCount s < MAX_PENDING ->
     P (asked call r (with_clockReads S (shifted r rest s)))) ->
  forall calls s,
    wf s -> P s ->
    P (run ((fun c => call_measureFiber (fst c) (snd c)) <$> calls) s).
Proof.
  intros Hpush Hans Hask.
  induction calls as [|[f cb] calls IH]; intros s Hwf HP; [exact HP|].
  cbn [fmap list_fmap run fold_left fst snd].
  apply IH; [apply step_state_wf, Hwf|].
  unfold step_state. cbn [step]. unfold bind. rewrite measureFiber_spec.
  destruct (drain_invariant P Hans Hask _ (pushed f cb s)
              (wf_pushed f cb s Hwf) (Hpush f cb s Hwf HP) eq_refl) as (s' & Hrun & HP').
  unfold processQueue. rewrite Hrun. exact HP'.
Qed.

(** X4.  Calls of [measureFiber] alone never write the cache, never take a
    call back from the host and never free a slot: after any number of
    calls, in any well-formed state, the cache is what it was, the calls the
    host held are still the first it holds, and [pendingCount] has not
    decreased.  Only an answer of the host writes the cache; reading an entry
    does not renew its timestamp. *)
Theorem calls_never_write_the_cache
    (calls : list (Fiber * option Callback)) (s : Scheduler) :
  wf s ->
  measurementCache (run ((fun c => call_measureFiber (fst c) (snd c)) <$> calls) s)
  = measurementCache s
  /\ bridge s `prefix_of`
       bridge (run ((fun c => call_measureFiber (fst c) (snd c)) <$> calls) s)
  /\ pendingCount s
     <= pendingCount (run ((fun c => call_measureFiber (fst c) (snd c)) <$> calls) s).
Proof.
  intros Hwf.
  apply (call_invariant (fun s' =>
           measurementCache s' = measurementCache s
           /\ bridge s `prefix_of` bridge s'
           /\ pendingCount s <= pendingCount s')); try exact Hwf.
  - intros f cb s' _ H. exact H.
  - intros r rest v s' _ (H1 & H2 & H3) _ _. cbn. split; [exact H1|]. split; [exact H2|]. lia.
  - intros r rest call s' _ (H1 & H2 & H3) _ _. cbn. split; [exact H1|].
    split; [apply prefix_app_r; exact H2 | lia].
  - split; [reflexivity|]. split; [reflexivity | lia].
Qed.

(** X5.  With 50 calls at the host and no answer, every later call only
    joins the queue: the requests are appended in the order of the calls,
    and the host's calls, the promises, the history, the cache and
    [pendingCount] stay exactly as they were, so none of the new promises is
    settled, cached geometry or not. *)
Theorem saturated_scheduler_only_queues
    (calls : list (Fiber * option Callback)) (s : Scheduler) :
  wf s -> pendingCount s = MAX_PENDING ->
  bridge (run ((fun c => call_measureFiber (fst c) (snd c)) <$> calls) s) = bridge s
  /\ promises (run ((fun c => call_measureFiber (fst c) (snd c)) <$> calls) s) = promises s
  /\ trace (run ((fun c => call_measureFiber (fst c) (snd c)) <$> calls) s) = trace s
  /\ measurementCache (run ((fun c => call_measureFiber (fst c) (snd c)) <$> calls) s)
     = measurementCache s
  /\ pendingCount (run ((fun c => call_measureFiber (fst c) (snd c)) <$> calls) s)
     = MAX_PENDING
  /\ fiber <$> queue (run ((fun c => call_measureFiber (fst c) (snd c)) <$> calls) s)
     = (fiber <$> queue s) ++ (fst <$> calls)
  /\ resolve <$> queue (run ((fun c => call_measureFiber (fst c) (snd c)) <$> calls) s)
     = (resolve <$> queue s) ++ seq (nextPromise s) (length calls).
Proof.
  revert s. induction calls as [|[f cb] calls IH]; intros s Hwf Hfull.
  - cbn. rewrite !app_nil_r. auto 10.
  - cbn [fmap list_fmap run fold_left fst snd].
    assert (Hstep : step_state s (call_measureFiber f cb) = pushed f cb s).
    { unfold step_state. cbn [step]. unfold bind.
      rewrite measureFiber_spec, processQueue_full by (cbn; lia). reflexivity. }
    rewrite Hstep.
    destruct (IH (pushed f cb s) (wf_pushed f cb s Hwf) Hfull)
      as (H1 & H2 & H3 & H4 & H5 & H6 & H7).
    fold (run ((fun c => call_measureFiber (fst c) (snd c)) <$> calls) (pushed f cb s)).
    split; [exact H1|]. split; [exact H2|]. split; [exact H3|]. split; [exact H4|].
    split; [exact H5|]. split.
    + rewrite H6. cbn. rewrite fmap_app, <- app_assoc. reflexivity.
    + rewrite H7. cbn. rewrite fmap_app, <- app_assoc. reflexivity.
Qed.



(** ** More about the aggregator *)

(** The outcome of one event on a collection of native outlines with distinct
    keys. *)
Lemma on_event_cases e s :
  good s ->
  (accepted e = None /\ on_event e s = Normal tt s)
  \/ (exists m o,
        accepted e = Some m
        /\ search s (getKey m) (current s) = Some o
        /\ on_event e s = Normal tt (merged o (ev_render e) (ev_now e) s))
  \/ (exists m,
        accepted e = Some m
        /\ search s (getKey m) (current s) = None
        /\ on_event e s = Normal tt (created (ev_fiber e) (ev_render e) m (ev_now e) s)).
Proof.
  intros Hgood. destruct (accepted e) as [m |] eqn:Hacc.
  - right. rewrite (on_event_accepted e m s Hacc Hgood).
    destruct (search s (getKey m) (current s)) as [o |] eqn:Hfound; [left | right]; eauto.
  - left. split; [reflexivity | apply on_event_dropped, Hacc].
Qed.

Lemma accepted_truthy e m : accepted e = Some m -> truthy (pageX m) = true.
Proof.
  unfold accepted. destruct (ev_measurement e) as [m' |]; [|discriminate].
  destruct (truthy (pageX m')) eqn:Ht; [|discriminate]. intros H. congruence.
Qed.

(** A property of good collections that merging and creating keep holds
    after every sequence of events. *)
Lemma aggregate_invariant (P : Internals -> Prop) :
  (forall e m o s,
     good s -> P s -> accepted e = Some m ->
     search s (getKey m) (current s) = Some o ->
     P (merged o (ev_render e) (ev_now e) s)) ->
  (forall e m s,
     good s -> P s -> accepted e = Some m ->
     search s (getKey m) (current s) = None ->
     P (created (ev_fiber e) (ev_render e) m (ev_now e) s)) ->
  forall evs s, good s -> P s ->
    exists s', aggregate evs s = Normal tt s' /\ good s' /\ P s'.
Proof.
  intros Hmerge Hcreate. induction evs as [|e rest IH]; intros s Hgood HP.
  - exists s. auto.
  - cbn [aggregate]. unfold bind.
    destruct (on_event_cases e s Hgood)
      as [[_ ->] | [(m & o & Hacc & Hfound & ->) | (m & Hacc & Hnone & ->)]].
    + apply IH; assumption.
    + apply IH; [apply merged_good, Hgood | eauto].
    + apply IH; [apply created_good; assumption | eauto].
Qed.

Lemma merged_objects o render now s o' :
  objects (merged o render now s) !! o'
  = if decide (o = o') then merge_into render now <$> objects s !! o'
    else objects s !! o'.
Proof.
  unfold merged. cbn. destruct (decide (o = o')) as [<- | Hne].
  - apply lookup_alter_eq.
  - apply lookup_alter_ne, Hne.
Qed.

Lemma natives_Some s o : natives s (current s) -> o ∈ current s -> is_Some (objects s !! o).
Proof.
  unfold natives. rewrite Forall_forall. intros H Hin.
  destruct (H o Hin) as (a & -> & _). eauto.
Qed.

Lemma merged_well_built o render now s :
  all_well_built s -> all_well_built (merged o render now s).
Proof.
  unfold all_well_built. intros Hb. rewrite merged_current.
  eapply Forall_impl; [exact Hb|]. intros o' (a & Ha & Hw).
  rewrite merged_objects. destruct (decide (o = o')) as [_ | _]; [|eauto].
  rewrite Ha. eexists. split; [reflexivity|].
  destruct Hw as (H1 & H2 & H3 & H4 & H5 & H6 & H7).
  repeat split; cbn; try assumption. intros H. apply app_eq_nil in H as [_ H]. discriminate.
Qed.

Lemma created_well_built fiber render m now s :
  truthy (pageX m) = true ->
  all_well_built s -> all_well_built (created fiber render m now s).
Proof.
  unfold all_well_built. intros Htruthy Hb. rewrite created_current.
  apply Forall_app. split.
  - rewrite Forall_forall in Hb |- *. intros o Hin.
    destruct (Hb o Hin) as (a & Ha & Hw). exists a. split; [|exact Hw].
    rewrite created_objects_old by (rewrite Ha; eauto). exact Ha.
  - constructor; [|constructor]. eexists. split; [apply created_objects_new|].
    repeat split; cbn; try reflexivity; [exact Htruthy | discriminate].
Qed.

(** X7.  Every outline in the collection is well built.  Starting from a
    collection of well-built outlines with distinct keys (the empty one is),
    after any render events every element is a native outline whose [pageX]
    is truthy, whose render history is not empty, whose label is
    [getLabelText] of that history, and whose [alpha], [frame] and
    [totalFrames] are -1; and nothing was logged: the [catch] of
    [updateOutlines] never runs on such a collection. *)
Theorem outlines_stay_well_built evs s :
  good s -> all_well_built s ->
  exists s',
    aggregate evs s = Normal tt s'
    /\ all_well_built s'
    /\ console s' = console s.
Proof.
  intros Hgood Hbuilt.
  destruct (aggregate_invariant
              (fun s' => all_well_built s' /\ console s' = console s)) with (evs := evs) (s := s)
    as (s' & Hrun & _ & Hb & Hc); try assumption; [| | auto | eauto].
  - intros e m o s1 _ [Hb Hc] _ _. split; [apply merged_well_built, Hb | exact Hc].
  - intros e m s1 _ [Hb Hc] Hacc _. split; [|exact Hc].
    apply created_well_built; [eapply accepted_truthy, Hacc | exact Hb].
Qed.

Lemma grown_from_refl s : grown_from s s.
Proof. split; [reflexivity|]. intros o a _ Ha. exists a. repeat split; auto. Qed.

Lemma grown_from_trans s1 s2 s3 :
  grown_from s1 s2 -> grown_from s2 s3 -> grown_from s1 s3.
Proof.
  intros [Hp1 Ho1] [Hp2 Ho2]. split; [etransitivity; eassumption|].
  intros o a Hin Ha. destruct (Ho1 o a Hin Ha) as (a2 & Ha2 & E1 & E2 & E3 & E4).
  assert (Hin2 : o ∈ current s2).
  { destruct Hp1 as [k ->]. apply elem_of_app. left. exact Hin. }
  destruct (Ho2 o a2 Hin2 Ha2) as (a3 & Ha3 & F1 & F2 & F3 & F4).
  exists a3. split; [exact Ha3|]. repeat split; try congruence. etransitivity; eassumption.
Qed.

Lemma on_event_grows e s :
  good s -> exists s', on_event e s = Normal tt s' /\ good s' /\ grown_from s s'.
Proof.
  intros Hgood.
  destruct (on_event_cases e s Hgood)
    as [[_ ->] | [(m & o & Hacc & Hfound & ->) | (m & Hacc & Hnone & ->)]].
  - exists s. auto using grown_from_refl.
  - eexists. split; [reflexivity|]. split; [apply merged_good, Hgood|]. split.
    + rewrite merged_current. reflexivity.
    + intros o' a Hin Ha. rewrite merged_objects, Ha.
      destruct (decide (o = o')); cbn; eexists; (split; [reflexivity|]); repeat split;
        try reflexivity. apply prefix_app_r. reflexivity.
  - eexists. split; [reflexivity|]. split; [apply created_good; assumption|]. split.
    + rewrite created_current. apply prefix_app_r. reflexivity.
    + intros o a Hin Ha. exists a. rewrite created_objects_old by (rewrite Ha; eauto).
      repeat split; auto.
Qed.

(** X8.  The aggregator only appends.  After any render events on a
    collection of native outlines with distinct keys, the elements that were
    there are still there, in the same places; each has the measurement, the
    fiber and the id it had (a merge does not record the geometry or the
    fiber of the event that is merged), and its render history starts with
    the history it had. *)
Theorem collection_only_grows evs : forall s,
  good s ->
  exists s',
    aggregate evs s = Normal tt s'
    /\ current s `prefix_of` current s'
    /\ forall o a,
         o ∈ current s -> objects s !! o = Some a ->
         exists a',
           objects s' !! o = Some a'
           /\ latestMeasurement (outline a') = latestMeasurement (outline a)
           /\ outline_fiber (outline a') = outline_fiber (outline a)
           /\ outline_id a' = outline_id a
           /\ renders (outline a) `prefix_of` renders (outline a').
Proof.
  induction evs as [|e rest IH]; intros s Hgood.
  - exists s. split; [reflexivity|]. apply grown_from_refl.
  - destruct (on_event_grows e s Hgood) as (s1 & Hrun1 & Hgood1 & Hgrow1).
    destruct (IH s1 Hgood1) as (s' & Hrun & Hgrow).
    exists s'. split; [cbn [aggregate]; unfold bind; rewrite Hrun1; exact Hrun|].
    exact (grown_from_trans s s1 s' Hgrow1 Hgrow).
Qed.


Lemma present_keys s k : present s k <-> Some k ∈ keys s.
Proof.
  unfold present, keys. destruct (search s k (current s)) as [o |] eqn:Hfound.
  - split; [intros _ | eauto]. apply search_Some in Hfound as [Hin Hk].
    rewrite <- Hk. apply list_elem_of_fmap_2, Hin.
  - apply search_None in Hfound. split; [intros [o Ho]; discriminate | contradiction].
Qed.

Lemma natives_keys s : natives s (current s) -> None ∉ keys s.
Proof.
  unfold natives, keys. rewrite Forall_forall. intros Hnat Hin.
  apply list_elem_of_fmap in Hin as (o & Hk & Hin).
  destruct (Hnat o Hin) as (a & Ha & _). unfold key_of in Hk. rewrite Ha in Hk. discriminate.
Qed.

Lemma render_for_key k (evs : list RenderEvent) :
  (exists e, e ∈ evs /\ is_Some (render_for k e)) <-> k ∈ getKey <$> omap accepted evs.
Proof.
  rewrite list_elem_of_fmap. split.
  - intros (e & Hin & Hr). unfold render_for in Hr.
    destruct (accepted e) as [m |] eqn:Hacc; [|destruct Hr; discriminate].
    destruct (decide (getKey m = k)) as [<- |]; [|destruct Hr; discriminate].
    exists m. split; [reflexivity|]. apply list_elem_of_omap. eauto.
  - intros (m & -> & Hin). apply list_elem_of_omap in Hin as (e & Hin & Hacc).
    exists e. split; [exact Hin|]. unfold render_for. rewrite Hacc.
    rewrite decide_True by reflexivity. eauto.
Qed.

Lemma on_event_present e s k :
  good s ->
  forall s', on_event e s = Normal tt s' ->
  present s' k -> present s k \/ is_Some (render_for k e).
Proof.
  intros Hgood s' Hrun.
  destruct (on_event_cases e s Hgood)
    as [[_ Heq] | [(m & o & Hacc & Hfound & Heq) | (m & Hacc & Hnone & Heq)]];
    rewrite Heq in Hrun; injection Hrun as <-; unfold present.
  - auto.
  - rewrite merged_search. auto.
  - rewrite created_search by apply Hgood.
    destruct (search s k (current s)); [eauto|].
    unfold render_for. rewrite Hacc. destruct (decide (getKey m = k)); [eauto|].
    intros [? ?]; discriminate.
Qed.

(** X9.  The history under a key is exactly the accepted renders with that
    key.  After any render events on a collection of native outlines with
    distinct keys, the outline found under a key holds the renders it held
    followed by the renders of the accepted events with that key, in the
    order of the events: no render is lost, repeated or filed under another
    key; and a key has an outline exactly when it had one or an accepted
    event has that key (no outline is made for a dropped event). *)
Theorem history_is_the_accepted_renders evs : forall s,
  good s ->
  exists s',
    aggregate evs s = Normal tt s'
    /\ forall k,
         renders_of s' k = renders_of s k ++ omap (render_for k) evs
         /\ (present s' k <->
             present s k \/ exists e, e ∈ evs /\ is_Some (render_for k e)).
Proof.
  induction evs as [|e rest IH]; intros s Hgood.
  - exists s. split; [reflexivity|]. intros k. split.
    + cbn. rewrite app_nil_r. reflexivity.
    + split; [auto | intros [H | (e & Hin & _)]; [exact H | inversion Hin]].
  - destruct (on_event_good e s Hgood) as (s1 & Hrun1 & Hgood1 & Hren1 & Hpres1).
    destruct (IH s1 Hgood1) as (s' & Hrun & Hall).
    exists s'. split; [cbn [aggregate]; unfold bind; rewrite Hrun1; exact Hrun|].
    intros k. destruct (Hall k) as [Hren Hiff]. split.
    + rewrite Hren, Hren1, <- app_assoc. f_equal.
      cbn [omap list_omap]. destruct (render_for k e); reflexivity.
    + rewrite Hiff. split.
      * intros [H1 | (e' & Hin & He')].
        -- destruct (on_event_present e s k Hgood s1 Hrun1 H1) as [H | H]; [auto|].
           right. exists e. split; [left | exact H].
        -- right. exists e'. split; [right; exact Hin | exact He'].
      * intros [H | (e' & Hin & He')].
        -- left. apply Hpres1. auto.
        -- apply elem_of_cons in Hin as [-> | Hin]; [left; apply Hpres1; auto|].
           right. eauto.
Qed.

(** X10.  One outline per distinct key.  After any render events on a
    collection of native outlines with distinct keys, the keys of the
    collection are distinct and are, up to order, the keys it had and the
    distinct keys of the accepted events that it did not have; so the number
    of outlines grows by the number of distinct new keys. *)
Theorem one_outline_per_distinct_key evs s :
  good s ->
  exists s',
    aggregate evs s = Normal tt s'
    /\ NoDup (keys s')
    /\ keys s' ≡ₚ
         keys s ++ (Some <$> remove_dups
                      (filter (fun k => search s k (current s) = None)
                              (getKey <$> omap accepted evs)))
    /\ length (current s')
       = (length (current s)
          + length (remove_dups
                      (filter (fun k => search s k (current s) = None)
                              (getKey <$> omap accepted evs))))%nat.
Proof.
  intros Hgood.
  destruct (aggregate_good evs s Hgood) as (s' & Hrun & Hgood' & _ & Hpres).
  assert (Hback : forall k, present s' k ->
            present s k \/ exists e, e ∈ evs /\ is_Some (render_for k e)).
  { clear Hpres Hgood'. revert s Hgood Hrun.
    induction evs as [|e rest IH]; intros s Hgood Hrun k Hk.
    - injection Hrun as <-. auto.
    - destruct (on_event_good e s Hgood) as (s1 & Hrun1 & Hgood1 & _).
      cbn [aggregate] in Hrun. unfold bind in Hrun. rewrite Hrun1 in Hrun.
      destruct (IH s1 Hgood1 Hrun k Hk) as [H1 | (e' & Hin & He')].
      + destruct (on_event_present e s k Hgood s1 Hrun1 H1) as [H | H]; [auto|].
        right. exists e. split; [left | exact H].
      + right. exists e'. split; [right; exact Hin | exact He']. }
  assert (Hperm : keys s' ≡ₚ
            keys s ++ (Some <$> remove_dups
                         (filter (fun k => search s k (current s) = None)
                                 (getKey <$> omap accepted evs)))).
  { apply NoDup_Permutation.
    - apply Hgood'.
    - apply NoDup_app. split; [apply Hgood|]. split.
      + intros x Hx Hin. apply list_elem_of_fmap in Hin as (k & -> & Hin).
        apply elem_of_remove_dups, list_elem_of_filter in Hin as [Hnone _].
        apply present_keys in Hx. unfold present in Hx. rewrite Hnone in Hx.
        destruct Hx; discriminate.
      + apply NoDup_fmap_2; [intros ? ? ?; congruence | apply NoDup_remove_dups].
    - intros [k |].
      + rewrite <- present_keys, elem_of_app, <- present_keys, list_elem_of_fmap. split.
        * intros Hk. destruct (search s k (current s)) as [o |] eqn:Hfound.
          -- left. unfold present. rewrite Hfound. eauto.
          -- right. exists k. split; [reflexivity|].
             apply elem_of_remove_dups, list_elem_of_filter. split; [exact Hfound|].
             apply render_for_key. destruct (Hback k Hk) as [H | H]; [|exact H].
             unfold present in H. rewrite Hfound in H. destruct H; discriminate.
        * intros [Hk | (k' & Heq & Hin)]; apply Hpres; [auto|].
          injection Heq as <-.
          apply elem_of_remove_dups, list_elem_of_filter in Hin as [_ Hin].
          right. apply render_for_key, Hin.
      + split; [intros H; destruct (natives_keys s' (good_natives _ Hgood') H)|].
        rewrite elem_of_app, list_elem_of_fmap.
        intros [H | (k & Heq & _)]; [destruct (natives_keys s (good_natives _ Hgood) H)|].
        discriminate. }
  exists s'. split; [exact Hrun|]. split; [apply Hgood'|]. split; [exact Hperm|].
  apply Permutation_length in Hperm. unfold keys in Hperm.
  rewrite length_app, !length_fmap in Hperm. exact Hperm.
Qed.

Lemma sum_list_same (f g : ObjRef -> nat) l :
  (forall o, o ∈ l -> g o = f o) -> sum_list (g <$> l) = sum_list (f <$> l).
Proof.
  induction l as [|o rest IH]; intros H; [reflexivity|]. cbn.
  rewrite H by left. rewrite IH; [reflexivity|]. intros o' Hin. apply H. right. exact Hin.
Qed.

Lemma sum_list_bump (f g : ObjRef -> nat) l o :
  NoDup l -> o ∈ l -> g o = S (f o) -> (forall o', o' ∈ l -> o' <> o -> g o' = f o') ->
  sum_list (g <$> l) = S (sum_list (f <$> l)).
Proof.
  induction l as [|o' rest IH]; intros Hnd Hin Ho Hothers; [inversion Hin|].
  apply NoDup_cons in Hnd as [Hnotin Hnd]. cbn.
  apply elem_of_cons in Hin as [<- | Hin].
  - rewrite Ho. rewrite (sum_list_same f g rest); [reflexivity|].
    intros o' Hin'. apply Hothers; [right; exact Hin'|]. intros ->. contradiction.
  - rewrite (Hothers o') by (left || (intros ->; contradiction)).
    rewrite IH; [lia | assumption | assumption | assumption |].
    intros o'' Hin'' Hne. apply Hothers; [right; exact Hin'' | exact Hne].
Qed.

Lemma on_event_counts e s :
  good s ->
  exists s',
    on_event e s = Normal tt s' /\ good s'
    /\ total_renders s' = (total_renders s + length (omap accepted [e]))%nat.
Proof.
  intros Hgood.
  destruct (on_event_cases e s Hgood)
    as [[Hacc ->] | [(m & o & Hacc & Hfound & ->) | (m & Hacc & Hnone & ->)]];
    cbn [omap list_omap]; rewrite Hacc; cbn [length].
  - exists s. split; [reflexivity|]. split; [exact Hgood | lia].
  - eexists. split; [reflexivity|]. split; [apply merged_good, Hgood|].
    unfold total_renders. rewrite merged_current, Nat.add_1_r.
    apply search_Some in Hfound as [Hin _].
    destruct (natives_Some s o (good_natives _ Hgood) Hin) as [a Ha].
    apply (sum_list_bump _ _ _ o).
    + eapply NoDup_fmap_1. apply Hgood.
    + exact Hin.
    + unfold renders_held. rewrite merged_objects, decide_True, Ha by reflexivity.
      cbn. rewrite length_app. cbn. lia.
    + intros o' _ Hne. unfold renders_held.
      rewrite merged_objects, decide_False by congruence. reflexivity.
  - eexists. split; [reflexivity|]. split; [apply created_good; assumption|].
    unfold total_renders. rewrite created_current, fmap_app, sum_list_with_app. f_equal.
    + apply sum_list_same. intros o Hin. unfold renders_held.
      rewrite created_objects_old by (apply natives_Some; [apply Hgood | exact Hin]).
      reflexivity.
    + cbn. unfold renders_held. rewrite created_objects_new. reflexivity.
Qed.

(** X11.  Every accepted render is recorded once.  After any render events
    on a collection of native outlines with distinct keys, the number of
    renders held by the elements of the collection has grown by the number
    of events whose measurement is not null and has a truthy [pageX]. *)
Theorem accepted_renders_are_counted evs : forall s,
  good s ->
  exists s',
    aggregate evs s = Normal tt s'
    /\ total_renders s' = (total_renders s + length (omap accepted evs))%nat.
Proof.
  induction evs as [|e rest IH]; intros s Hgood.
  - exists s. split; [reflexivity | cbn; lia].
  - destruct (on_event_counts e s Hgood) as (s1 & Hrun1 & Hgood1 & Hcount1).
    destruct (IH s1 Hgood1) as (s' & Hrun & Hcount).
    exists s'. split; [cbn [aggregate]; unfold bind; rewrite Hrun1; exact Hrun|].
    rewrite Hcount, Hcount1. change (e :: rest) with ([e] ++ rest).
    rewrite omap_app, length_app. lia.
Qed.


(** ** The instrumented module *)

(** *** The scheduler seen from the handlers *)

Lemma steady_init : steady init.
Proof.
  split; [apply sound_init|]. split.
  - split; [constructor|]. intros p v. cbn. rewrite lookup_empty.
    split; [intros H; inversion H | discriminate].
  - intros p Hp. cbn in Hp. lia.
Qed.

Lemma steady_step s i : steady s -> steady (step_state s i).
Proof.
  intros (Hsound & Honce & Hacc). split; [|split].
  - exact (run_sound [i] s Hsound).
  - exact (resolved_once_run [i] s (proj1 Hsound) Honce).
  - exact (accounted_run [i] s (proj1 Hsound) Hacc).
Qed.

Lemma steady_tick s : steady s -> steady (with_clockReads S s).
Proof.
  intros ([Hwf Hquiet] & Honce & Hacc). split; [split|split].
  - destruct Hwf. constructor; assumption.
  - exact Hquiet.
  - exact Honce.
  - exact Hacc.
Qed.

Lemma step_trace s i : wf s -> exists new, trace (step_state s i) = new ++ trace s.
Proof.
  intros Hwf.
  apply (step_invariant (fun s' => exists new, trace s' = new ++ trace s));
    [| | | | exact Hwf | exists []; reflexivity].
  - intros f cb s' _ [new Hnew]. exists new. exact Hnew.
  - intros r rest v s' _ [new Hnew] _ _. cbn. rewrite Hnew.
    exists (Resolved (resolve r) v :: callback_events (callback r) v
            ++ Shifted (resolve r) :: new).
    cbn. rewrite <- app_assoc. reflexivity.
  - intros r rest call s' _ [new Hnew] _ _. cbn. rewrite Hnew.
    exists (HostAsked call (resolve r) :: Shifted (resolve r) :: new). reflexivity.
  - intros k o j alt coords s' _ [new Hnew] _.
    exists (Resolved (resolve (closure o)) (Some coords)
            :: callback_events (callback (closure o)) (Some coords)
            ++ HostReplied (resolve (closure o)) :: new).
    destruct alt; cbn; rewrite Hnew, <- app_assoc; reflexivity.
Qed.

(** A settled promise stays as it is. *)
Lemma promises_persist s s' new p v :
  steady s -> steady s' -> trace s' = new ++ trace s ->
  promises s !! p = Some (Fulfilled v) -> promises s' !! p = Some (Fulfilled v).
Proof.
  intros (_ & [_ Honce] & _) (_ & [_ Honce'] & _) Htrace Hp.
  apply Honce'. rewrite Htrace. apply elem_of_app. right. apply Honce, Hp.
Qed.

(** A promise settled by a step was resolved in that step. *)
Lemma settled_by s s' new p :
  steady s -> steady s' -> trace s' = new ++ trace s ->
  promises s !! p = None -> is_Some (promises s' !! p) ->
  exists v, Resolved p v ∈ new.
Proof.
  intros (_ & [_ Honce] & _) ([Hwf' _] & [_ Honce'] & _) Htrace Hp [st Hst].
  destruct (wf_fulfilled s' Hwf' p st Hst) as [[v ->] _].
  apply Honce' in Hst. rewrite Htrace in Hst. apply elem_of_app in Hst as [Hst | Hst].
  - eauto.
  - apply Honce in Hst. congruence.
Qed.

Lemma new_events_app s s' new :
  trace s' = new ++ trace s -> new_events s s' = reverse new.
Proof.
  intros Htrace. unfold new_events. rewrite Htrace, length_app.
  replace (length new + length (trace s) - length (trace s))%nat with (length new) by lia.
  rewrite take_app_length. reflexivity.
Qed.


(** *** Reactions *)

Lemma in_suspense_queue_job j sys :
  in_suspense (with_jobs (fun js => js ++ [j]) sys)
  ≡ₚ job_continuation j :: in_suspense sys.
Proof.
  unfold in_suspense. cbn. rewrite fmap_app. cbn.
  rewrite app_assoc, <- Permutation_cons_append. reflexivity.
Qed.

Lemma in_suspense_suspend p k sys :
  suspended sys !! p = None ->
  in_suspense (with_suspended <[p := k]> sys) ≡ₚ k :: in_suspense sys.
Proof.
  intros Hp. unfold in_suspense. cbn.
  rewrite (map_to_list_insert _ _ _ Hp). reflexivity.
Qed.

Lemma in_suspense_fire p k sys :
  suspended sys !! p = Some k ->
  k :: in_suspense (with_suspended (delete p) sys) ≡ₚ in_suspense sys.
Proof.
  intros Hp. unfold in_suspense. cbn.
  rewrite <- (insert_delete_id (suspended sys) p k Hp) at 2.
  rewrite map_to_list_insert by apply lookup_delete_eq. reflexivity.
Qed.

(** What the calls of [resolve] do to the reactions: the scheduler, the
    collection and the notices are as they were, the continuations of the
    promises resolved have moved to the job queue, with the value. *)
Lemma trigger_spec events : forall sys,
  scheduler (trigger events sys) = scheduler sys
  /\ internals (trigger events sys) = internals sys
  /\ notices (trigger events sys) = notices sys
  /\ in_suspense (trigger events sys) ≡ₚ in_suspense sys
  /\ (forall p k, suspended (trigger events sys) !! p = Some k ->
        suspended sys !! p = Some k /\ forall v, Resolved p v ∉ events)
  /\ exists added,
       jobs (trigger events sys) = jobs sys ++ added
       /\ Forall (fun j => exists v, job_state j = Fulfilled v
                                     /\ Resolved (job_promise j) v ∈ events) added.
Proof.
  induction events as [|e rest IH]; intros sys.
  - cbn. split; [reflexivity|]. split; [reflexivity|]. split; [reflexivity|].
    split; [reflexivity|]. split.
    + intros p k Hp. split; [exact Hp|]. intros v Hin. inversion Hin.
    + exists []. rewrite app_nil_r. split; [reflexivity | constructor].
  - assert (Hskip : (forall p v, e <> Resolved p v) \/
                    (exists p v, e = Resolved p v /\ suspended sys !! p = None) ->
              trigger (e :: rest) sys = trigger rest sys).
    { intros [H | (p & v & -> & Hp)].
      - destruct e; try reflexivity. destruct (H p v eq_refl).
      - cbn. rewrite Hp. reflexivity. }
    assert (Hkeep : trigger (e :: rest) sys = trigger rest sys ->
              (forall p v, e = Resolved p v -> suspended sys !! p = None) ->
              scheduler (trigger (e :: rest) sys) = scheduler sys
              /\ internals (trigger (e :: rest) sys) = internals sys
              /\ notices (trigger (e :: rest) sys) = notices sys
              /\ in_suspense (trigger (e :: rest) sys) ≡ₚ in_suspense sys
              /\ (forall p k, suspended (trigger (e :: rest) sys) !! p = Some k ->
                    suspended sys !! p = Some k /\ forall v, Resolved p v ∉ e :: rest)
              /\ exists added,
                   jobs (trigger (e :: rest) sys) = jobs sys ++ added
                   /\ Forall (fun j => exists v, job_state j = Fulfilled v
                                /\ Resolved (job_promise j) v ∈ e :: rest) added).
    { intros -> Hnone.
      destruct (IH sys) as (H1 & H2 & H3 & H4 & H5 & added & H6 & H7).
      split; [exact H1|]. split; [exact H2|]. split; [exact H3|]. split; [exact H4|]. split.
      - intros p k Hp. destruct (H5 p k Hp) as [Hs Hnot]. split; [exact Hs|].
        intros v Hin. apply elem_of_cons in Hin as [Heq | Hin]; [|exact (Hnot v Hin)].
        rewrite (Hnone p v (eq_sym Heq)) in Hs. discriminate.
      - exists added. split; [exact H6|]. eapply Forall_impl; [exact H7|].
        intros j (v & Hv & Hin). exists v. split; [exact Hv | right; exact Hin]. }
    destruct e as [q | call q | q | cb w | p v];
      try (apply Hkeep; [apply Hskip; left; discriminate | discriminate]).
    destruct (suspended sys !! p) as [k |] eqn:Hp.
    + cbn [trigger]. rewrite Hp.
      destruct (IH (with_jobs (fun js => js ++ [mkJob p (Fulfilled v) k])
                      (with_suspended (delete p) sys)))
        as (H1 & H2 & H3 & H4 & H5 & added & H6 & H7).
      split; [exact H1|]. split; [exact H2|]. split; [exact H3|]. split; [|split].
      * rewrite H4, in_suspense_queue_job. cbn [job_continuation].
        apply in_suspense_fire, Hp.
      * intros p' k' Hp'. destruct (H5 p' k' Hp') as [Hs Hnot]. cbn in Hs.
        destruct (decide (p' = p)) as [-> | Hne].
        { rewrite lookup_delete_eq in Hs. discriminate. }
        rewrite lookup_delete_ne in Hs by congruence. split; [exact Hs|].
        intros v' Hin. apply elem_of_cons in Hin as [Heq | Hin]; [congruence|].
        exact (Hnot v' Hin).
      * exists (mkJob p (Fulfilled v) k :: added). split.
        { rewrite H6. cbn. rewrite <- app_assoc. reflexivity. }
        constructor; [exists v; split; [reflexivity | left]|].
        eapply Forall_impl; [exact H7|].
        intros j (v' & Hv & Hin). exists v'. split; [exact Hv | right; exact Hin].
    + apply Hkeep; [apply Hskip; right; eauto|]. intros p' v' Heq.
      injection Heq as <- <-. exact Hp.
Qed.

(** The scheduler has moved from the state it was in to [s']: what the
    reactions make of it. *)
Lemma settle_coherent sys s' new :
  coherent sys -> steady s' ->
  trace s' = new ++ trace (scheduler sys) ->
  (nextPromise (scheduler sys) <= nextPromise s')%nat ->
  coherent (trigger (new_events (scheduler sys) s') (with_scheduler (fun _ => s') sys))
  /\ scheduler (trigger (new_events (scheduler sys) s') (with_scheduler (fun _ => s') sys)) = s'
  /\ internals (trigger (new_events (scheduler sys) s') (with_scheduler (fun _ => s') sys))
     = internals sys
  /\ notices (trigger (new_events (scheduler sys) s') (with_scheduler (fun _ => s') sys))
     = notices sys
  /\ in_suspense (trigger (new_events (scheduler sys) s') (with_scheduler (fun _ => s') sys))
     ≡ₚ in_suspense sys
  /\ (forall p, suspended sys !! p = None ->
        suspended (trigger (new_events (scheduler sys) s')
                     (with_scheduler (fun _ => s') sys)) !! p = None).
Proof.
  intros [Hsteady Hsusp Hjobs Hres] Hsteady' Htrace Hnext.
  rewrite (new_events_app _ _ _ Htrace).
  destruct (trigger_spec (reverse new) (with_scheduler (fun _ => s') sys))
    as (H1 & H2 & H3 & H4 & H5 & added & H6 & H7).
  cbn in H1, H2, H3, H5, H6.
  split; [|split; [exact H1|split; [exact H2|split; [exact H3|split; [exact H4|]]]]].
  - constructor; rewrite ?H1, ?H3.
    + exact Hsteady'.
    + intros p k Hp. destruct (H5 p k Hp) as [Hs Hnot].
      destruct (Hsusp p k Hs) as [Hpending Hlt]. split; [|lia].
      destruct (promises s' !! p) as [st |] eqn:Hst; [|reflexivity].
      destruct (settled_by _ _ _ p Hsteady Hsteady' Htrace Hpending) as [v Hv]; [eauto|].
      destruct (Hnot v). apply elem_of_reverse. exact Hv.
    + rewrite H6. apply Forall_app. split.
      * eapply Forall_impl; [exact Hjobs|]. intros j (v & Hv & Hp). exists v.
        split; [exact Hv|].
        apply (promises_persist (scheduler sys) s' new); assumption.
      * eapply Forall_impl; [exact H7|]. intros j (v & Hv & Hin). exists v.
        split; [exact Hv|]. rewrite elem_of_reverse in Hin.
        destruct Hsteady' as (_ & [_ Honce'] & _). apply Honce'.
        rewrite Htrace. apply elem_of_app. left. exact Hin.
    + intros p f r v Hin.
      apply (promises_persist (scheduler sys) s' new); eauto.
  - intros p Hp. destruct (suspended (trigger _ _) !! p) as [k |] eqn:Hk; [|reflexivity].
    destruct (H5 p k Hk) as [Hs _]. congruence.
Qed.


(** *** The handlers, one by one *)

Lemma coherent_notice n sys :
  coherent sys ->
  (forall p f r v, n = Resumed p f r v ->
     promises (scheduler sys) !! p = Some (Fulfilled v)) ->
  coherent (with_notices (cons n) sys).
Proof.
  intros [H1 H2 H3 H4] Hn. constructor; try assumption.
  intros p f r v Hin. cbn in Hin. apply elem_of_cons in Hin as [Heq | Hin].
  - exact (Hn p f r v (eq_sym Heq)).
  - exact (H4 p f r v Hin).
Qed.

Lemma in_scheduler_step i sys :
  coherent sys ->
  exists sys',
    in_scheduler (step i) sys = Normal tt sys'
    /\ coherent sys'
    /\ scheduler sys' = step_state (scheduler sys) i
    /\ internals sys' = internals sys
    /\ notices sys' = notices sys
    /\ in_suspense sys' ≡ₚ in_suspense sys
    /\ (forall p, suspended sys !! p = None -> suspended sys' !! p = None).
Proof.
  intros Hcoh. pose proof (coh_scheduler sys Hcoh) as Hsteady.
  pose proof (proj1 (proj1 Hsteady)) as Hwf.
  destruct (step_wf i (scheduler sys) Hwf) as (s' & Hrun & _).
  assert (Hs' : step_state (scheduler sys) i = s') by (unfold step_state; rewrite Hrun; reflexivity).
  destruct (step_trace (scheduler sys) i Hwf) as [new Hnew]. rewrite Hs' in Hnew.
  pose proof (steady_step (scheduler sys) i Hsteady) as Hsteady'. rewrite Hs' in Hsteady'.
  pose proof (step_nextPromise i (scheduler sys) Hwf) as Hnext. rewrite Hs' in Hnext.
  destruct (settle_coherent sys s' new Hcoh Hsteady' Hnew ltac:(lia))
    as (H1 & H2 & H3 & H4 & H5 & H6).
  eexists. split; [unfold in_scheduler; rewrite Hrun; reflexivity|].
  rewrite Hs'. auto 10.
Qed.

(** [updateOutlines] up to its [await]: a fiber without a host fiber leaves
    everything as it was; any other leaves one continuation behind. *)
Lemma call_updateOutlines_spec f r sys :
  coherent sys ->
  exists sys',
    call_updateOutlines f r sys = Normal tt sys'
    /\ coherent sys'
    /\ internals sys' = internals sys
    /\ notices sys' = notices sys
    /\ in_suspense sys' ≡ₚ
         match getNearestHostFiber f with
         | null => []
         | fiberObj _ _ _ _ _ => [mkContinuation f r]
         end ++ in_suspense sys.
Proof.
  intros Hcoh. pose proof (coh_scheduler sys Hcoh) as Hsteady.
  pose proof (proj1 (proj1 Hsteady)) as Hwf.
  unfold call_updateOutlines, async, try_catch, bind, in_scheduler.
  rewrite updateOutlines_request_spec.
  destruct (getNearestHostFiber f) as [|i sn c sib alt].
  - destruct (settle_coherent sys (scheduler sys) [] Hcoh Hsteady eq_refl ltac:(lia))
      as (H1 & H2 & H3 & H4 & H5 & H6).
    eexists. split; [reflexivity|]. auto.
  - destruct (measureFiber_wf f None (scheduler sys) Hwf) as (s' & Hcall & _).
    rewrite Hcall.
    assert (Hs' : step_state (scheduler sys) (call_measureFiber f None) = s').
    { unfold step_state. cbn [step]. unfold bind. rewrite Hcall. reflexivity. }
    destruct (step_trace (scheduler sys) (call_measureFiber f None) Hwf) as [new Hnew].
    pose proof (steady_step (scheduler sys) (call_measureFiber f None) Hsteady) as Hsteady'.
    pose proof (step_nextPromise (call_measureFiber f None) (scheduler sys) Hwf) as Hnext.
    rewrite Hs' in Hnew, Hsteady', Hnext. cbn in Hnext.
    destruct (settle_coherent sys s' new Hcoh Hsteady' Hnew ltac:(lia))
      as (H1 & H2 & H3 & H4 & H5 & H6).
    set (sys1 := trigger (new_events (scheduler sys) s')
                   (with_scheduler (fun _ => s') sys)) in *.
    assert (Hfree : suspended sys1 !! nextPromise (scheduler sys) = None).
    { apply H6. destruct (suspended sys !! nextPromise (scheduler sys)) as [k |] eqn:Hk;
        [|reflexivity].
      destruct (coh_suspended sys Hcoh _ _ Hk) as [_ Hlt]. lia. }
    unfold await. rewrite H2.
    destruct (promises s' !! nextPromise (scheduler sys)) as [st |] eqn:Hst.
    + eexists. split; [reflexivity|].
      destruct (wf_fulfilled s' (proj1 (proj1 Hsteady')) _ _ Hst) as [[v ->] _].
      split; [|split; [exact H3|split; [exact H4|]]].
      * destruct H1 as [C1 C2 C3 C4]. constructor; try assumption. cbn.
        apply Forall_app. split; [exact C3|]. constructor; [|constructor].
        exists v. cbn. rewrite H2. auto.
      * rewrite in_suspense_queue_job, H5. reflexivity.
    + eexists. split; [reflexivity|].
      split; [|split; [exact H3|split; [exact H4|]]].
      * destruct H1 as [C1 C2 C3 C4]. constructor; try assumption. cbn.
        intros p k Hp. destruct (decide (p = nextPromise (scheduler sys))) as [-> | Hne].
        -- rewrite H2. split; [exact Hst | lia].
        -- rewrite lookup_insert_ne in Hp by congruence. exact (C2 p k Hp).
      * rewrite (in_suspense_suspend _ _ _ Hfree), H5. reflexivity.
Qed.

Lemma call_hook_spec hook n sys :
  call_hook hook n sys =
  match hook with
  | None => Normal tt sys
  | Some hook_returns => Normal tt (with_notices (cons n) sys)
  | Some (hook_throws e) => Thrown e (with_notices (cons n) sys)
  end.
Proof. destruct hook as [[|e] |]; reflexivity. Qed.

(** What a reading of the notices makes of one more notice. *)
Lemma omap_newest {A : Type} (f : Notice -> option A) n ns :
  omap f (reverse (n :: ns)) = omap f (reverse ns) ++ omap f [n].
Proof. rewrite reverse_cons, omap_app. reflexivity. Qed.

(** One event of the aggregator on a collection of well-built outlines. *)
Lemma on_event_keeps e s :
  good s -> all_well_built s ->
  exists s',
    on_event e s = Normal tt s'
    /\ good s' /\ all_well_built s'
    /\ console s' = console s
    /\ total_renders s' = (total_renders s + length (omap accepted [e]))%nat.
Proof.
  intros Hgood Hbuilt.
  destruct (on_event_counts e s Hgood) as (s' & Hrun & Hgood' & Hcount).
  exists s'. split; [exact Hrun|]. split; [exact Hgood'|]. split; [|split; [|exact Hcount]];
    destruct (on_event_cases e s Hgood)
      as [[_ Heq] | [(m & o & Hacc & Hfound & Heq) | (m & Hacc & Hnone & Heq)]];
    rewrite Heq in Hrun; injection Hrun as <-; try reflexivity.
  - exact Hbuilt.
  - apply merged_well_built, Hbuilt.
  - apply created_well_built; [eapply accepted_truthy, Hacc | exact Hbuilt].
Qed.

(** The rest of [updateOutlines], for a promise that was fulfilled. *)
Lemma resume_updateOutlines_spec j v sys :
  job_state j = Fulfilled v ->
  promises (scheduler sys) !! job_promise j = Some (Fulfilled v) ->
  coherent sys ->
  exists sys',
    resume_updateOutlines j sys = Normal tt sys'
    /\ coherent sys'
    /\ bridge (scheduler sys') = bridge (scheduler sys)
    /\ suspended sys' = suspended sys
    /\ jobs sys' = jobs sys
    /\ notices sys'
       = Resumed (job_promise j) (awaiting_fiber (job_continuation j))
                 (awaiting_render (job_continuation j)) v :: notices sys
    /\ (good (internals sys) -> all_well_built (internals sys) ->
        good (internals sys') /\ all_well_built (internals sys')
        /\ console (internals sys') = console (internals sys)
        /\ total_renders (internals sys')
           = (total_renders (internals sys)
              + length (omap accepted_value [(job_continuation j, v)]))%nat).
Proof.
  intros Hstate Hpromise Hcoh.
  unfold resume_updateOutlines, async, try_catch. rewrite Hstate. unfold bind, notice, modify.
  set (f := awaiting_fiber (job_continuation j)).
  set (r := awaiting_render (job_continuation j)).
  set (now := Date_now (clockReads (scheduler (with_notices (cons (Resumed (job_promise j) f r v)) sys)))).
  destruct (updateOutlines_returns f r v now (internals sys)) as (i' & Hrun).
  assert (Hcoh1 : coherent (with_notices (cons (Resumed (job_promise j) f r v)) sys)).
  { apply coherent_notice; [exact Hcoh|]. intros p f' r' v' Heq.
    injection Heq as <- _ _ <-. exact Hpromise. }
  assert (Hcollection : good (internals sys) -> all_well_built (internals sys) ->
            good i' /\ all_well_built i' /\ console i' = console (internals sys)
            /\ total_renders i'
               = (total_renders (internals sys)
                  + length (omap accepted_value [(job_continuation j, v)]))%nat).
  { intros Hgood Hbuilt.
    destruct (on_event_keeps (mkRenderEvent f r v now) (internals sys) Hgood Hbuilt)
      as (i'' & Hrun' & Hgood' & Hbuilt' & Hconsole & Hcount).
    change (on_event (mkRenderEvent f r v now)) with (updateOutlines f r v now) in Hrun'.
    rewrite Hrun in Hrun'. injection Hrun' as <-. auto. }
  unfold in_internals.
  destruct (reads_clock v (internals (with_notices (cons (Resumed (job_promise j) f r v)) sys)));
    cbn [internals with_scheduler with_notices]; rewrite Hrun;
    (eexists; split; [reflexivity|]); cbn;
    (split; [|auto 10]); destruct Hcoh1 as [C1 C2 C3 C4]; constructor; try assumption.
  cbn. apply steady_tick. exact C1.
Qed.

(** The job queue, run to its end. *)
Lemma run_jobs_spec pending : forall sys,
  coherent sys -> jobs sys = pending ->
  exists sys' extra,
    run_jobs pending sys = Normal tt sys'
    /\ coherent sys'
    /\ bridge (scheduler sys') = bridge (scheduler sys)
    /\ suspended sys' = suspended sys
    /\ jobs sys' = []
    /\ resumptions sys' = resumptions sys ++ extra
    /\ fst <$> extra = job_continuation <$> pending
    /\ hook_calls sys' = hook_calls sys
    /\ rejections sys' = rejections sys
    /\ (good (internals sys) -> all_well_built (internals sys) ->
        good (internals sys') /\ all_well_built (internals sys')
        /\ console (internals sys') = console (internals sys)
        /\ total_renders (internals sys')
           = (total_renders (internals sys) + length (omap accepted_value extra))%nat).
Proof.
  induction pending as [|j rest IH]; intros sys Hcoh Hjobs.
  - exists sys, []. rewrite app_nil_r. cbn. split; [reflexivity|]. auto 15.
  - assert (Hcoh1 : coherent (with_jobs (fun _ => rest) sys)).
    { destruct Hcoh as [C1 C2 C3 C4]. constructor; try assumption. cbn.
      rewrite Hjobs in C3. apply Forall_cons in C3 as [_ C3]. exact C3. }
    pose proof (coh_jobs sys Hcoh) as Hhead. rewrite Hjobs in Hhead.
    apply Forall_cons in Hhead as [(v & Hstate & Hpromise) _].
    destruct (resume_updateOutlines_spec j v (with_jobs (fun _ => rest) sys)
                Hstate Hpromise Hcoh1)
      as (sys2 & Hrun2 & Hcoh2 & Hbridge2 & Hsusp2 & Hjobs2 & Hnotices2 & Hcoll2).
    destruct (IH sys2 Hcoh2 Hjobs2)
      as (sys' & extra & Hrun & Hcoh' & Hbridge & Hsusp & Hjobs' & Hres & Hfst
          & Hhooks & Hrej & Hcoll).
    exists sys', ((job_continuation j, v) :: extra).
    split; [cbn [run_jobs]; unfold bind, modify; rewrite Hrun2; exact Hrun|].
    split; [exact Hcoh'|]. split; [rewrite Hbridge, Hbridge2; reflexivity|].
    split; [rewrite Hsusp, Hsusp2; reflexivity|]. split; [exact Hjobs'|].
    assert (Hres2 : resumptions sys2 = resumptions sys ++ [(job_continuation j, v)]).
    { unfold resumptions. rewrite Hnotices2, omap_newest. cbn.
      destruct (job_continuation j); reflexivity. }
    split; [rewrite Hres, Hres2, <- app_assoc; reflexivity|].
    split; [cbn; rewrite Hfst; reflexivity|].
    split; [rewrite Hhooks; unfold hook_calls; rewrite Hnotices2, omap_newest;
            cbn; apply app_nil_r|].
    split; [rewrite Hrej; unfold rejections; rewrite Hnotices2, omap_newest;
            cbn; apply app_nil_r|].
    intros Hgood Hbuilt.
    destruct (Hcoll2 Hgood Hbuilt) as (Hgood2 & Hbuilt2 & Hconsole2 & Hcount2).
    destruct (Hcoll Hgood2 Hbuilt2) as (Hgood' & Hbuilt' & Hconsole' & Hcount').
    split; [exact Hgood'|]. split; [exact Hbuilt'|].
    split; [rewrite Hconsole', Hconsole2; reflexivity|].
    rewrite Hcount', Hcount2. cbn.
    destruct (accepted_value (job_continuation j, v)); cbn; lia.
Qed.

(** *** What the module keeps, task after task *)

(** The continuations in suspense and the continuations that ran are the
    renders asked for; the hooks called and the promises rejected are those
    the tasks ask for. *)
Record tracked (tasks : list Task) (sys : System) : Prop := mk_tracked {
  tr_coherent : coherent sys;
  tr_requested : omap requested tasks ≡ₚ in_suspense sys ++ (fst <$> resumptions sys);
  tr_hooks : hook_calls sys = omap hook_of tasks;
  tr_rejections : rejections sys = omap rejection_of tasks
}.

(** The collection holds well-built outlines with distinct keys, and as
    many renders more than [i0] as continuations ran with a measurement that
    passes the two tests. *)
Record collected (i0 : Internals) (sys : System) : Prop := mk_collected {
  col_good : good (internals sys);
  col_built : all_well_built (internals sys);
  col_console : console (internals sys) = console i0;
  col_renders : total_renders (internals sys)
                = (total_renders i0 + length (omap accepted_value (resumptions sys)))%nat
}.

(** What one task does, as far as the two invariants go. *)
Lemma system_state_spec t sys :
  coherent sys ->
  coherent (system_state sys t)
  /\ in_suspense (system_state sys t) ++ (fst <$> resumptions (system_state sys t))
     ≡ₚ omap requested [t] ++ in_suspense sys ++ (fst <$> resumptions sys)
  /\ hook_calls (system_state sys t) = hook_calls sys ++ omap hook_of [t]
  /\ rejections (system_state sys t) = rejections sys ++ omap rejection_of [t]
  /\ (t = stack_empty -> jobs (system_state sys t) = [])
  /\ (t = stack_empty -> suspended (system_state sys t) = suspended sys
                         /\ bridge (scheduler (system_state sys t)) = bridge (scheduler sys))
  /\ forall i0, collected i0 sys -> collected i0 (system_state sys t).
Proof.
  intros Hcoh.
  assert (Hhook : forall n,
            hook_call n = Some n -> rejection n = None -> resumed_with n = None ->
            coherent (with_notices (cons n) sys)
            /\ in_suspense (with_notices (cons n) sys) = in_suspense sys
            /\ resumptions (with_notices (cons n) sys) = resumptions sys
            /\ hook_calls (with_notices (cons n) sys) = hook_calls sys ++ [n]
            /\ rejections (with_notices (cons n) sys) = rejections sys).
  { intros n H1 H2 H3. split; [apply coherent_notice; [exact Hcoh|]|].
    - intros p f r v ->. discriminate.
    - unfold resumptions, hook_calls, rejections. cbn [notices with_notices].
      rewrite !omap_newest. cbn. rewrite H1, H2, H3, !app_nil_r. auto. }
  assert (Hsame : forall sys0 sys',
            internals sys' = internals sys0 -> notices sys' = notices sys0 ->
            resumptions sys' = resumptions sys0 /\ hook_calls sys' = hook_calls sys0
            /\ rejections sys' = rejections sys0
            /\ forall i0, collected i0 sys0 -> collected i0 sys').
  { intros sys0 sys' Hi Hn. unfold resumptions, hook_calls, rejections. rewrite Hn.
    split; [reflexivity|]. split; [reflexivity|]. split; [reflexivity|].
    intros i0 [C1 C2 C3 C4]. constructor; rewrite ?Hi; try assumption.
    unfold resumptions in C4 |- *. rewrite Hn. exact C4. }
  assert (Hcol : forall sys0 sys' i0,
            internals sys' = internals sys0 -> resumptions sys' = resumptions sys0 ->
            collected i0 sys0 -> collected i0 sys').
  { intros sys0 sys' i0 Hi Hr [C1 C2 C3 C4].
    constructor; rewrite ?Hi, ?Hr; assumption. }
  assert (Hcommit : forall hook n,
            hook_call n = Some n -> rejection n = None -> resumed_with n = None ->
            coherent (final_state (call_hook hook n sys))
            /\ in_suspense (final_state (call_hook hook n sys))
               ++ (fst <$> resumptions (final_state (call_hook hook n sys)))
               = in_suspense sys ++ (fst <$> resumptions sys)
            /\ hook_calls (final_state (call_hook hook n sys))
               = hook_calls sys ++ match hook with Some _ => [n] | None => [] end
            /\ rejections (final_state (call_hook hook n sys)) = rejections sys
            /\ forall i0, collected i0 sys -> collected i0 (final_state (call_hook hook n sys))).
  { intros hook n H1 H2 H3. rewrite call_hook_spec.
    destruct (Hhook n H1 H2 H3) as (K1 & K2 & K3 & K4 & K5).
    destruct hook as [[|e] |]; cbn [final_state]; rewrite ?K2, ?K3, ?app_nil_r.
    1, 2: split; [exact K1|]; split; [reflexivity|]; split; [exact K4|];
          split; [exact K5|]; intros i0; apply Hcol; [reflexivity | exact K3].
    auto 10. }
  unfold system_state. destruct t as [o | o f r | o | i |]; cbn [system_step instrumentNative
    handle_onCommitStart handle_onRender handle_onCommitFinish].
  - destruct (Hcommit (options_onCommitStart o) Hook_onCommitStart eq_refl eq_refl eq_refl)
      as (K1 & K2 & K3 & K4 & K5). unfold onCommitStart.
    split; [exact K1|]. split; [rewrite K2; reflexivity|].
    split; [rewrite K3; cbn; destruct (options_onCommitStart o); reflexivity|].
    split; [rewrite K4; cbn; symmetry; apply app_nil_r|].
    split; [discriminate|]. split; [discriminate | exact K5].
  - unfold onRender, async, try_catch, bind. rewrite call_hook_spec.
    assert (Hcall : forall sys0,
              coherent sys0 ->
              coherent (final_state (call_updateOutlines f r sys0))
              /\ in_suspense (final_state (call_updateOutlines f r sys0))
                 ++ (fst <$> resumptions (final_state (call_updateOutlines f r sys0)))
                 ≡ₚ match getNearestHostFiber f with
                     | null => []
                     | fiberObj _ _ _ _ _ => [mkContinuation f r]
                     end ++ in_suspense sys0 ++ (fst <$> resumptions sys0)
              /\ hook_calls (final_state (call_updateOutlines f r sys0)) = hook_calls sys0
              /\ rejections (final_state (call_updateOutlines f r sys0)) = rejections sys0
              /\ (forall i0, collected i0 sys0 ->
                    collected i0 (final_state (call_updateOutlines f r sys0)))
              /\ call_updateOutlines f r sys0
                 = Normal tt (final_state (call_updateOutlines f r sys0))).
    { intros sys0 Hcoh0.
      destruct (call_updateOutlines_spec f r sys0 Hcoh0) as (sys' & Hrun & C & Hi & Hn & Hs).
      rewrite Hrun. cbn [final_state].
      destruct (Hsame sys0 sys' Hi Hn) as (S1 & S2 & S3 & S4).
      rewrite S1, Hs, <- app_assoc. auto 10. }
    destruct (options_onRender o) as [[|e] |] eqn:Hopt.
    + destruct (Hhook (Hook_onRender f r) eq_refl eq_refl eq_refl)
        as (K1 & K2 & K3 & K4 & K5).
      destruct (Hcall _ K1) as (C1 & C2 & C3 & C4 & C5 & C6). rewrite C6. cbn [final_state].
      split; [exact C1|]. split; [rewrite C2, K2, K3; cbn; rewrite Hopt;
                              destruct (getNearestHostFiber f); reflexivity|].
      split; [rewrite C3, K4; cbn; rewrite Hopt; reflexivity|].
      split; [rewrite C4, K5; cbn; rewrite Hopt; symmetry; apply app_nil_r|].
      split; [discriminate|]. split; [discriminate|].
      intros i0 Hcollected. apply C5. revert Hcollected.
      apply Hcol; [reflexivity | exact K3].
    + destruct (Hhook (Hook_onRender f r) eq_refl eq_refl eq_refl)
        as (K1 & K2 & K3 & K4 & K5).
      cbn [final_state notice modify].
      assert (Hres : resumptions
                       (with_notices (cons (PromiseRejected async_onRender e))
                          (with_notices (cons (Hook_onRender f r)) sys))
                     = resumptions sys).
      { unfold resumptions. cbn [notices with_notices]. rewrite !omap_newest. cbn.
        rewrite !app_nil_r. reflexivity. }
      pose proof (fun i0 => Hcol sys (with_notices (cons (PromiseRejected async_onRender e))
                                       (with_notices (cons (Hook_onRender f r)) sys))
                              i0 eq_refl Hres) as Hcollected.
      set (sys1 := with_notices (cons (Hook_onRender f r)) sys) in *.
      split; [apply coherent_notice; [exact K1 | intros p f' r' v Heq; discriminate]|].
      unfold resumptions, hook_calls, rejections in *. cbn [notices with_notices].
      rewrite !omap_newest. cbn [omap list_omap hook_call rejection resumed_with].
      cbn [requested hook_of rejection_of]. rewrite Hopt, !app_nil_r.
      split; [change (in_suspense (with_notices (cons (PromiseRejected async_onRender e)) sys1))
                with (in_suspense sys1); rewrite K2, K3; reflexivity|].
      split; [rewrite K4; reflexivity|]. split; [rewrite K5; reflexivity|].
      split; [discriminate|]. split; [discriminate | exact Hcollected].
    + destruct (Hcall _ Hcoh) as (C1 & C2 & C3 & C4 & C5 & C6). rewrite C6. cbn [final_state].
      split; [exact C1|]. split; [rewrite C2; cbn; rewrite Hopt;
                              destruct (getNearestHostFiber f); reflexivity|].
      split; [rewrite C3; cbn; rewrite Hopt; symmetry; apply app_nil_r|].
      split; [rewrite C4; cbn; rewrite Hopt; symmetry; apply app_nil_r|].
      split; [discriminate|]. split; [discriminate | exact C5].
  - destruct (Hcommit (options_onCommitFinish o) Hook_onCommitFinish eq_refl eq_refl eq_refl)
      as (K1 & K2 & K3 & K4 & K5). unfold onCommitFinish.
    split; [exact K1|]. split; [rewrite K2; reflexivity|].
    split; [rewrite K3; cbn; destruct (options_onCommitFinish o); reflexivity|].
    split; [rewrite K4; cbn; symmetry; apply app_nil_r|].
    split; [discriminate|]. split; [discriminate | exact K5].
  - destruct (in_scheduler_step i sys Hcoh) as (sys' & Hrun & C & _ & Hi & Hn & Hs & _).
    rewrite Hrun. cbn [final_state].
    destruct (Hsame sys sys' Hi Hn) as (S1 & S2 & S3 & S4).
    split; [exact C|]. split; [rewrite S1, Hs; reflexivity|].
    split; [rewrite S2; cbn; symmetry; apply app_nil_r|].
    split; [rewrite S3; cbn; symmetry; apply app_nil_r|].
    split; [discriminate|]. split; [discriminate | exact S4].
  - unfold microtasks.
    destruct (run_jobs_spec (jobs sys) sys Hcoh eq_refl)
      as (sys' & extra & Hrun & C & Hbridge & Hsusp & Hjobs & Hres & Hfst & Hhooks & Hrej
          & Hcoll).
    rewrite Hrun. cbn [final_state].
    split; [exact C|]. split.
    { unfold in_suspense. rewrite Hjobs, Hsusp, Hres, fmap_app, Hfst. cbn.
      rewrite app_nil_r, <- !app_assoc. apply Permutation_app_head, Permutation_app_comm. }
    split; [rewrite Hhooks; cbn; symmetry; apply app_nil_r|].
    split; [rewrite Hrej; cbn; symmetry; apply app_nil_r|].
    split; [intros _; exact Hjobs|]. split; [auto|].
    intros i0 [C1 C2 C3 C4]. destruct (Hcoll C1 C2) as (G & B & Hc & Ht).
    constructor; [exact G | exact B | congruence |].
    rewrite Ht, C4, Hres, omap_app, length_app. lia.
Qed.

Lemma system_run_app tasks t sys :
  system_run (tasks ++ [t]) sys = system_state (system_run tasks sys) t.
Proof. unfold system_run. rewrite fold_left_app. reflexivity. Qed.

Lemma coherent_boot i : coherent (boot i).
Proof.
  constructor; cbn.
  - apply steady_init.
  - intros p k Hp. rewrite lookup_empty in Hp. discriminate.
  - constructor.
  - intros p f r v Hin. inversion Hin.
Qed.

Lemma system_run_tracked tasks i :
  tracked tasks (system_run tasks (boot i)).
Proof.
  induction tasks as [|t tasks IH] using rev_ind.
  - constructor; [apply coherent_boot | | reflexivity | reflexivity].
    unfold in_suspense. cbn. rewrite map_to_list_empty. reflexivity.
  - rewrite system_run_app. destruct IH as [C R H J].
    destruct (system_state_spec t _ C) as (C' & R' & H' & J' & _).
    constructor; [exact C' | | |].
    + rewrite R', omap_app, R. apply Permutation_app_comm.
    + rewrite H', omap_app, H. reflexivity.
    + rewrite J', omap_app, J. reflexivity.
Qed.

Lemma system_run_collected tasks i :
  good i -> all_well_built i -> collected i (system_run tasks (boot i)).
Proof.
  intros Hgood Hbuilt. induction tasks as [|t tasks IH] using rev_ind.
  - constructor; cbn; auto.
  - rewrite system_run_app.
    apply (system_state_spec t _ (tr_coherent _ _ (system_run_tracked tasks i))), IH.
Qed.

(** X12.  The instrumented module keeps the collection sound.  Whatever the
    instrumentation, the host and other callers of [measureFiber] do, and
    whenever the job queue is run, a collection of well-built outlines with
    distinct keys stays one; nothing is logged; and the number of renders
    the collection holds has grown by the number of times [updateOutlines]
    went on after its [await] with a measurement that is not null and has a
    truthy [pageX]. *)
Theorem instrumented_collection_stays_sound (tasks : list Task) (i : Internals) :
  good i -> all_well_built i ->
  good (internals (system_run tasks (boot i)))
  /\ all_well_built (internals (system_run tasks (boot i)))
  /\ console (internals (system_run tasks (boot i))) = console i
  /\ total_renders (internals (system_run tasks (boot i)))
     = (total_renders i
        + length (omap accepted_value (resumptions (system_run tasks (boot i)))))%nat.
Proof.
  intros Hgood Hbuilt.
  destruct (system_run_collected tasks i Hgood Hbuilt) as [C1 C2 C3 C4]. auto.
Qed.

(** X13.  No render is lost or handled twice.  After any tasks, the renders
    whose [onRender] hook did not throw and whose fiber has a host fiber are,
    counted with repetition, the continuations of [updateOutlines] that wait
    (for their promise, or for the job queue to be run) and those that ran.
    A continuation that waits for its promise belongs to a request that is in
    the queue or with the host, and one that ran was given the value its
    promise holds. *)
Theorem no_render_is_lost (tasks : list Task) (i : Internals) :
  omap requested tasks
    ≡ₚ in_suspense (system_run tasks (boot i))
       ++ (fst <$> resumptions (system_run tasks (boot i)))
  /\ (forall p k,
        suspended (system_run tasks (boot i)) !! p = Some k ->
        p ∈ resolve <$> waiting (scheduler (system_run tasks (boot i))))
  /\ (forall p f r v,
        Resumed p f r v ∈ notices (system_run tasks (boot i)) ->
        promises (scheduler (system_run tasks (boot i))) !! p = Some (Fulfilled v)).
Proof.
  destruct (system_run_tracked tasks i) as [[Hsteady Hsusp Hjobs Hres] Hreq _ _].
  split; [exact Hreq|]. split; [|exact Hres].
  intros p k Hp. destruct (Hsusp p k Hp) as [Hpending Hlt].
  destruct Hsteady as (_ & _ & Hacc).
  destruct (Hacc p Hlt) as [[st Hst] | Hw]; [congruence | exact Hw].
Qed.

(** X15.  The hooks are called as the handlers are.  After any tasks, the
    hook calls made are, in order, one for every call of a handler whose
    hook is set in the options, whether the fiber has a host fiber or not
    and whatever the scheduler did; and the promises rejected are, in order,
    those of [onRender] whose hook threw: the promise of [updateOutlines] is
    never rejected. *)
Theorem hooks_follow_the_handlers (tasks : list Task) (i : Internals) :
  hook_calls (system_run tasks (boot i)) = omap hook_of tasks
  /\ rejections (system_run tasks (boot i)) = omap rejection_of tasks.
Proof.
  destruct (system_run_tracked tasks i) as [_ _ Hhooks Hrej]. auto.
Qed.

(** *** One render, from the handler to the collection *)

(** The handler on the module as it starts: the host is asked, and the
    continuation waits for promise 0. *)
Lemma rendered_from_boot options f r call i :
  (forall e, options_onRender options <> Some (hook_throws e)) ->
  getNearestHostFiber f <> null ->
  first_capability f = Some call ->
  exists ns,
    system_state (boot i) (rendered options f r)
    = mkSystem (asked call (mkRequest f None 0%nat)
                  (with_clockReads S
                     (shifted (mkRequest f None 0%nat) [] (pushed f None init))))
               i {[0%nat := mkContinuation f r]} [] ns
    /\ omap resumed_with (reverse ns) = [].
Proof.
  intros Hhook Hhost Hcap.
  assert (Hask : processQueue (pushed f None init)
                 = Normal tt (asked call (mkRequest f None 0%nat)
                                (with_clockReads S
                                   (shifted (mkRequest f None 0%nat) []
                                      (pushed f None init))))).
  { apply processQueue_ask; [reflexivity | reflexivity | | exact Hcap].
    destruct f; reflexivity. }
  assert (Hcall : forall ns,
            call_updateOutlines f r (mkSystem init i ∅ [] ns)
            = Normal tt
                (mkSystem (asked call (mkRequest f None 0%nat)
                             (with_clockReads S
                                (shifted (mkRequest f None 0%nat) [] (pushed f None init))))
                          i {[0%nat := mkContinuation f r]} [] ns)).
  { intros ns. unfold call_updateOutlines, async, try_catch, bind, in_scheduler.
    rewrite updateOutlines_request_spec.
    destruct (getNearestHostFiber f) as [|j sn c sib alt]; [congruence|].
    cbn [scheduler]. rewrite measureFiber_spec, Hask. reflexivity. }
  unfold system_state. cbn [system_step instrumentNative handle_onRender].
  unfold onRender, async, try_catch, bind. rewrite call_hook_spec.
  destruct (options_onRender options) as [[|e] |] eqn:Hopt.
  - eexists. unfold boot, with_notices. cbn [scheduler internals suspended jobs notices].
    rewrite Hcall. split; reflexivity.
  - destruct (Hhook e eq_refl).
  - eexists. unfold boot. rewrite Hcall. split; reflexivity.
Qed.

(** The reaction job of a fulfilled promise, when the rest of
    [updateOutlines] returns. *)
Lemma resume_fulfilled j v i' sys :
  job_state j = Fulfilled v ->
  updateOutlines (awaiting_fiber (job_continuation j)) (awaiting_render (job_continuation j))
    v (Date_now (clockReads (scheduler sys))) (internals sys) = Normal tt i' ->
  resume_updateOutlines j sys
  = Normal tt
      (mkSystem (if reads_clock v (internals sys) then with_clockReads S (scheduler sys)
                 else scheduler sys)
                i' (suspended sys) (jobs sys)
                (Resumed (job_promise j) (awaiting_fiber (job_continuation j))
                         (awaiting_render (job_continuation j)) v :: notices sys)).
Proof.
  intros Hstate Hrun. destruct sys as [s i susp js ns]. cbn in Hrun.
  unfold resume_updateOutlines, async, try_catch. rewrite Hstate.
  unfold bind, notice, modify, in_internals, with_notices.
  cbn [scheduler internals suspended jobs notices].
  destruct (reads_clock v i); unfold with_scheduler;
    cbn [scheduler internals suspended jobs notices]; rewrite Hrun; reflexivity.
Qed.

(** X16.  One render, from the handler to the collection.  On the module as
    it starts, with a collection of native outlines with distinct keys: when
    [onRender] is called for a fiber that has a host fiber and a measurable
    node on its first-child chain, with a hook that does not throw, the host
    answers the call with a geometry whose [pageX] is truthy, and the job
    queue is run, then [updateOutlines] has gone on exactly once, with the
    geometry the host reported; the collection has an outline under the key
    of that geometry, and its history is the history that key had followed by
    the render. *)
Theorem render_ends_as_an_outline options f r call x y w h px py i :
  good i ->
  (forall e, options_onRender options <> Some (hook_throws e)) ->
  getNearestHostFiber f <> null ->
  first_capability f = Some call ->
  truthy (pageX (reported call x y w h px py)) = true ->
  resumptions (system_run (one_render options f r x y w h px py) (boot i))
  = [(mkContinuation f r, Some (reported call x y w h px py))]
  /\ in_suspense (system_run (one_render options f r x y w h px py) (boot i)) = []
  /\ bridge (scheduler (system_run (one_render options f r x y w h px py) (boot i))) = []
  /\ present (internals (system_run (one_render options f r x y w h px py) (boot i)))
             (getKey (reported call x y w h px py))
  /\ renders_of (internals (system_run (one_render options f r x y w h px py) (boot i)))
                (getKey (reported call x y w h px py))
     = renders_of i (getKey (reported call x y w h px py)) ++ [r].
Proof.
  intros Hgood Hhook Hhost Hcap Htruthy.
  destruct (rendered_from_boot options f r call i Hhook Hhost Hcap) as (ns & Hstep1 & Hns).
  unfold one_render, system_run. cbn [fold_left]. rewrite Hstep1.
  set (m := reported call x y w h px py) in *.
  set (r0 := mkRequest f None 0%nat).
  set (s1 := asked call r0 (with_clockReads S (shifted r0 [] (pushed f None init)))).
  destruct f as [|j sn c sib alt]; [discriminate|].
  assert (Hreply : reply 0 x y w h px py s1
                   = Normal tt (answered r0 (Some m)
                                  (stored j alt m (replied 0 (mkOutstanding call r0) s1)))).
  { rewrite (reply_spec 0 (mkOutstanding call r0) j sn c sib alt) by reflexivity.
    cbn zeta. apply processQueue_empty. destruct alt; reflexivity. }
  assert (Hstep2 :
    system_state (mkSystem s1 i {[0%nat := mkContinuation (fiberObj j sn c sib alt) r]} [] ns)
                 (scheduler_input (host_reply 0 x y w h px py))
    = mkSystem (answered r0 (Some m) (stored j alt m (replied 0 (mkOutstanding call r0) s1)))
               i ∅ [mkJob 0%nat (Fulfilled (Some m))
                      (mkContinuation (fiberObj j sn c sib alt) r)] ns).
  { unfold system_state. cbn [system_step step]. unfold in_scheduler. cbn [scheduler].
    rewrite Hreply. cbn [final_state].
    assert (Hnew : new_events s1 (answered r0 (Some m)
                     (stored j alt m (replied 0 (mkOutstanding call r0) s1)))
                   = [HostReplied 0%nat; Resolved 0%nat (Some m)])
      by (destruct alt; reflexivity).
    rewrite Hnew. cbn [trigger with_scheduler suspended].
    rewrite lookup_singleton_eq. cbn [trigger].
    unfold with_jobs, with_suspended, with_scheduler.
    cbn [scheduler internals suspended jobs notices app].
    rewrite delete_singleton_eq. reflexivity. }
  rewrite Hstep2. clear Hstep1 Hstep2 Hreply.
  set (s2 := answered r0 (Some m) (stored j alt m (replied 0 (mkOutstanding call r0) s1))).
  set (k := mkContinuation (fiberObj j sn c sib alt) r).
  set (now := Date_now (clockReads s2)).
  destruct (on_event_good (mkRenderEvent (fiberObj j sn c sib alt) r (Some m) now) i Hgood)
    as (i' & Hrun & _ & Hren & Hpres).
  change (on_event (mkRenderEvent (fiberObj j sn c sib alt) r (Some m) now))
    with (updateOutlines (fiberObj j sn c sib alt) r (Some m) now) in Hrun.
  assert (Hfor : render_for (getKey m)
                   (mkRenderEvent (fiberObj j sn c sib alt) r (Some m) now) = Some r).
  { unfold render_for, accepted. cbn. rewrite Htruthy, decide_True by reflexivity.
    reflexivity. }
  assert (Hbridge : bridge s2 = []) by (destruct alt; reflexivity).
  unfold system_state. cbn [system_step]. unfold microtasks. cbn [jobs run_jobs].
  unfold bind, modify.
  rewrite (resume_fulfilled (mkJob 0%nat (Fulfilled (Some m)) k) (Some m) i'
             (with_jobs (fun _ => []) (mkSystem s2 i ∅ [mkJob 0%nat (Fulfilled (Some m)) k] ns))
             eq_refl Hrun).
  cbn [ret final_state with_jobs scheduler internals suspended jobs notices job_promise
       job_continuation awaiting_fiber awaiting_render k].
  split; [unfold resumptions; cbn [notices]; rewrite omap_newest, Hns; reflexivity|].
  split; [unfold in_suspense; cbn [suspended jobs]; rewrite map_to_list_empty;
          reflexivity|].
  split; [cbn [scheduler]; destruct (reads_clock (Some m) i); exact Hbridge|].
  split; [apply Hpres; right; rewrite Hfor; eauto|].
  rewrite Hren, Hfor; reflexivity.
Qed.

(** *** The collection is what the aggregator makes of the resumptions *)

Lemma aggregate_app evs1 evs2 s s1 :
  aggregate evs1 s = Normal tt s1 -> aggregate (evs1 ++ evs2) s = aggregate evs2 s1.
Proof.
  revert s. induction evs1 as [|e rest IH]; intros s Hrun.
  - injection Hrun as <-. reflexivity.
  - cbn [app aggregate] in *. unfold bind in *.
    destruct (on_event e s) as [[] s2 | err s2]; [apply IH, Hrun | discriminate].
Qed.

(** A property of the collection and the resumptions that the rest of
    [updateOutlines] keeps is kept by every task. *)
Lemma run_jobs_collection
    (Q : Internals -> list (Continuation * option MeasurementValue) -> Prop) :
  (forall i rs k v now i',
     Q i rs ->
     updateOutlines (awaiting_fiber k) (awaiting_render k) v now i = Normal tt i' ->
     Q i' (rs ++ [(k, v)])) ->
  forall pending sys,
    Q (internals sys) (resumptions sys) ->
    Q (internals (final_state (run_jobs pending sys)))
      (resumptions (final_state (run_jobs pending sys))).
Proof.
  intros Hstep. induction pending as [|j rest IH]; intros sys HQ; [exact HQ|].
  cbn [run_jobs]. unfold bind, modify.
  destruct j as [p [v | e] k].
  - destruct (updateOutlines_returns (awaiting_fiber k) (awaiting_render k) v
                (Date_now (clockReads (scheduler (with_jobs (fun _ => rest) sys))))
                (internals (with_jobs (fun _ => rest) sys))) as (i' & Hrun).
    rewrite (resume_fulfilled (mkJob p (Fulfilled v) k) v i' _ eq_refl Hrun).
    apply IH. cbn [internals]. unfold resumptions.
    cbn [notices with_jobs job_promise job_continuation].
    rewrite omap_newest. cbn [omap list_omap resumed_with].
    destruct k as [f r]. cbn [awaiting_fiber awaiting_render] in *.
    exact (Hstep _ _ (mkContinuation f r) v _ i' HQ Hrun).
  - unfold resume_updateOutlines, async, try_catch. cbn [job_state].
    unfold throw, notice, modify. apply IH. unfold resumptions.
    cbn [internals notices with_notices with_jobs]. rewrite omap_newest. cbn.
    rewrite app_nil_r. exact HQ.
Qed.

Lemma system_state_collection
    (Q : Internals -> list (Continuation * option MeasurementValue) -> Prop) :
  (forall i rs k v now i',
     Q i rs ->
     updateOutlines (awaiting_fiber k) (awaiting_render k) v now i = Normal tt i' ->
     Q i' (rs ++ [(k, v)])) ->
  forall t sys,
    coherent sys ->
    Q (internals sys) (resumptions sys) ->
    Q (internals (system_state sys t)) (resumptions (system_state sys t)).
Proof.
  intros Hstep t sys Hcoh HQ.
  assert (Hnotice : forall n sys0,
            resumed_with n = None ->
            resumptions (with_notices (cons n) sys0) = resumptions sys0).
  { intros n sys0 Hn. unfold resumptions. cbn [notices with_notices].
    rewrite omap_newest. cbn. rewrite Hn. apply app_nil_r. }
  assert (Hhook : forall hook n,
            resumed_with n = None ->
            Q (internals (final_state (call_hook hook n sys)))
              (resumptions (final_state (call_hook hook n sys)))).
  { intros hook n Hn. rewrite call_hook_spec.
    destruct hook as [[|e] |]; cbn [final_state]; rewrite ?Hnotice by exact Hn; exact HQ. }
  unfold system_state. destruct t as [o | o f r | o | i |];
    cbn [system_step instrumentNative handle_onCommitStart handle_onRender
         handle_onCommitFinish].
  - apply Hhook. reflexivity.
  - unfold onRender, async, try_catch, bind. rewrite call_hook_spec.
    assert (Hcall : forall sys0,
              coherent sys0 -> internals sys0 = internals sys ->
              resumptions sys0 = resumptions sys ->
              Q (internals (final_state
                    match call_updateOutlines f r sys0 with
                    | Normal a s' => Normal a s'
                    | Thrown e s' => notice (PromiseRejected async_onRender e) s'
                    end))
                (resumptions (final_state
                    match call_updateOutlines f r sys0 with
                    | Normal a s' => Normal a s'
                    | Thrown e s' => notice (PromiseRejected async_onRender e) s'
                    end))).
    { intros sys0 Hcoh0 Hi Hr.
      destruct (call_updateOutlines_spec f r sys0 Hcoh0) as (sys' & Hrun & _ & Hi' & Hn' & _).
      rewrite Hrun. cbn [final_state]. unfold resumptions in *. rewrite Hi', Hn', Hi, Hr.
      exact HQ. }
    destruct (options_onRender o) as [[|e] |].
    + apply Hcall; [|reflexivity | apply Hnotice; reflexivity].
      apply coherent_notice; [exact Hcoh | intros p f' r' v Heq; discriminate].
    + cbn [final_state notice modify]. rewrite !Hnotice by reflexivity. exact HQ.
    + apply Hcall; [exact Hcoh | reflexivity | reflexivity].
  - apply Hhook. reflexivity.
  - destruct (in_scheduler_step i sys Hcoh) as (sys' & Hrun & _ & _ & Hi & Hn & _).
    rewrite Hrun. cbn [final_state]. unfold resumptions in *. rewrite Hi, Hn. exact HQ.
  - unfold microtasks. apply run_jobs_collection; assumption.
Qed.

(** X17.  The collection is what the aggregator makes of the resumptions.
    After any tasks, [ReactScanInternals] is the collection the module
    started with after the render events of the continuations of
    [updateOutlines] that ran, each with the value of its promise, in the
    order in which they ran: the order in which the measurements were
    resolved, whatever the order of the calls of [onRender] was. *)
Theorem collection_is_the_aggregate_of_the_resumptions (tasks : list Task) (i : Internals) :
  exists evs,
    aggregate evs i = Normal tt (internals (system_run tasks (boot i)))
    /\ resumption_of <$> evs = resumptions (system_run tasks (boot i)).
Proof.
  induction tasks as [|t tasks IH] using rev_ind.
  - exists []. split; reflexivity.
  - rewrite system_run_app.
    apply (system_state_collection
             (fun i' rs => exists evs, aggregate evs i = Normal tt i'
                                       /\ resumption_of <$> evs = rs));
      [|apply (system_run_tracked tasks i) | exact IH].
    intros i1 rs k v now i2 (evs & Hrun & Hevs) Hlast.
    exists (evs ++ [mkRenderEvent (awaiting_fiber k) (awaiting_render k) v now]). split.
    + rewrite (aggregate_app _ _ _ _ Hrun). cbn [aggregate]. unfold bind, on_event.
      cbn [ev_fiber ev_render ev_measurement ev_now]. rewrite Hlast. reflexivity.
    + rewrite fmap_app, Hevs. destruct k; reflexivity.
Qed.

(** ** The scheduler with callbacks that throw *)

Lemma call_callback'_spec cb v s :
  call_callback' cb v s =
  match cb with
  | Some c =>
      match callback_throws c v with
      | Some e => Thrown e (called cb v s)
      | None => Normal tt (called cb v s)
      end
  | None => Normal tt s
  end.
Proof.
  destruct cb as [c |]; [|reflexivity]. cbn. unfold bind, emit, modify.
  destruct (callback_throws c v); reflexivity.
Qed.

Lemma executeMeasurement'_spec k r s :
  executeMeasurement' k r s =
  match fresh_entry (Date_now (clockReads s)) (cache_lookup s (fiber r)) with
  | Some c => after_callback k r (Some (measurement c)) (with_clockReads S s)
  | None =>
      match first_capability (fiber r) with
      | Some call => Normal tt (asked call r (with_clockReads S s))
      | None => after_callback k r None (with_clockReads S s)
      end
  end.
Proof.
  unfold executeMeasurement', bind at 1, Date_now_. cbn beta iota.
  assert (Hget : WeakMap_get (fiber r) (with_clockReads S s)
                 = Normal (cache_lookup s (fiber r)) (with_clockReads S s)).
  { destruct (fiber r); reflexivity. }
  assert (Hcall : forall v s0,
            (call_callback' (callback r) v ;;
             call_resolve (resolve r) v ;;
             modify (with_pendingCount Z.pred) ;;
             k)%js s0
            = after_callback k r v s0).
  { intros v s0. unfold bind at 1. rewrite call_callback'_spec. unfold after_callback, thrown_by.
    destruct r as [f [cb |] p]; cbn [callback]; [destruct (callback_throws cb v)|];
      reflexivity. }
  unfold bind at 1. rewrite Hget. cbn beta iota.
  destruct (fresh_entry _ _) as [c |]; [apply Hcall|].
  unfold bind at 1. rewrite measure_loop_spec.
  destruct (first_capability (fiber r)); [reflexivity | apply Hcall].
Qed.

Lemma drain'_cons r rest s :
  drain' (r :: rest) s =
  if MAX_PENDING <=? pendingCount s then Normal tt s
  else executeMeasurement' (drain' rest) r (shifted r rest s).
Proof. reflexivity. Qed.

Lemma handleMeasurement'_spec i sn c sib alt cb p x y w h px py s :
  handleMeasurement' (mkRequest (fiberObj i sn c sib alt) cb p) x y w h px py s =
  after_callback processQueue' (mkRequest (fiberObj i sn c sib alt) cb p)
    (Some (mkMeasurementValue w h px py x y))
    (stored i alt (mkMeasurementValue w h px py x y) s).
Proof.
  unfold after_callback, thrown_by.
  destruct alt as [a |], cb as [cb |]; cbn;
    try (unfold bind, emit, modify; cbn;
         destruct (callback_throws cb (Some (mkMeasurementValue w h px py x y))));
    reflexivity.
Qed.

Lemma reply'_none k x y w h px py s :
  bridge s !! k = None -> reply' k x y w h px py s = Normal tt s.
Proof. intros H. unfold reply'. rewrite H. reflexivity. Qed.

Lemma reply'_spec k o i sn c sib alt x y w h px py s :
  bridge s !! k = Some o ->
  fiber (closure o) = fiberObj i sn c sib alt ->
  reply' k x y w h px py s =
  after_callback processQueue' (closure o)
    (Some (reported (host_call o) x y w h px py))
    (stored i alt (reported (host_call o) x y w h px py) (replied k o s)).
Proof.
  intros Hk Hf. unfold reply'. rewrite Hk.
  destruct o as [call [f cb p]]. cbn in Hf. subst f.
  unfold bind at 1 2, modify at 1, emit at 1, modify at 1. cbn beta iota.
  destruct call; cbn [host_call closure]; rewrite handleMeasurement'_spec; reflexivity.
Qed.

Lemma measureFiber'_spec f cb s :
  measureFiber' f cb s =
  match processQueue' (pushed f cb s) with
  | Normal _ s' => Normal (nextPromise s) s'
  | Thrown e s' =>
      Normal (nextPromise s)
        (with_promises (fun ps =>
           match ps !! nextPromise s with
           | Some _ => ps
           | None => <[nextPromise s := Rejected e]> ps
           end) s')
  end.
Proof. reflexivity. Qed.

(** *** With callbacks that return, it is the scheduler above *)

Lemma after_callback_returns k r v s :
  returns_normally (callback r) -> after_callback k r v s = k (answered r v s).
Proof. intros H. unfold after_callback. rewrite H. reflexivity. Qed.

Lemma drain'_agrees q : forall s,
  Forall (fun r => returns_normally (callback r)) q -> drain' q s = drain q s.
Proof.
  induction q as [|r rest IH]; intros s Hq; [reflexivity|].
  apply Forall_cons in Hq as [Hr Hrest].
  rewrite drain'_cons, drain_cons. destruct (MAX_PENDING <=? pendingCount s); [reflexivity|].
  rewrite executeMeasurement'_spec, executeMeasurement_spec.
  destruct (fresh_entry _ _);
    [rewrite after_callback_returns by exact Hr; apply IH, Hrest|].
  destruct (first_capability _); [reflexivity|].
  rewrite after_callback_returns by exact Hr. apply IH, Hrest.
Qed.

Lemma processQueue'_agrees s :
  Forall (fun r => returns_normally (callback r)) (queue s) ->
  processQueue' s = processQueue s.
Proof. apply drain'_agrees. Qed.

Lemma calm_queue s : calm s -> Forall (fun r => returns_normally (callback r)) (queue s).
Proof. unfold calm, waiting. rewrite Forall_app. tauto. Qed.

Lemma measureFiber'_agrees f cb s :
  calm s -> returns_normally cb -> measureFiber' f cb s = measureFiber f cb s.
Proof.
  intros Hs Hcb. rewrite measureFiber'_spec, measureFiber_spec, processQueue'_agrees;
    [reflexivity|].
  cbn. apply Forall_app. split; [apply calm_queue, Hs|]. constructor; [exact Hcb | constructor].
Qed.

Lemma reply'_agrees k x y w h px py s :
  calm s -> reply' k x y w h px py s = reply k x y w h px py s.
Proof.
  intros Hs. destruct (bridge s !! k) as [o |] eqn:Hk.
  - assert (Ho : returns_normally (callback (closure o))).
    { unfold calm, waiting in Hs. rewrite Forall_app, Forall_fmap in Hs.
      destruct Hs as [_ Hb]. rewrite Forall_forall in Hb.
      exact (Hb o (list_elem_of_lookup_2 _ _ _ Hk)). }
    destruct (fiber (closure o)) as [|i sn c sib alt] eqn:Hf.
    + unfold reply', reply. rewrite Hk. destruct o as [call [f cb p]]. cbn in Hf. subst f.
      destruct call; reflexivity.
    + rewrite (reply'_spec k o i sn c sib alt), (reply_spec k o i sn c sib alt) by assumption.
      cbn zeta. rewrite after_callback_returns by exact Ho.
      apply processQueue'_agrees. apply calm_queue in Hs.
      destruct alt; exact Hs.
  - rewrite reply_none, reply'_none by assumption. reflexivity.
Qed.

Lemma step'_agrees i s : calm s -> calm_input i -> step' i s = step i s.
Proof.
  intros Hs Hi. destruct i as [f cb | k x y w h px py]; cbn [step' step].
  - unfold bind. rewrite measureFiber'_agrees by assumption. reflexivity.
  - apply reply'_agrees, Hs.
Qed.

(** The requests that wait after a step waited before it or came with it. *)
Lemma drain_calm q : forall s,
  wf s -> calm s -> queue s = q ->
  exists s', drain q s = Normal tt s' /\ calm s'.
Proof.
  apply drain_invariant.
  - intros r rest v s _ Hs Hq _. unfold calm, waiting in *. rewrite Hq in Hs. cbn in *.
    apply Forall_cons in Hs as [_ Hs]. exact Hs.
  - intros r rest call s _ Hs Hq _. unfold calm in *.
    rewrite (waiting_asked call r rest s Hq). exact Hs.
Qed.

Lemma step_calm i s : wf s -> calm s -> calm_input i -> calm (step_state s i).
Proof.
  intros Hwf Hs Hi. unfold step_state. destruct i as [f cb | k x y w h px py]; cbn [step].
  - unfold bind. rewrite measureFiber_spec.
    assert (Hpushed : calm (pushed f cb s)).
    { unfold calm, waiting in *. cbn. rewrite <- app_assoc, Forall_app.
      rewrite Forall_app in Hs. destruct Hs as [Hq Hb]. split; [exact Hq|].
      cbn. constructor; [exact Hi | exact Hb]. }
    destruct (drain_calm (queue (pushed f cb s)) (pushed f cb s) (wf_pushed f cb s Hwf)
                Hpushed eq_refl) as (s' & Hrun & Hs').
    unfold processQueue. rewrite Hrun. exact Hs'.
  - destruct (bridge s !! k) as [o |] eqn:Hk.
    + pose proof (wf_fibers s Hwf) as Hfib. rewrite Forall_forall in Hfib.
      specialize (Hfib o (list_elem_of_lookup_2 _ _ _ Hk)).
      destruct (fiber (closure o)) as [|j sn c sib alt] eqn:Hf; [congruence|].
      rewrite (reply_spec k o j sn c sib alt) by assumption. cbn zeta.
      assert (Hanswered : calm (answered (closure o)
                                  (Some (reported (host_call o) x y w h px py))
                                  (stored j alt (reported (host_call o) x y w h px py)
                                     (replied k o s)))).
      { unfold calm in *.
        assert (Hperm : waiting s ≡ₚ closure o :: waiting
                  (answered (closure o) (Some (reported (host_call o) x y w h px py))
                     (stored j alt (reported (host_call o) x y w h px py) (replied k o s)))).
        { unfold waiting. destruct alt; cbn.
          all: rewrite list_fmap_delete, Permutation_middle; apply Permutation_app_head.
          all: apply (delete_Permutation (closure <$> bridge s) k (closure o)).
          all: rewrite list_lookup_fmap, Hk; reflexivity. }
        rewrite Hperm in Hs. apply Forall_cons in Hs as [_ Hs]. exact Hs. }
      destruct (drain_calm _ _
                  (wf_reply k o j alt (reported (host_call o) x y w h px py) s Hwf Hk)
                  Hanswered eq_refl)
        as (s' & Hrun & Hs').
      unfold processQueue. rewrite Hrun. exact Hs'.
    + rewrite reply_none by assumption. exact Hs.
Qed.

Lemma run'_agrees inputs : forall s,
  wf s -> calm s -> Forall calm_input inputs ->
  run' inputs s = run inputs s /\ calm (run inputs s).
Proof.
  induction inputs as [|i inputs IH]; intros s Hwf Hs Hinputs; [auto|].
  apply Forall_cons in Hinputs as [Hi Hinputs]. cbn [run' run fold_left].
  assert (Heq : step_state' s i = step_state s i)
    by (unfold step_state', step_state; rewrite step'_agrees by assumption; reflexivity).
  rewrite Heq. apply IH; [apply step_state_wf, Hwf | apply step_calm; assumption | exact Hinputs].
Qed.

Lemma calm_init : calm init.
Proof. constructor. Qed.


(** *** Whatever the callbacks do *)

(** [processQueue] continues the state it is entered in, whether it returns
    or a callback throws. *)
Lemma drain'_continues q : forall s, continues s (final_state (drain' q s)).
Proof.
  induction q as [|r rest IH]; intros s; [apply continues_refl|].
  rewrite drain'_cons. destruct (MAX_PENDING <=? pendingCount s); [apply continues_refl|].
  rewrite executeMeasurement'_spec.
  assert (Hafter : forall v,
            continues s (final_state
              (after_callback (drain' rest) r v (with_clockReads S (shifted r rest s))))).
  { intros v. unfold after_callback. destruct (thrown_by (callback r) v) as [e |].
    - cbn [final_state]. split; cbn; auto.
      exists (callback_events (callback r) v ++ [Shifted (resolve r)]).
      rewrite <- app_assoc. reflexivity.
    - eapply continues_trans; [apply (continues_answered r rest v) | apply IH]. }
  destruct (fresh_entry _ _) as [c |]; [apply Hafter|].
  destruct (first_capability (fiber r)) as [call |]; [|apply Hafter].
  cbn [final_state]. apply continues_asked.
Qed.

(** C8, as the code has it.  When the host answers the call made for a
    request whose promise is pending, the geometry built from its answer is
    stored in the cache under the request's fiber with the reading of the
    clock at that moment, and also under the fiber's alternate, with the
    next reading, when there is one; then the callback, if any, is called
    with that geometry.  When the callback returns (or there is none), the
    promise is resolved with the geometry, and nothing done afterwards in
    the same step touches the cache or the promise; the step returns to the
    host when the callbacks of the requests that wait return too.  When the
    callback throws, the exception goes to the host: the promise stays
    pending, [pendingCount] is not decremented and the queue is not
    processed. *)
Theorem reply_caches_then_settles k o i sn c sib alt x y w h px py s :
  bridge s !! k = Some o -> fiber (closure o) = fiberObj i sn c sib alt ->
  promises s !! resolve (closure o) = None ->
  exists s',
    final_state (reply' k x y w h px py s) = s'
    /\ measurementCache s' =
        match alt with
        | Some a =>
            <[a := mkCacheEntry (reported (host_call o) x y w h px py)
                                (Date_now (S (clockReads s)))]>
              (<[i := mkCacheEntry (reported (host_call o) x y w h px py)
                                   (Date_now (clockReads s))]> (measurementCache s))
        | None =>
            <[i := mkCacheEntry (reported (host_call o) x y w h px py)
                                (Date_now (clockReads s))]> (measurementCache s)
        end
    /\ (exists later,
          trace s' =
          later
          ++ callback_events (callback (closure o))
               (Some (reported (host_call o) x y w h px py))
          ++ HostReplied (resolve (closure o)) :: trace s)
    /\ (thrown_by (callback (closure o)) (Some (reported (host_call o) x y w h px py)) = None ->
        promises s' !! resolve (closure o)
        = Some (Fulfilled (Some (reported (host_call o) x y w h px py)))
        /\ (exists later,
              trace s' =
              later ++
              Resolved (resolve (closure o)) (Some (reported (host_call o) x y w h px py))
              :: callback_events (callback (closure o))
                   (Some (reported (host_call o) x y w h px py))
              ++ HostReplied (resolve (closure o)) :: trace s)
        /\ (wf s -> calm s -> reply' k x y w h px py s = Normal tt s'))
    /\ (forall e,
          thrown_by (callback (closure o)) (Some (reported (host_call o) x y w h px py))
          = Some e ->
          reply' k x y w h px py s = Thrown e s'
          /\ promises s' = promises s
          /\ pendingCount s' = pendingCount s
          /\ queue s' = queue s
          /\ trace s' =
             callback_events (callback (closure o))
               (Some (reported (host_call o) x y w h px py))
             ++ HostReplied (resolve (closure o)) :: trace s).
Proof.
  intros Hk Hf Hpending. eexists. split; [reflexivity|].
  rewrite (reply'_spec k o i sn c sib alt) by assumption.
  set (coords := reported (host_call o) x y w h px py).
  unfold after_callback.
  destruct (thrown_by (callback (closure o)) (Some coords)) as [e |] eqn:Hthrown.
  - cbn [final_state]. split; [cbn; rewrite stored_cache; reflexivity|].
    split; [exists []; destruct alt; reflexivity|].
    split; [discriminate|]. intros e' He'. injection He' as <-.
    split; [reflexivity|]. repeat split; destruct alt; reflexivity.
  - unfold processQueue'.
    set (s1 := answered (closure o) (Some coords) (stored i alt coords (replied k o s))).
    destruct (drain'_continues (queue s1) s1) as [Hcache _ Hkeep [later Htrace]].
    assert (Htrace1 : trace s1 = Resolved (resolve (closure o)) (Some coords)
                                 :: callback_events (callback (closure o)) (Some coords)
                                 ++ HostReplied (resolve (closure o)) :: trace s)
      by (destruct alt; reflexivity).
    split; [rewrite Hcache; cbn; rewrite stored_cache; reflexivity|].
    split; [exists (later ++ [Resolved (resolve (closure o)) (Some coords)]);
            rewrite Htrace, Htrace1, <- app_assoc; reflexivity|].
    split; [|discriminate]. intros _.
    split; [|split; [exists later; rewrite Htrace, Htrace1; reflexivity|]].
    + apply Hkeep.
      assert (Hp1 : promises s1 = fulfil (resolve (closure o)) (Some coords) (promises s))
        by (destruct alt; reflexivity).
      rewrite Hp1. apply fulfil_new, Hpending.
    + intros Hwf Hcalm.
      pose proof (reply'_agrees k x y w h px py s Hcalm) as Hagree.
      rewrite (reply'_spec k o i sn c sib alt) in Hagree by assumption.
      unfold after_callback in Hagree. fold coords in Hagree. rewrite Hthrown in Hagree.
      fold s1 in Hagree. unfold processQueue' in Hagree.
      destruct (reply_settles k o i sn c sib alt x y w h px py s Hwf Hk Hf)
        as (s2 & Hrun & _). rewrite Hrun in Hagree. rewrite Hagree. reflexivity.
Qed.

(** C6, as the code has it.  [measureFiber] returns a promise, in every
    state and whatever the callbacks do.  From the initial state on, after
    inputs whose callbacks return, for a callback that returns (or none): no
    promise is rejected; when a slot is free the promise of the call is
    resolved with [null] exactly when the cache holds no entry for the fiber
    that is less than 250 ms old and no node of the first-child chain can be
    measured; when no slot is free the promise stays pending.  In any state,
    the request at the head of the queue, when it is dequeued, its promise
    pending and its callback one that returns, is resolved with [null]
    exactly under that condition, read at that time.  For a
    callback that throws when it is called, at once, with a fresh entry of
    the cache or with [null]: the promise is rejected with the exception of
    the callback, and [pendingCount] stays incremented although no call is
    with the host for the request. *)
Theorem measureFiber_null_when_unmeasurable :
  (forall f cb s, exists s', measureFiber' f cb s = Normal (nextPromise s) s')
  /\ (forall inputs f cb,
        Forall calm_input inputs -> returns_normally cb ->
        exists s',
          measureFiber' f cb (run' inputs init) = Normal (nextPromise (run' inputs init)) s'
          /\ (forall p e, promises s' !! p <> Some (Rejected e))
          /\ (pendingCount (run' inputs init) < MAX_PENDING ->
              (promises s' !! nextPromise (run' inputs init) = Some (Fulfilled None) <->
               fresh_entry (Date_now (clockReads (run' inputs init)))
                           (cache_lookup (run' inputs init) f) = None
               /\ first_capability f = None))
          /\ (MAX_PENDING <= pendingCount (run' inputs init) ->
              promises s' !! nextPromise (run' inputs init) = None))
  /\ (forall r rest s,
        queue s = r :: rest -> pendingCount s < MAX_PENDING ->
        promises s !! resolve r = None -> returns_normally (callback r) ->
        (promises (final_state (processQueue' s)) !! resolve r = Some (Fulfilled None) <->
         fresh_entry (Date_now (clockReads s)) (cache_lookup s (fiber r)) = None
         /\ first_capability (fiber r) = None))
  /\ (forall inputs f c v e,
        Forall calm_input inputs ->
        pendingCount (run' inputs init) < MAX_PENDING ->
        match fresh_entry (Date_now (clockReads (run' inputs init)))
                          (cache_lookup (run' inputs init) f) with
        | Some entry => v = Some (measurement entry)
        | None => first_capability f = None /\ v = None
        end ->
        callback_throws c v = Some e ->
        exists s',
          measureFiber' f (Some c) (run' inputs init)
          = Normal (nextPromise (run' inputs init)) s'
          /\ promises s' !! nextPromise (run' inputs init) = Some (Rejected e)
          /\ pendingCount s' = pendingCount (run' inputs init) + 1
          /\ bridge s' = bridge (run' inputs init)
          /\ queue s' = []).
Proof.
  split; [|split; [|split]].
  - intros f cb s. rewrite measureFiber'_spec.
    destruct (processQueue' (pushed f cb s)); eexists; reflexivity.
  - intros inputs f cb Hinputs Hcb.
    destruct (run'_agrees inputs init wf_init calm_init Hinputs) as [-> Hcalm].
    pose proof (run_sound inputs init sound_init) as Hs.
    set (s := run inputs init) in *.
    rewrite (measureFiber'_agrees f cb s Hcalm Hcb).
    destruct (measureFiber_sound f cb s Hs) as (s' & Hrun & Hs').
    exists s'. split; [exact Hrun|].
    split; [intros p e; apply never_rejected, Hs'|]. split.
    + intros Hlt. pose proof (sound_quiet_free s Hs Hlt) as Hq.
      destruct (dequeued_null_iff (mkRequest f cb (nextPromise s)) [] (pushed f cb s))
        as (s2 & Hrun2 & _ & Hiff).
      * apply wf_pushed, Hs.
      * cbn. rewrite Hq. reflexivity.
      * exact Hlt.
      * rewrite measureFiber_spec, Hrun2 in Hrun. injection Hrun as <-. exact Hiff.
    + intros Hfull. rewrite measureFiber_spec, processQueue_full in Hrun by exact Hfull.
      injection Hrun as <-. cbn.
      destruct (promises s !! nextPromise s) eqn:Hn; [|reflexivity].
      destruct (wf_fulfilled s (proj1 Hs) _ _ Hn) as [_ Hlt']. lia.
  - intros r rest s Hq Hlt Hpending Hreturns.
    unfold processQueue'. rewrite Hq, drain'_cons.
    apply Z.leb_gt in Hlt. rewrite Hlt, executeMeasurement'_spec.
    change (cache_lookup (shifted r rest s) (fiber r)) with (cache_lookup s (fiber r)).
    change (clockReads (shifted r rest s)) with (clockReads s).
    assert (Hafter : forall v,
              promises (final_state
                          (after_callback (drain' rest) r v
                             (with_clockReads S (shifted r rest s)))) !! resolve r
              = Some (Fulfilled v)).
    { intros v. rewrite after_callback_returns by exact Hreturns.
      apply (cont_promises _ _ (drain'_continues rest _)). cbn.
      apply fulfil_new, Hpending. }
    destruct (fresh_entry (Date_now (clockReads s)) (cache_lookup s (fiber r))) as [entry |].
    + rewrite Hafter. split; [discriminate | intros [? _]; discriminate].
    + destruct (first_capability (fiber r)) as [call |].
      * cbn. rewrite Hpending. split; [discriminate | intros [_ ?]; discriminate].
      * rewrite Hafter. split; auto.
  - intros inputs f c v e Hinputs Hlt Hv Hthrows.
    destruct (run'_agrees inputs init wf_init calm_init Hinputs) as [Hrun' _].
    rewrite Hrun' in *. clear Hrun'.
    pose proof (run_sound inputs init sound_init) as Hs.
    set (s := run inputs init) in *.
    pose proof (sound_quiet_free s Hs Hlt) as Hq.
    assert (Hfree : promises s !! nextPromise s = None).
    { destruct (promises s !! nextPromise s) eqn:Hn; [|reflexivity].
      destruct (wf_fulfilled s (proj1 Hs) _ _ Hn) as [_ Hlt']. lia. }
    assert (Hthrown : processQueue' (pushed f (Some c) s)
                      = Thrown e (called (Some c) v
                                    (with_clockReads S
                                       (shifted (mkRequest f (Some c) (nextPromise s)) []
                                          (pushed f (Some c) s))))).
    { unfold processQueue'. cbn [queue pushed with_queue with_nextPromise].
      rewrite Hq. cbn [app]. rewrite drain'_cons.
      apply Z.leb_gt in Hlt. cbn [pendingCount pushed with_queue with_nextPromise].
      rewrite Hlt, executeMeasurement'_spec.
      change (cache_lookup (shifted (mkRequest f (Some c) (nextPromise s)) []
                              (pushed f (Some c) s))
                (fiber (mkRequest f (Some c) (nextPromise s))))
        with (cache_lookup s f) in *.
      change (clockReads (shifted (mkRequest f (Some c) (nextPromise s)) []
                            (pushed f (Some c) s)))
        with (clockReads s).
      cbn [fiber]. unfold after_callback, thrown_by. cbn [callback].
      destruct (fresh_entry (Date_now (clockReads s)) (cache_lookup s f)) as [entry |].
      - subst v. rewrite Hthrows. reflexivity.
      - destruct Hv as [-> ->]. rewrite Hthrows. reflexivity. }
    eexists. rewrite measureFiber'_spec, Hthrown. split; [reflexivity|].
    cbn. rewrite Hfree, lookup_insert_eq. repeat split; lia.
Qed.

(** X3.  No request is stranded, when the callbacks return.  After inputs
    whose callbacks return, a request waits in the queue only while 50 calls
    are with the host; and once the host has answered all its calls, the
    queue is empty and every promise handed out so far is fulfilled. *)
Theorem no_request_is_stranded (inputs : list Input) :
  Forall calm_input inputs ->
  (queue (run' inputs init) <> [] -> length (bridge (run' inputs init)) = 50%nat)
  /\ (bridge (run' inputs init) = [] ->
      queue (run' inputs init) = []
      /\ forall p, (p < nextPromise (run' inputs init))%nat ->
           exists v, promises (run' inputs init) !! p = Some (Fulfilled v)).
Proof.
  intros Hinputs.
  destruct (run'_agrees inputs init wf_init calm_init Hinputs) as [-> _].
  destruct (run_sound inputs init sound_init) as [Hwf Hquiet].
  pose proof (wf_count _ Hwf) as Hcount.
  assert (Hacc : accounted (run inputs init)).
  { apply accounted_run; [apply wf_init|]. intros p Hp. cbn in Hp. lia. }
  set (s := run inputs init) in *. split.
  - intros Hq. specialize (Hquiet Hq). unfold MAX_PENDING in Hquiet. lia.
  - intros Hb.
    assert (Hq : queue s = []).
    { destruct (queue s) eqn:Hqs; [reflexivity|].
      unfold quiet in Hquiet. rewrite Hqs in Hquiet.
      specialize (Hquiet ltac:(congruence)). rewrite Hb in Hcount.
      unfold MAX_PENDING in Hquiet. cbn in Hcount. lia. }
    split; [exact Hq|]. intros p Hp.
    destruct (Hacc p Hp) as [[st Hs] | Hw].
    + destruct (wf_fulfilled s Hwf p st Hs) as [[v ->] _]. eauto.
    + unfold waiting in Hw. rewrite Hq, Hb in Hw. inversion Hw.
Qed.


(** *** The instrumented module on the scheduler with callbacks that throw *)

Lemma returns_normally_None : returns_normally None.
Proof. intros v. reflexivity. Qed.

Lemma call_updateOutlines'_agrees f r sys :
  calm (scheduler sys) -> call_updateOutlines' f r sys = call_updateOutlines f r sys.
Proof.
  intros Hcalm. unfold call_updateOutlines', call_updateOutlines, async, try_catch, bind,
    in_scheduler, updateOutlines_request', updateOutlines_request.
  destruct (getNearestHostFiber f); [reflexivity|]. unfold bind.
  rewrite (measureFiber'_agrees f None (scheduler sys) Hcalm returns_normally_None).
  reflexivity.
Qed.

Lemma system_step'_agrees t sys :
  calm (scheduler sys) -> calm_task t -> system_step' t sys = system_step t sys.
Proof.
  intros Hcalm Ht. destruct t as [o | o f r | o | i |]; try reflexivity.
  - cbn [system_step' system_step instrumentNative' instrumentNative handle_onRender].
    unfold onRender', onRender, async, try_catch, bind. rewrite call_hook_spec.
    destruct (options_onRender o) as [[|e] |]; try reflexivity;
      rewrite call_updateOutlines'_agrees by exact Hcalm; reflexivity.
  - cbn [system_step' system_step]. unfold in_scheduler.
    rewrite (step'_agrees i (scheduler sys) Hcalm Ht). reflexivity.
Qed.

(** What a task does to the requests that wait. *)
Lemma resume_updateOutlines_waiting j sys :
  exists sys',
    resume_updateOutlines j sys = Normal tt sys'
    /\ waiting (scheduler sys') = waiting (scheduler sys).
Proof.
  destruct sys as [s i susp js ns], j as [p [v | e] k].
  - unfold resume_updateOutlines, async, try_catch, bind, notice, modify, in_internals,
      with_notices.
    cbn [job_state job_promise job_continuation scheduler internals suspended jobs notices].
    destruct (updateOutlines_returns (awaiting_fiber k) (awaiting_render k) v
                (Date_now (clockReads s)) i) as (i' & Hrun).
    destruct (reads_clock v i); unfold with_scheduler;
      cbn [scheduler internals suspended jobs notices]; rewrite Hrun;
      eexists; split; reflexivity.
  - eexists. split; reflexivity.
Qed.

Lemma run_jobs_waiting pending : forall sys,
  waiting (scheduler (final_state (run_jobs pending sys))) = waiting (scheduler sys).
Proof.
  induction pending as [|j rest IH]; intros sys; [reflexivity|].
  cbn [run_jobs]. unfold bind, modify.
  destruct (resume_updateOutlines_waiting j (with_jobs (fun _ => rest) sys))
    as (sys' & Hrun & Hw).
  rewrite Hrun, IH, Hw. reflexivity.
Qed.

Lemma call_updateOutlines_scheduler f r sys :
  coherent sys ->
  scheduler (final_state (call_updateOutlines f r sys)) = scheduler sys
  \/ scheduler (final_state (call_updateOutlines f r sys))
     = step_state (scheduler sys) (call_measureFiber f None).
Proof.
  intros Hcoh. pose proof (proj1 (proj1 (coh_scheduler sys Hcoh))) as Hwf.
  unfold call_updateOutlines, async, try_catch, bind, in_scheduler.
  rewrite updateOutlines_request_spec.
  destruct (getNearestHostFiber f) as [|i sn c sib alt].
  - left. cbn [final_state].
    exact (proj1 (trigger_spec (new_events (scheduler sys) (scheduler sys))
                    (with_scheduler (fun _ => scheduler sys) sys))).
  - right. destruct (measureFiber_wf f None (scheduler sys) Hwf) as (s' & Hcall & _).
    rewrite Hcall.
    assert (Hs' : step_state (scheduler sys) (call_measureFiber f None) = s').
    { unfold step_state. cbn [step]. unfold bind. rewrite Hcall. reflexivity. }
    rewrite Hs'. unfold await.
    assert (Hsched : scheduler (trigger (new_events (scheduler sys) s')
                                  (with_scheduler (fun _ => s') sys)) = s')
      by exact (proj1 (trigger_spec (new_events (scheduler sys) s')
                         (with_scheduler (fun _ => s') sys))).
    destruct (promises _ !! _); cbn [final_state with_jobs with_suspended scheduler];
      exact Hsched.
Qed.

Lemma system_state_calm t sys :
  coherent sys -> calm (scheduler sys) -> calm_task t ->
  calm (scheduler (system_state sys t)).
Proof.
  intros Hcoh Hcalm Ht. pose proof (proj1 (proj1 (coh_scheduler sys Hcoh))) as Hwf.
  assert (Hhook : forall hook n, scheduler (final_state (call_hook hook n sys)) = scheduler sys).
  { intros hook n. rewrite call_hook_spec. destruct hook as [[|e] |]; reflexivity. }
  unfold system_state. destruct t as [o | o f r | o | i |];
    cbn [system_step instrumentNative handle_onCommitStart handle_onRender
         handle_onCommitFinish].
  - unfold onCommitStart. rewrite Hhook. exact Hcalm.
  - unfold onRender, async, try_catch, bind. rewrite call_hook_spec.
    assert (Hcall : forall sys0,
              coherent sys0 -> scheduler sys0 = scheduler sys ->
              calm (scheduler (final_state
                      match call_updateOutlines f r sys0 with
                      | Normal a s' => Normal a s'
                      | Thrown e s' => notice (PromiseRejected async_onRender e) s'
                      end))).
    { intros sys0 Hcoh0 Hsame.
      destruct (call_updateOutlines_spec f r sys0 Hcoh0) as (sys' & Hrun & _).
      destruct (call_updateOutlines_scheduler f r sys0 Hcoh0) as [Hs | Hs];
        rewrite Hrun in Hs |- *; cbn [final_state] in Hs |- *; rewrite Hs, Hsame.
      - exact Hcalm.
      - apply step_calm; [exact Hwf | exact Hcalm | apply returns_normally_None]. }
    destruct (options_onRender o) as [[|e] |].
    + apply Hcall; [|reflexivity].
      apply coherent_notice; [exact Hcoh | intros p f' r' v Heq; discriminate].
    + exact Hcalm.
    + apply Hcall; [exact Hcoh | reflexivity].
  - unfold onCommitFinish. rewrite Hhook. exact Hcalm.
  - destruct (in_scheduler_step i sys Hcoh) as (sys' & Hrun & _ & Hs & _).
    rewrite Hrun. cbn [final_state]. rewrite Hs. apply step_calm; assumption.
  - unfold microtasks, calm. rewrite run_jobs_waiting. exact Hcalm.
Qed.

Lemma system_run'_agrees tasks : forall sys,
  coherent sys -> calm (scheduler sys) -> Forall calm_task tasks ->
  system_run' tasks sys = system_run tasks sys.
Proof.
  induction tasks as [|t tasks IH]; intros sys Hcoh Hcalm Htasks; [reflexivity|].
  apply Forall_cons in Htasks as [Ht Htasks]. cbn [system_run' system_run fold_left].
  assert (Heq : system_state' sys t = system_state sys t)
    by (unfold system_state', system_state; rewrite system_step'_agrees by assumption;
        reflexivity).
  rewrite Heq. apply IH; [|apply system_state_calm; assumption | exact Htasks].
  apply (system_state_spec t sys Hcoh).
Qed.

(** X14.  Once the host is done, every render has been handled, when the
    callbacks of the other users of [measureFiber] return.  When the job
    queue has been run, it is empty; and if then no call is with the host,
    no continuation waits any more: [updateOutlines] went on after its
    [await] exactly once for every render whose hook did not throw and whose
    fiber has a host fiber. *)
Theorem every_render_is_handled (tasks : list Task) (i : Internals) :
  Forall calm_task tasks ->
  jobs (system_run' (tasks ++ [stack_empty]) (boot i)) = []
  /\ (bridge (scheduler (system_run' (tasks ++ [stack_empty]) (boot i))) = [] ->
      suspended (system_run' (tasks ++ [stack_empty]) (boot i)) = ∅
      /\ omap requested tasks
           ≡ₚ fst <$> resumptions (system_run' (tasks ++ [stack_empty]) (boot i))).
Proof.
  intros Htasks.
  rewrite (system_run'_agrees (tasks ++ [stack_empty]) (boot i) (coherent_boot i) calm_init)
    by (apply Forall_app; split; [exact Htasks | repeat constructor]).
  destruct (system_run_tracked (tasks ++ [stack_empty]) i)
    as [[Hsteady Hsusp _ _] Hreq _ _].
  rewrite omap_app in Hreq. cbn in Hreq. rewrite app_nil_r in Hreq.
  assert (Hjobs : jobs (system_run (tasks ++ [stack_empty]) (boot i)) = []).
  { rewrite system_run_app.
    apply (system_state_spec stack_empty _
             (tr_coherent _ _ (system_run_tracked tasks i))). reflexivity. }
  split; [exact Hjobs|]. intros Hbridge.
  set (sys := system_run (tasks ++ [stack_empty]) (boot i)) in *.
  assert (Hnone : suspended sys = ∅).
  { apply map_empty. intros p. destruct (suspended sys !! p) as [k |] eqn:Hp; [|reflexivity].
    destruct (Hsusp p k Hp) as [Hpending Hlt].
    destruct Hsteady as ([Hwf Hquiet] & _ & Hacc).
    destruct (Hacc p Hlt) as [[st Hst] | Hw]; [congruence|].
    assert (Hq : queue (scheduler sys) = []).
    { destruct (queue (scheduler sys)) eqn:Hqs; [reflexivity|].
      unfold quiet in Hquiet. rewrite Hqs in Hquiet. specialize (Hquiet ltac:(congruence)).
      pose proof (wf_count _ Hwf) as Hcount. rewrite Hbridge in Hcount.
      unfold MAX_PENDING in Hquiet. cbn in Hcount. lia. }
    unfold waiting in Hw. rewrite Hq, Hbridge in Hw. inversion Hw. }
  split; [exact Hnone|].
  rewrite Hreq. unfold in_suspense. rewrite Hnone, Hjobs, map_to_list_empty. reflexivity.
Qed.


End Instrument.

(** * A concrete host

    Integer coordinates printed in decimal, a clock that is read by hand, and
    renders that are numbered.  The scenarios below run the model on it. *)

Definition int_toString (n : Z) : string := pretty n.
Definition int_truthy (n : Z) : bool := negb (n =? 0).

(** A clock that stands still and one that advances 100 ms per reading. *)
Definition steady_clock (n : nat) : Z := 1000.
Definition slow_clock (n : nat) : Z := 1000 + 100 * Z.of_nat n.

Definition count_label (renders : list nat) (env : string) : string :=
  String.append "x" (pretty (length renders)).

Definition tagged (tag : Z) : option (@StateNode Z) :=
  Some (mkStateNode (Some (mkCanonical (Some tag))) None None).
Definition legacy (tag : Z) : option (@StateNode Z) :=
  Some (mkStateNode None (Some tag) None).

(** A host view with tag 7, and a component above a view with tag 8 whose
    sibling has tag 9. *)
Definition view_A : @Fiber Z := fiberObj 1%positive (tagged 7) null null None.
Definition view_sibling : @Fiber Z := fiberObj 4%positive (tagged 9) null null None.
Definition view_child : @Fiber Z := fiberObj 3%positive (legacy 8) null view_sibling None.
Definition component_B : @Fiber Z := fiberObj 2%positive None view_child null None.

(** Two fibers that are each other's alternate; only the first can be
    measured. *)
Definition current_C : @Fiber Z :=
  fiberObj 5%positive (tagged 11) null null (Some 6%positive).
Definition alternate_C : @Fiber Z :=
  fiberObj 6%positive None null null (Some 5%positive).

Definition empty_collection : @Internals Z nat :=
  mkInternals {[1%positive := []]} ∅ 1%positive O [].

(** Geometries: one at the page origin, one at (10, 20). *)
Definition at_origin : @MeasurementValue Z := mkMeasurementValue 100 50 0 0 0 0.
Definition at_10_20 : @MeasurementValue Z := mkMeasurementValue 100 50 10 20 10 20.

Definition render_of_A (m : @MeasurementValue Z) : @RenderEvent Z nat :=
  mkRenderEvent view_A 1%nat (Some m) 5.
Definition render_of_B (m : @MeasurementValue Z) : @RenderEvent Z nat :=
  mkRenderEvent component_B 2%nat (Some m) 6.

Lemma good_empty_collection : good int_toString empty_collection.
Proof.
  split.
  - unfold natives, current. constructor.
  - unfold keys, current. apply NoDup_nil_2.
Qed.

(** ** Scenarios for the aggregator *)

Lemma geometry_key_collapsing_at_10_20 :
  good int_toString empty_collection
  /\ exists s' o a,
       aggregate int_toString int_truthy count_label
         [render_of_A at_10_20; render_of_B at_10_20] empty_collection = Normal tt s'
       /\ o ∈ current s'
       /\ objects s' !! o = Some a
       /\ stored_key int_toString a = "10-20-100-50"
       /\ (forall o', o' ∈ current s' ->
             key_of int_toString s' o' = Some "10-20-100-50" -> o' = o)
       /\ exists l1 l2 l3, renders (outline a) = l1 ++ 1%nat :: l2 ++ 2%nat :: l3.
Proof.
  split; [exact good_empty_collection|].
  exact (proj2 (geometry_key_collapsing int_toString int_truthy count_label
                  [render_of_A at_10_20; render_of_B at_10_20] empty_collection
                  good_empty_collection)
           [] (render_of_A at_10_20) [] (render_of_B at_10_20) []
           at_10_20 at_10_20 eq_refl eq_refl eq_refl eq_refl eq_refl eq_refl eq_refl eq_refl).
Defined.

(** A render at the page origin is dropped. *)
Lemma falsy_pageX_aborts_at_origin :
  updateOutlines int_toString int_truthy count_label view_A 1%nat (Some at_origin) 5
    empty_collection
  = Normal tt empty_collection.
Proof.
  apply (falsy_pageX_aborts int_toString int_truthy count_label).
  right. exists at_origin. split; reflexivity.
Defined.

(** The array a reader captured before the first outline was created holds
    that outline afterwards; the outline a reader saw before a merge has one
    more render afterwards. *)
Lemma captured_reference_observes_mutation :
  let s0 := empty_collection in
  let s1 := final_state (on_event int_toString int_truthy count_label (render_of_A at_10_20) s0) in
  let s2 := final_state (on_event int_toString int_truthy count_label (render_of_B at_10_20) s1) in
  contents s0 (activeOutlines s0) = []
  /\ length (contents s1 (activeOutlines s0)) = 1%nat
  /\ contents s1 (activeOutlines s0) <> contents s0 (activeOutlines s0)
  /\ contents s2 (activeOutlines s1) <> contents s1 (activeOutlines s1).
Proof.
  cbv zeta. split; [reflexivity|]. split; [vm_compute; reflexivity|].
  split; vm_compute; discriminate.
Qed.

Lemma republished_after_first_outline :
  exists s',
    update_or_create int_toString count_label view_A 1%nat at_10_20 5 empty_collection
    = Normal tt s'
    /\ (activeOutlines s' ∉ dom (arrays empty_collection))
    /\ activeOutlines s' <> activeOutlines empty_collection
    /\ contents s' (activeOutlines s') = contents s' (activeOutlines empty_collection).
Proof.
  eexists. split; [vm_compute; reflexivity|].
  destruct (republished_after_mutation int_toString count_label view_A 1%nat at_10_20 5
              empty_collection _ eq_refl) as (H1 & H2 & H3 & _).
  split; [exact H1|]. split; [exact H2|exact H3].
Defined.

(** An outline of the other kind in the collection: the search throws, the
    exception is logged, and the events that follow are processed. *)
Definition dom_outline : @ActiveOutline Z nat :=
  mkActiveOutline (mkPendingOutline (mkMeasurement "dom" at_10_20) view_A [7%nat])
                  0 "x1" 1 1 1 1.

Definition web_collection : @Internals Z nat :=
  mkInternals {[1%positive := [1%positive]]} {[1%positive := dom_outline]} 1%positive 1 [].

Lemma native_invariant_is_contained_in_web_collection :
  updateOutlines int_toString int_truthy count_label view_A 1%nat (Some at_10_20) 5
    web_collection
  = Normal tt (with_console (cons (Error "native invariant")) web_collection)
  /\ exists s',
       aggregate int_toString int_truthy count_label
         [render_of_A at_10_20; render_of_B at_10_20] web_collection = Normal tt s'.
Proof.
  destruct (native_invariant_is_contained int_toString int_truthy count_label)
    as (_ & _ & _ & Hthrow & Hall & _).
  split.
  - apply (Hthrow view_A 1%nat at_10_20 5 web_collection [] 1%positive [] dom_outline);
      try reflexivity. constructor.
  - apply Hall.
Defined.

(** ** Scenarios for the scheduler *)

(** 200 calls in a row for a view the host can measure: 50 calls are with the
    host and 150 requests wait. *)
Definition two_hundred_calls : list (@Input Z) :=
  replicate 200 (call_measureFiber view_A None).

Lemma concurrency_cap_of_200_calls :
  (length (bridge (run int_truthy steady_clock two_hundred_calls init)) <= 50)%nat
  /\ length (bridge (run int_truthy steady_clock two_hundred_calls init)) = 50%nat
  /\ length (queue (run int_truthy steady_clock two_hundred_calls init)) = 150%nat.
Proof.
  split.
  - exact (proj2 (proj2 (proj2 (proj2
             (concurrency_cap int_truthy steady_clock two_hundred_calls))))).
  - split; vm_compute; reflexivity.
Defined.


(** The state after a call for [current_C], with a callback. *)
Definition asked_C : @Scheduler Z :=
  run int_truthy slow_clock [call_measureFiber current_C (Some 1%positive)] init.

Definition call_for_C : @Outstanding Z :=
  mkOutstanding (UIManager_measure (Some 11)) (mkRequest current_C (Some 1%positive) 0%nat).




(** A request for [component_B], which has no state node: the host is asked
    for the legacy tag of its first child, not for the tag of the child's
    sibling, and the request is resolved with what the host reports. *)
Definition waiting_B : @Scheduler Z := pushed component_B None init.

Lemma traversal_fallback_for_B :
  first_capability int_truthy component_B = Some (UIManager_measure (Some 8))
  /\ exists s1 s2,
       processQueue int_truthy steady_clock waiting_B = Normal tt s1
       /\ bridge s1 = [mkOutstanding (UIManager_measure (Some 8))
                                     (mkRequest component_B None 0%nat)]
       /\ reply int_truthy steady_clock 0 10 20 100 50 10 20 s1 = Normal tt s2
       /\ promises s2 !! 0%nat = Some (Fulfilled (Some at_10_20)).
Proof.
  split; [reflexivity|].
  assert (Hq : queue waiting_B
               = [mkRequest (fiberObj 2%positive None view_child null None) None 0%nat])
    by reflexivity.
  assert (Hfree : pendingCount waiting_B < MAX_PENDING) by reflexivity.
  assert (Hstale : fresh_entry (steady_clock (clockReads waiting_B))
                     (measurementCache waiting_B !! 2%positive) = None)
    by (vm_compute; reflexivity).
  assert (Hown : capability_of int_truthy (@None (@StateNode Z)) = None) by reflexivity.
  assert (Hchild : first_capability int_truthy view_child = Some (UIManager_measure (Some 8)))
    by reflexivity.
  destruct (proj2 (proj2 (proj2 (proj2 (traversal_fallback int_truthy steady_clock))))
              2%positive None view_child null None None 0%nat []
              (UIManager_measure (Some 8)) 10 20 100 50 10 20 waiting_B
              (wf_pushed component_B None init wf_init)
              Hq Hfree Hstale Hown Hchild) as (s1 & s2 & H1 & H2 & H3 & H4).
  exists s1, s2. split; [exact H1|]. split; [exact H2|]. split; [exact H3 | exact H4].
Defined.

(** 50 calls are with the host when a request with a fresh cache entry
    arrives: it waits, and is answered from the cache when the host answers
    one of its calls. *)
Definition saturated : @Scheduler Z :=
  run int_truthy steady_clock
    ([call_measureFiber view_A None; host_reply 0 10 20 100 50 10 20]
     ++ replicate 50 (call_measureFiber current_C None)) init.

Lemma cache_hit_waits_when_saturated :
  pendingCount saturated = 50
  /\ measureFiber int_truthy steady_clock view_A None saturated
     = Normal 51%nat (pushed view_A None saturated)
  /\ promises (pushed view_A None saturated) !! 51%nat = None
  /\ exists s',
       reply int_truthy steady_clock 0 1 2 3 4 1 2 (pushed view_A None saturated)
       = Normal tt s'
       /\ promises s' !! 51%nat = Some (Fulfilled (Some at_10_20)).
Proof.
  assert (Hwf : wf saturated) by (apply run_wf, wf_init).
  assert (Hcount : pendingCount saturated = 50) by (vm_compute; reflexivity).
  assert (Hfull : MAX_PENDING <= pendingCount saturated) by (rewrite Hcount; discriminate).
  assert (Hnext : nextPromise saturated = 51%nat) by (vm_compute; reflexivity).
  assert (Hq : queue saturated = []) by (vm_compute; reflexivity).
  assert (Hk : bridge saturated !! 0%nat
               = Some (mkOutstanding (UIManager_measure (Some 11))
                                     (mkRequest current_C None 1%nat)))
    by (vm_compute; reflexivity).
  assert (Hfresh :
    fresh_entry
      (steady_clock (clockReads
         (stored steady_clock 5%positive (Some 6%positive)
            (reported (host_call (mkOutstanding (UIManager_measure (Some 11))
                                    (mkRequest current_C None 1%nat))) 1 2 3 4 1 2)
            saturated)))
      (cache_lookup
         (stored steady_clock 5%positive (Some 6%positive)
            (reported (host_call (mkOutstanding (UIManager_measure (Some 11))
                                    (mkRequest current_C None 1%nat))) 1 2 3 4 1 2)
            saturated) view_A)
    = Some (mkCacheEntry at_10_20 1000)) by (vm_compute; reflexivity).
  destruct (cache_hit_occupies_slot int_truthy steady_clock) as (_ & _ & Hqueue & Hserved).
  destruct (Hqueue view_A None saturated Hwf Hfull) as (Hrun & _ & Hp & _).
  destruct (Hserved 0%nat (mkOutstanding (UIManager_measure (Some 11))
                             (mkRequest current_C None 1%nat))
              5%positive (tagged 11) null null (Some 6%positive) 1 2 3 4 1 2
              view_A None (mkCacheEntry at_10_20 1000) saturated Hwf Hq Hfull Hk
              eq_refl Hfresh) as (s' & Hreply & Hp').
  rewrite Hnext in Hrun, Hp, Hp'.
  split; [exact Hcount|]. split; [exact Hrun|]. split; [exact Hp|].
  exists s'. split; [exact Hreply | exact Hp'].
Defined.
(** ** More scenarios for the scheduler *)

(** The cache holds the geometry of [view_A]; three calls later it is as it
    was. *)
Definition answered_A : @Scheduler Z :=
  run int_truthy slow_clock
    [call_measureFiber view_A None; host_reply 0 10 20 100 50 10 20] init.

Definition three_calls : list (@Fiber Z * option Callback) :=
  [(view_A, None); (component_B, Some 2%positive); (alternate_C, None)].

Lemma three_calls_leave_the_cache :
  wf answered_A
  /\ measurementCache answered_A = {[1%positive := mkCacheEntry at_10_20 1100]}
  /\ measurementCache
       (run int_truthy slow_clock
          ((fun c => call_measureFiber (fst c) (snd c)) <$> three_calls) answered_A)
     = measurementCache answered_A.
Proof.
  assert (Hwf : wf answered_A) by (apply run_wf, wf_init).
  split; [exact Hwf|]. split; [vm_compute; reflexivity|].
  exact (proj1 (calls_never_write_the_cache int_truthy slow_clock three_calls
                  answered_A Hwf)).
Defined.

(** With 50 calls with the host, three more calls are queued in order, with
    the promises 51, 52 and 53. *)
Lemma three_calls_queue_when_saturated :
  pendingCount saturated = MAX_PENDING
  /\ queue saturated = []
  /\ trace (run int_truthy steady_clock
              ((fun c => call_measureFiber (fst c) (snd c)) <$> three_calls) saturated)
     = trace saturated
  /\ fiber <$> queue (run int_truthy steady_clock
                        ((fun c => call_measureFiber (fst c) (snd c)) <$> three_calls)
                        saturated)
     = [view_A; component_B; alternate_C]
  /\ resolve <$> queue (run int_truthy steady_clock
                          ((fun c => call_measureFiber (fst c) (snd c)) <$> three_calls)
                          saturated)
     = [51; 52; 53]%nat.
Proof.
  assert (Hwf : wf saturated) by (apply run_wf, wf_init).
  assert (Hcount : pendingCount saturated = MAX_PENDING) by (vm_compute; reflexivity).
  assert (Hq : queue saturated = []) by (vm_compute; reflexivity).
  assert (Hnext : nextPromise saturated = 51%nat) by (vm_compute; reflexivity).
  destruct (saturated_scheduler_only_queues int_truthy steady_clock three_calls
              saturated Hwf Hcount) as (_ & _ & Htrace & _ & _ & Hfibers & Hpromises).
  rewrite Hq, Hnext in *.
  split; [exact Hcount|]. split; [reflexivity|]. split; [exact Htrace|].
  split; [exact Hfibers | exact Hpromises].
Defined.



(** ** More scenarios for the aggregator *)

Lemma well_built_empty_collection : all_well_built int_truthy count_label empty_collection.
Proof. unfold all_well_built, current. constructor. Qed.

(** Three renders: two at (10, 20), of different fibers, and one at
    (30, 40). *)
Definition at_30_40 : @MeasurementValue Z := mkMeasurementValue 100 50 30 40 30 40.

Definition three_renders : list (@RenderEvent Z nat) :=
  [render_of_A at_10_20; mkRenderEvent view_child 3%nat (Some at_30_40) 7;
   render_of_B at_10_20].

Lemma three_renders_are_well_built :
  exists s',
    aggregate int_toString int_truthy count_label three_renders empty_collection
    = Normal tt s'
    /\ all_well_built int_truthy count_label s'
    /\ console s' = [].
Proof.
  exact (outlines_stay_well_built int_toString int_truthy count_label three_renders
           empty_collection good_empty_collection well_built_empty_collection).
Defined.

(** The outline made for the first render keeps its place, its geometry and
    its fiber when the third render is merged into it. *)
Definition first_outline : @Internals Z nat :=
  final_state (aggregate int_toString int_truthy count_label
                 [render_of_A at_10_20] empty_collection).

Lemma first_outline_only_grows :
  current first_outline = [1%positive]
  /\ exists s',
       aggregate int_toString int_truthy count_label
         [mkRenderEvent view_child 3%nat (Some at_30_40) 7; render_of_B at_10_20]
         first_outline
       = Normal tt s'
       /\ current first_outline `prefix_of` current s'
       /\ exists a',
            objects s' !! 1%positive = Some a'
            /\ value (latestMeasurement (outline a')) = at_10_20
            /\ outline_fiber (outline a') = view_A
            /\ [1%nat] `prefix_of` renders (outline a').
Proof.
  assert (Hgood : good int_toString first_outline).
  { destruct (aggregate_good int_toString int_truthy count_label [render_of_A at_10_20]
                empty_collection good_empty_collection) as (s1 & Hrun & Hgood & _).
    unfold first_outline. rewrite Hrun. exact Hgood. }
  assert (Hcur : current first_outline = [1%positive]) by (vm_compute; reflexivity).
  assert (Hobj : objects first_outline !! 1%positive
                 = Some (mkActiveOutline
                           (mkPendingOutline (mkMeasurement "native" at_10_20) view_A [1%nat])
                           0 "x1" 5 (-1) (-1) (-1))) by (vm_compute; reflexivity).
  destruct (collection_only_grows int_toString int_truthy count_label
              [mkRenderEvent view_child 3%nat (Some at_30_40) 7; render_of_B at_10_20]
              first_outline Hgood) as (s' & Hrun & Hprefix & Hkeep).
  destruct (Hkeep 1%positive _ ltac:(rewrite Hcur; left) Hobj)
    as (a' & Ha' & Hm & Hf & _ & Hr).
  split; [exact Hcur|]. exists s'. split; [exact Hrun|]. split; [exact Hprefix|].
  exists a'. split; [exact Ha'|]. split; [rewrite Hm; reflexivity|].
  split; [rewrite Hf; reflexivity | exact Hr].
Defined.

(** The history under the key of (10, 20) is the first and the third
    render; there is no outline for a key no render has. *)
Lemma history_of_three_renders :
  exists s',
    aggregate int_toString int_truthy count_label three_renders empty_collection
    = Normal tt s'
    /\ renders_of int_toString s' "10-20-100-50" = [1%nat; 2%nat]
    /\ renders_of int_toString s' "30-40-100-50" = [3%nat]
    /\ ~ present int_toString s' "0-0-100-50".
Proof.
  destruct (history_is_the_accepted_renders int_toString int_truthy count_label
              three_renders empty_collection good_empty_collection) as (s' & Hrun & Hall).
  exists s'. split; [exact Hrun|].
  split; [rewrite (proj1 (Hall _)); vm_compute; reflexivity|].
  split; [rewrite (proj1 (Hall _)); vm_compute; reflexivity|].
  rewrite (proj2 (Hall _)). intros [[o Ho] | (e & Hin & [r Hr])].
  - vm_compute in Ho. discriminate.
  - unfold three_renders in Hin. rewrite !elem_of_cons in Hin.
    destruct Hin as [-> | [-> | [-> | Hin]]]; [| | |inversion Hin];
      vm_compute in Hr; discriminate.
Defined.

(** Three renders with two distinct keys make two outlines. *)
Lemma two_outlines_for_three_renders :
  exists s',
    aggregate int_toString int_truthy count_label three_renders empty_collection
    = Normal tt s'
    /\ NoDup (keys int_toString s')
    /\ length (current s') = 2%nat.
Proof.
  destruct (one_outline_per_distinct_key int_toString int_truthy count_label
              three_renders empty_collection good_empty_collection)
    as (s' & Hrun & Hnodup & _ & Hlen).
  exists s'. split; [exact Hrun|]. split; [exact Hnodup|].
  rewrite Hlen. vm_compute. reflexivity.
Defined.

(** Of four renders, one at the page origin, three are recorded. *)
Lemma three_of_four_renders_are_counted :
  exists s',
    aggregate int_toString int_truthy count_label
      (render_of_A at_origin :: three_renders) empty_collection
    = Normal tt s'
    /\ total_renders s' = 3%nat.
Proof.
  destruct (accepted_renders_are_counted int_toString int_truthy count_label
              (render_of_A at_origin :: three_renders) empty_collection
              good_empty_collection) as (s' & Hrun & Hcount).
  exists s'. split; [exact Hrun|]. rewrite Hcount. vm_compute. reflexivity.
Defined.

(** ** A scenario for the instrumented module *)

(** [view_A] renders twice in a commit, the host answers the first call and
    the job queue is run: the collection holds one well-built outline. *)
Definition no_hooks : Options := mkOptions None None None.

Definition host_fiber (f : @Fiber Z) : @Fiber Z := f.

Definition one_commit : list (@Task Z nat) :=
  [commit_start no_hooks; rendered no_hooks view_A 1%nat; rendered no_hooks view_A 2%nat;
   commit_finish no_hooks; scheduler_input (host_reply 0 10 20 100 50 10 20);
   stack_empty].

Lemma one_commit_keeps_the_collection_sound :
  all_well_built int_truthy count_label
    (internals (system_run int_toString int_truthy steady_clock count_label host_fiber
                  one_commit (boot empty_collection)))
  /\ console (internals (system_run int_toString int_truthy steady_clock count_label
                           host_fiber one_commit (boot empty_collection))) = []
  /\ total_renders (internals (system_run int_toString int_truthy steady_clock count_label
                                 host_fiber one_commit (boot empty_collection))) = 1%nat.
Proof.
  destruct (instrumented_collection_stays_sound int_toString int_truthy steady_clock
              count_label host_fiber one_commit empty_collection
              good_empty_collection well_built_empty_collection)
    as (_ & Hbuilt & Hconsole & Hcount).
  split; [exact Hbuilt|]. split; [exact Hconsole|].
  rewrite Hcount. vm_compute. reflexivity.
Defined.


(** [view_A] renders once, the host reports (10, 20, 100, 50) and the job
    queue is run: the collection has an outline under that key, with the
    render. *)
Lemma render_of_view_A_ends_as_an_outline :
  present int_toString
    (internals (system_run int_toString int_truthy steady_clock count_label host_fiber
                  (one_render no_hooks view_A 1%nat 10 20 100 50 10 20)
                  (boot empty_collection)))
    "10-20-100-50"
  /\ renders_of int_toString
       (internals (system_run int_toString int_truthy steady_clock count_label host_fiber
                     (one_render no_hooks view_A 1%nat 10 20 100 50 10 20)
                     (boot empty_collection)))
       "10-20-100-50"
     = [1%nat].
Proof.
  assert (Hhook : forall e, options_onRender no_hooks <> Some (hook_throws e))
    by (intros e; discriminate).
  assert (Hhost : host_fiber view_A <> null) by discriminate.
  assert (Hcap : first_capability int_truthy view_A = Some (UIManager_measure (Some 7)))
    by (vm_compute; reflexivity).
  assert (Htruthy : int_truthy (pageX (reported (UIManager_measure (Some 7))
                                         10 20 100 50 10 20)) = true)
    by (vm_compute; reflexivity).
  destruct (render_ends_as_an_outline int_toString int_truthy steady_clock count_label
              host_fiber no_hooks view_A 1%nat (UIManager_measure (Some 7))
              10 20 100 50 10 20 empty_collection
              good_empty_collection Hhook Hhost Hcap Htruthy)
    as (_ & _ & _ & Hpresent & Hrenders).
  assert (Hkey : getKey int_toString (reported (UIManager_measure (Some 7))
                                        10 20 100 50 10 20) = "10-20-100-50")
    by (vm_compute; reflexivity).
  assert (Hnone : renders_of int_toString empty_collection "10-20-100-50" = [])
    by (vm_compute; reflexivity).
  rewrite Hkey in Hpresent, Hrenders. rewrite Hnone in Hrenders.
  split; [exact Hpresent | exact Hrenders].
Defined.


(** ** Scenarios with a callback that throws *)

(** Callback 7 throws whatever it is called with; the others return. *)
Definition throwing_7 (c : Callback) (v : option (@MeasurementValue Z)) : option JsError :=
  if decide (c = 7%positive) then Some (Error "callback failed") else None.

(** The host answers the call for [current_C], whose callback returns: both
    cache entries are written, the callback is called and the promise is
    resolved. *)
Lemma reply_caches_then_settles_for_C :
  exists s',
    final_state (reply' int_truthy slow_clock throwing_7 0 10 20 100 50 10 20 asked_C) = s'
    /\ measurementCache s'
       = <[6%positive := mkCacheEntry at_10_20 1200]>
           (<[5%positive := mkCacheEntry at_10_20 1100]> ∅)
    /\ promises s' !! 0%nat = Some (Fulfilled (Some at_10_20))
    /\ exists later,
         trace s' = later ++ Resolved 0%nat (Some at_10_20)
                    :: [CallbackCalled 1%positive (Some at_10_20)]
                    ++ HostReplied 0%nat :: trace asked_C.
Proof.
  assert (Hk : bridge asked_C !! 0%nat = Some call_for_C) by (vm_compute; reflexivity).
  assert (Hpending : promises asked_C !! resolve (closure call_for_C) = None)
    by (vm_compute; reflexivity).
  assert (Hreturns : thrown_by throwing_7 (callback (closure call_for_C))
                       (Some (reported (host_call call_for_C) 10 20 100 50 10 20)) = None)
    by (vm_compute; reflexivity).
  assert (Hclock : slow_clock (clockReads asked_C) = 1100) by (vm_compute; reflexivity).
  assert (Hclock' : slow_clock (S (clockReads asked_C)) = 1200) by (vm_compute; reflexivity).
  assert (Hcache : measurementCache asked_C = ∅) by (vm_compute; reflexivity).
  destruct (reply_caches_then_settles int_truthy slow_clock throwing_7 0 call_for_C
              5%positive (tagged 11) null null (Some 6%positive) 10 20 100 50 10 20
              asked_C Hk eq_refl Hpending)
    as (s' & Hfinal & Hstored & _ & Hsettled & _).
  destruct (Hsettled Hreturns) as (Hpromise & Htrace & _).
  rewrite Hclock, Hclock', Hcache in Hstored.
  exists s'. split; [exact Hfinal|]. split; [exact Hstored|]. split; [exact Hpromise|].
  exact Htrace.
Defined.

(** The same answer for a request whose callback throws: the cache is
    written and the callback called, the exception goes to the host, the
    promise stays pending and the slot stays taken although no call is with
    the host any more. *)
Definition asked_C_for_7 : @Scheduler Z :=
  run' int_truthy slow_clock throwing_7 [call_measureFiber current_C (Some 7%positive)] init.

Lemma throwing_callback_leaves_the_promise_pending :
  reply' int_truthy slow_clock throwing_7 0 10 20 100 50 10 20 asked_C_for_7
  = Thrown (Error "callback failed")
      (final_state (reply' int_truthy slow_clock throwing_7 0 10 20 100 50 10 20
                      asked_C_for_7))
  /\ measurementCache
       (final_state (reply' int_truthy slow_clock throwing_7 0 10 20 100 50 10 20
                       asked_C_for_7))
     = <[6%positive := mkCacheEntry at_10_20 1200]>
         (<[5%positive := mkCacheEntry at_10_20 1100]> ∅)
  /\ trace (final_state (reply' int_truthy slow_clock throwing_7 0 10 20 100 50 10 20
                           asked_C_for_7))
     = CallbackCalled 7%positive (Some at_10_20) :: HostReplied 0%nat :: trace asked_C_for_7
  /\ promises (final_state (reply' int_truthy slow_clock throwing_7 0 10 20 100 50 10 20
                              asked_C_for_7)) !! 0%nat = None
  /\ pendingCount (final_state (reply' int_truthy slow_clock throwing_7 0 10 20 100 50 10 20
                                  asked_C_for_7)) = 1
  /\ bridge (final_state (reply' int_truthy slow_clock throwing_7 0 10 20 100 50 10 20
                            asked_C_for_7)) = [].
Proof. repeat split; vm_compute; reflexivity. Qed.

(** [alternate_C] has no state node and no child.  Yet a call for it made
    right after its alternate was measured is resolved with the alternate's
    geometry, not with [null]; and with nothing cached, a call for it with a
    callback that throws is rejected, not resolved with [null]. *)
Lemma unmeasurable_is_not_always_null :
  first_capability int_truthy alternate_C = None
  /\ promises (run' int_truthy slow_clock throwing_7
                 [call_measureFiber current_C None;
                  host_reply 0 10 20 100 50 10 20;
                  call_measureFiber alternate_C None] init) !! 1%nat
     = Some (Fulfilled (Some at_10_20))
  /\ promises (run' int_truthy slow_clock throwing_7
                 [call_measureFiber alternate_C (Some 7%positive)] init) !! 0%nat
     = Some (Rejected (Error "callback failed"))
  /\ pendingCount (run' int_truthy slow_clock throwing_7
                     [call_measureFiber alternate_C (Some 7%positive)] init) = 1
  /\ bridge (run' int_truthy slow_clock throwing_7
               [call_measureFiber alternate_C (Some 7%positive)] init) = [].
Proof. repeat split; vm_compute; reflexivity. Qed.

(** With nothing cached, a call for [alternate_C] resolves with [null] when
    there is no callback, and is rejected when the callback throws: one slot
    is then taken for good. *)
Lemma measureFiber_null_for_alternate_C :
  (exists s',
     measureFiber' int_truthy slow_clock throwing_7 alternate_C None init = Normal 0%nat s'
     /\ promises s' !! 0%nat = Some (Fulfilled None))
  /\ (exists s',
        measureFiber' int_truthy slow_clock throwing_7 alternate_C (Some 7%positive) init
        = Normal 0%nat s'
        /\ promises s' !! 0%nat = Some (Rejected (Error "callback failed"))
        /\ pendingCount s' = 1
        /\ bridge s' = []).
Proof.
  destruct (measureFiber_null_when_unmeasurable int_truthy slow_clock throwing_7)
    as (_ & Hreturns & _ & Hthrows).
  split.
  - destruct (Hreturns [] alternate_C None (Forall_nil_2 _) (fun v => eq_refl))
      as (s' & Hrun & _ & Hiff & _).
    exists s'. split; [exact Hrun|]. apply Hiff; [reflexivity|]. split; reflexivity.
  - destruct (Hthrows [] alternate_C 7%positive None (Error "callback failed")
                (Forall_nil_2 _) eq_refl (conj eq_refl eq_refl) eq_refl)
      as (s' & Hrun & Hrejected & Hcount & Hbridge & _).
    exists s'. split; [exact Hrun|]. split; [exact Hrejected|].
    split; [exact Hcount | exact Hbridge].
Defined.

(** Two calls with callbacks that return, both answered: nothing waits and
    both promises are fulfilled. *)
Definition two_answered_calls : list (@Input Z) :=
  [call_measureFiber view_A (Some 1%positive); call_measureFiber component_B None;
   host_reply 0 10 20 100 50 10 20; host_reply 0 30 40 100 50 30 40].

Lemma two_answered_calls_are_not_stranded :
  queue (run' int_truthy slow_clock throwing_7 two_answered_calls init) = []
  /\ promises (run' int_truthy slow_clock throwing_7 two_answered_calls init) !! 0%nat
     <> None
  /\ promises (run' int_truthy slow_clock throwing_7 two_answered_calls init) !! 1%nat
     <> None.
Proof.
  assert (Hcalm : Forall (calm_input throwing_7) two_answered_calls).
  { repeat constructor; intros v; reflexivity. }
  assert (Hbridge : bridge (run' int_truthy slow_clock throwing_7 two_answered_calls init)
                    = []) by (vm_compute; reflexivity).
  assert (Hnext : nextPromise (run' int_truthy slow_clock throwing_7 two_answered_calls init)
                  = 2%nat) by (vm_compute; reflexivity).
  destruct (no_request_is_stranded int_truthy slow_clock host_fiber throwing_7
              two_answered_calls Hcalm) as [_ Hdone].
  destruct (Hdone Hbridge) as [Hq Hall]. rewrite Hnext in Hall.
  split; [exact Hq|]. split.
  - destruct (Hall 0%nat ltac:(lia)) as [v ->]. discriminate.
  - destruct (Hall 1%nat ltac:(lia)) as [v ->]. discriminate.
Defined.

(** A render of [view_A] and a call of another user with a callback that
    returns, both answered: when the job queue has run, nothing waits. *)
Definition a_render_and_a_call : list (@Task Z nat) :=
  [rendered no_hooks view_A 1%nat;
   scheduler_input (call_measureFiber component_B (Some 1%positive));
   scheduler_input (host_reply 0 10 20 100 50 10 20);
   scheduler_input (host_reply 0 30 40 100 50 30 40)].

Lemma a_render_and_a_call_are_handled :
  jobs (system_run' int_toString int_truthy steady_clock count_label host_fiber throwing_7
          (a_render_and_a_call ++ [stack_empty]) (boot empty_collection)) = []
  /\ suspended (system_run' int_toString int_truthy steady_clock count_label host_fiber
                  throwing_7 (a_render_and_a_call ++ [stack_empty]) (boot empty_collection))
     = ∅.
Proof.
  assert (Hcalm : Forall (calm_task throwing_7) a_render_and_a_call).
  { repeat constructor; intros v; reflexivity. }
  assert (Hbridge : bridge (scheduler
            (system_run' int_toString int_truthy steady_clock count_label host_fiber
               throwing_7 (a_render_and_a_call ++ [stack_empty]) (boot empty_collection)))
          = []) by (vm_compute; reflexivity).
  destruct (every_render_is_handled int_toString int_truthy steady_clock count_label
              host_fiber throwing_7 a_render_and_a_call empty_collection Hcalm)
    as [Hjobs Hdone].
  split; [exact Hjobs | exact (proj1 (Hdone Hbridge))].
Defined.

(** ** The order of the history *)

(** Two renders at the page origin leave no outline.  And [view_A] renders
    before [view_sibling], the host answers the call for [view_sibling]
    first, with the same geometry for both: the render of [view_sibling]
    comes first in the history. *)
Definition answered_out_of_order : list (@Task Z nat) :=
  [rendered no_hooks view_A 1%nat; rendered no_hooks view_sibling 2%nat;
   scheduler_input (host_reply 1 10 20 100 50 10 20); stack_empty;
   scheduler_input (host_reply 0 10 20 100 50 10 20); stack_empty].

Lemma no_outline_at_the_origin_and_history_in_answer_order :
  aggregate int_toString int_truthy count_label
    [render_of_A at_origin; render_of_B at_origin] empty_collection
  = Normal tt empty_collection
  /\ current empty_collection = []
  /\ fst <$> resumptions
       (system_run int_toString int_truthy steady_clock count_label host_fiber
          answered_out_of_order (boot empty_collection))
     = [mkContinuation view_sibling 2%nat; mkContinuation view_A 1%nat]
  /\ renders_of int_toString
       (internals (system_run int_toString int_truthy steady_clock count_label host_fiber
                     answered_out_of_order (boot empty_collection)))
       "10-20-100-50"
     = [2%nat; 1%nat].
Proof. repeat split; vm_compute; reflexivity. Qed.
